(* ===================================================================== *)
(*  A shallow embedding of the CAS core (parser/ExpressionParser.cpp and  *)
(*  cas/SymbolicEngine.cpp) and the properties of its specification.      *)
(*                                                                       *)
(*  - double        : Rocq's primitive binary64 floats                    *)
(*  - std::string   : string                                              *)
(*  - std::map<std::string,double> : gmap string float                    *)
(*  - exceptions    : the result type [Res], carrying what()              *)
(*  - unique_ptr trees : inductive types (no sharing, deep copies)        *)
(* ===================================================================== *)

From Stdlib Require Import ZArith Ascii String.
From Stdlib Require Import Floats.PrimFloat Floats.FloatOps Floats.SpecFloat.
From Stdlib Require Numbers.Cyclic.Int63.Uint63.
From stdpp Require Import gmap strings list.

Local Open Scope Z_scope.

(* ===================================================================== *)
(** * Results of operations that may throw                                *)
(* ===================================================================== *)

(** [Ok v] is a normal return, [Err msg] a thrown [std::exception] whose
    [what()] is [msg].  [OutOfFuel] is only produced by the recursive
    descent parser when its recursion budget is exhausted.  [Undefined] is
    an operation whose behaviour the C++ standard leaves undefined (a call
    through a null pointer): the program need neither return nor throw, and
    nothing that follows it is specified. *)
Inductive Res (A : Type) : Type :=
| Ok (a : A)
| Err (msg : string)
| OutOfFuel
| Undefined.
Arguments Ok {A} a.
Arguments Err {A} msg.
Arguments OutOfFuel {A}.
Arguments Undefined {A}.

#[global] Instance Res_bind : MBind Res := fun A B (k : A -> Res B) (r : Res A) =>
  match r with
  | Ok a => k a
  | Err m => Err m
  | OutOfFuel => OutOfFuel
  | Undefined => Undefined
  end.

#[global] Instance Res_ret : MRet Res := fun A (a : A) => Ok a.

Definition isOk {A} (r : Res A) : bool :=
  match r with Ok _ => true | _ => false end.

Definition isErr {A} (r : Res A) : bool :=
  match r with Err _ => true | _ => false end.

(** Sequential traversal of a vector, stopping at the first throw. *)
Definition mapM {A B} (f : A -> Res B) : list A -> Res (list B) :=
  fix go (l : list A) : Res (list B) :=
    match l with
    | [] => Ok []
    | a :: l' => b ← f a; bs ← go l'; Ok (b :: bs)
    end.

(* ===================================================================== *)
(** * The C and C++ library routines the program calls                    *)
(* ===================================================================== *)

Module Cxx.

(** ** <cctype>, "C" locale *)

Definition isdigit (c : ascii) : bool :=
  let n := nat_of_ascii c in (48 <=? n)%nat && (n <=? 57)%nat.

Definition isalpha (c : ascii) : bool :=
  let n := nat_of_ascii c in
  ((65 <=? n)%nat && (n <=? 90)%nat) || ((97 <=? n)%nat && (n <=? 122)%nat).

Definition isalnum (c : ascii) : bool := isalpha c || isdigit c.

Definition isspace (c : ascii) : bool :=
  let n := nat_of_ascii c in
  (n =? 32)%nat || ((9 <=? n)%nat && (n <=? 13)%nat).

(** ** Decimal output of integers: [std::to_string(size_t)] and
       [operator<<(long long)] *)

Definition digit_char (d : Z) : ascii := ascii_of_nat (48 + Z.to_nat d).

Fixpoint dec_digits (fuel : nat) (n : Z) (acc : string) : string :=
  match fuel with
  | O => acc
  | S fuel' =>
      let acc' := String (digit_char (n mod 10)) acc in
      if n <? 10 then acc' else dec_digits fuel' (n / 10) acc'
  end.

Definition dec_of_Z (n : Z) : string :=
  dec_digits (S (Z.to_nat (Z.log2 n))) n "".

Definition to_string (n : nat) : string := dec_of_Z (Z.of_nat n).

Definition print_longlong (n : Z) : string :=
  if n <? 0 then String "-" (dec_of_Z (- n)) else dec_of_Z n.

(** ** Binary64 values as exact rationals *)

(** [v >= 10^k] for the positive rational [num/den]. *)
Definition ge_pow10 (num den k : Z) : bool :=
  if 0 <=? k then den * 10 ^ k <=? num else den <=? num * 10 ^ (- k).

(** The decimal exponent [X] with [10^X <= num/den < 10^(X+1)]: an estimate
    from the binary logarithms, corrected by at most a few steps. *)
Fixpoint adjust_exp10 (fuel : nat) (num den x : Z) : Z :=
  match fuel with
  | O => x
  | S fuel' =>
      if ge_pow10 num den (x + 1) then adjust_exp10 fuel' num den (x + 1)
      else if ge_pow10 num den x then x
      else adjust_exp10 fuel' num den (x - 1)
  end.

Definition exp10 (num den : Z) : Z :=
  adjust_exp10 8 num den (((Z.log2 num - Z.log2 den) * 30103) / 100000).

(** Division rounding to nearest, ties to even. *)
Definition div_rne (a b : Z) : Z :=
  let q := a / b in
  let r := a mod b in
  match (2 * r) ?= b with
  | Lt => q
  | Gt => q + 1
  | Eq => if Z.even q then q else q + 1
  end.

(** ** [operator<<(std::ostream&, double)] with the stream defaults, that
       is [printf("%g")] with precision 6 *)

Fixpoint strip_zeros_rev (s : list ascii) : list ascii :=
  match s with
  | c :: s' => if Ascii.eqb c "0" then strip_zeros_rev s' else s
  | [] => []
  end.

Definition strip_trailing_zeros (s : list ascii) : list ascii :=
  rev (strip_zeros_rev (rev s)).

Definition chars (s : string) : list ascii := list_ascii_of_string s.
Definition str (l : list ascii) : string := string_of_list_ascii l.

Definition with_fraction (ip : list ascii) (fp : list ascii) : string :=
  match strip_trailing_zeros fp with
  | [] => str ip
  | fp' => str ip +:+ "." +:+ str fp'
  end.

Definition print_exponent (x : Z) : string :=
  let a := Z.abs x in
  (if x <? 0 then "e-" else "e+") +:+
  (if a <? 10 then String "0" (dec_of_Z a) else dec_of_Z a).

(** [num/den > 0] printed with six significant digits. *)
Definition print_g (num den : Z) : string :=
  let x0 := exp10 num den in
  let d0 := if 0 <=? 5 - x0 then div_rne (num * 10 ^ (5 - x0)) den
            else div_rne num (den * 10 ^ (x0 - 5)) in
  let '(d, x) := if d0 =? 1000000 then (100000, x0 + 1) else (d0, x0) in
  let ds := chars (dec_of_Z d) in
  if (x <? -4) || (6 <=? x) then
    with_fraction (take 1 ds) (drop 1 ds) +:+ print_exponent x
  else if 0 <=? x then
    with_fraction (take (Z.to_nat (x + 1)) ds) (drop (Z.to_nat (x + 1)) ds)
  else
    with_fraction ["0"%char] (replicate (Z.to_nat (- x - 1)) "0"%char ++ ds).

(** [operator<<(double)] with the default precision.  A binary64 NaN has a
    sign, which the stream writes ("nan" or "-nan", the latter for the NaN
    of inf - inf on x86-64); the floats of Rocq have one NaN, so the sign
    is not in the model, which writes "nan". *)
Definition print_double (v : float) : string :=
  match Prim2SF v with
  | S754_nan => "nan"
  | S754_infinity s => if s then "-inf" else "inf"
  | S754_zero s => if s then "-0" else "0"
  | S754_finite s m e =>
      let body := if 0 <=? e then print_g (Z.pos m * 2 ^ e) 1
                  else print_g (Z.pos m) (2 ^ (- e)) in
      if s then String "-" body else body
  end.

(** ** [std::floor(v) == v] and the conversion [(long long)v] *)

Definition is_integral (v : float) : bool :=
  match Prim2SF v with
  | S754_nan => false
  | S754_infinity _ => true
  | S754_zero _ => true
  | S754_finite _ m e => (0 <=? e) || (Z.pos m mod 2 ^ (- e) =? 0)
  end.

(** The conversion is undefined outside the range of [long long]; the value
    given there is the one the x86-64 conversion instruction produces. *)
Definition to_longlong (v : float) : Z :=
  match Prim2SF v with
  | S754_finite s m e =>
      let a := if 0 <=? e then Z.pos m * 2 ^ e else Z.pos m / 2 ^ (- e) in
      let z := if s then - a else a in
      if (- 2 ^ 63 <=? z) && (z <? 2 ^ 63) then z else - 2 ^ 63
  | S754_zero _ => 0
  | _ => - 2 ^ 63
  end.

(** ** [std::stod] on the texts the lexer hands to it

    A NUMBER token is made of digits, at most one point, and possibly an
    exponent mark with a sign and digits; it never carries a sign, white
    space, a hexadecimal prefix or a name.  [stod] converts the longest
    prefix that is a decimal floating constant, correctly rounded, and
    throws [std::invalid_argument] when there is no such prefix and
    [std::out_of_range] when [strtod] reports [ERANGE]; for both, [what()]
    is ["stod"]. *)

Fixpoint span_digits (s : string) : list ascii * string :=
  match s with
  | String c s' =>
      if isdigit c then let '(ds, r) := span_digits s' in (c :: ds, r)
      else ([], s)
  | EmptyString => ([], s)
  end.

Definition digit_val (c : ascii) : Z := Z.of_nat (nat_of_ascii c) - 48.

Definition dec_value (ds : list ascii) : Z :=
  fold_left (fun acc c => 10 * acc + digit_val c) ds 0.

Definition parse_exponent (s : string) : Z :=
  match s with
  | String c s' =>
      if Ascii.eqb c "e" || Ascii.eqb c "E" then
        let '(neg, s'') :=
          match s' with
          | String "+" t => (false, t)
          | String "-" t => (true, t)
          | _ => (false, s')
          end in
        match span_digits s'' with
        | ([], _) => 0
        | (ds, _) => if neg then - dec_value ds else dec_value ds
        end
      else 0
  | EmptyString => 0
  end.

(** The binary64 value nearest to [num/den > 0], with the [ERANGE] cases:
    overflow, and a subnormal or zero result that is not exact. *)
Definition round_binary64 (num den : Z) : Res float :=
  let e0 := Z.log2 num - Z.log2 den - 52 in
  let scaled e := if 0 <=? e then (num, den * 2 ^ e) else (num * 2 ^ (- e), den) in
  let q0 := let '(a, b) := scaled e0 in a / b in
  let e1 := if 2 ^ 53 <=? q0 then e0 + 1 else if q0 <? 2 ^ 52 then e0 - 1 else e0 in
  let e := Z.max e1 (-1074) in
  let '(a, b) := scaled e in
  let q := div_rne a b in
  let exact := a mod b =? 0 in
  let v := Z.ldexp (of_uint63 (Uint63.of_Z q)) e in
  if is_infinity v then Err "stod"
  else if (q <? 2 ^ 52) && negb exact then Err "stod"
  else Ok v.

Definition stod (s : string) : Res float :=
  let '(ip, r1) := span_digits s in
  let '(fp, r2) :=
    match r1 with
    | String "." t => span_digits t
    | _ => ([], r1)
    end in
  match ip ++ fp with
  | [] => Err "stod"
  | ds =>
      let m := dec_value ds in
      let e := parse_exponent r2 - Z.of_nat (length fp) in
      (* about the decimal logarithm of the value, to settle the texts far
         out of range without computing their powers of ten *)
      let magnitude := (Z.log2 m * 30103) / 100000 + e in
      if m =? 0 then Ok zero
      else if 400 <? magnitude then Err "stod"
      else if magnitude <? -400 then Err "stod"
      else if 0 <=? e then round_binary64 (m * 10 ^ e) 1
      else round_binary64 m (10 ^ (- e))
  end.

(** ** <cmath>

    [std::sqrt] and [std::abs] are the correctly rounded IEEE operations.
    The other routines are those of the platform's mathematical library;
    the program is verified for any implementation of them. *)

Record Libm : Type := {
  sin : float -> float;
  cos : float -> float;
  tan : float -> float;
  log10 : float -> float;
  log : float -> float;
  pow : float -> float -> float
}.

End Cxx.

Local Open Scope string_scope.
Local Open Scope float_scope.
Local Open Scope nat_scope.

(* ===================================================================== *)
(** * parser/ExpressionParser.h: tokens and the numeric expression tree   *)
(* ===================================================================== *)

Module TokenType.
Inductive t : Set :=
| NUMBER | VARIABLE | PLUS | MINUS | MULTIPLY | DIVIDE | POWER
| LEFT_PAREN | RIGHT_PAREN | FUNCTION | COMMA | END_OF_FILE | INVALID.

#[global] Instance eq_dec : EqDecision t.
Proof. solve_decision. Defined.
End TokenType.

Module Token.
Record t : Set := mk {
  type : TokenType.t;
  value : string;
  position : nat
}.
End Token.

Module BinaryOpNode.
Inductive OpType : Set := ADD | SUBTRACT | MULTIPLY | DIVIDE | POWER.

#[global] Instance eq_dec : EqDecision OpType.
Proof. solve_decision. Defined.
End BinaryOpNode.

Module UnaryOpNode.
Inductive OpType : Set :=
| POSITIVE | NEGATIVE | SIN | COS | TAN | LOG | LN | SQRT | ABS.

#[global] Instance eq_dec : EqDecision OpType.
Proof. solve_decision. Defined.
End UnaryOpNode.

(** The [ASTNode] class hierarchy as a closed variant; a [unique_ptr] child
    is a subterm. *)
#[warnings="-register-all"] Inductive ASTNode : Type :=
| BinaryOpNode (op : BinaryOpNode.OpType) (left right : ASTNode)
| UnaryOpNode (op : UnaryOpNode.OpType) (operand : ASTNode)
| NumberNode (value : float)
| VariableNode (name : string)
| FunctionNode (functionName : string) (arguments : list ASTNode).

(** [result += ", "] between the printed arguments of a call. *)
Fixpoint join_args (l : list string) : string :=
  match l with
  | [] => ""
  | [s] => s
  | s :: l' => s +:+ ", " +:+ join_args l'
  end.

(** The messages of the domain errors, shared by [UnaryOpNode::evaluate] and
    [FunctionNode::evaluate]. *)
Definition domain_error_log := "Log of non-positive number".
Definition domain_error_ln := "Natural log of non-positive number".
Definition domain_error_sqrt := "Square root of negative number".

Module AST.
Section Evaluate.
Context (M : Cxx.Libm).

Definition binaryOpStr (op : BinaryOpNode.OpType) : string :=
  match op with
  | BinaryOpNode.ADD => "+"
  | BinaryOpNode.SUBTRACT => "-"
  | BinaryOpNode.MULTIPLY => "*"
  | BinaryOpNode.DIVIDE => "/"
  | BinaryOpNode.POWER => "^"
  end.

Fixpoint toString (n : ASTNode) : string :=
  match n with
  | BinaryOpNode op l r =>
      "(" +:+ toString l +:+ " " +:+ binaryOpStr op +:+ " " +:+ toString r +:+ ")"
  | UnaryOpNode op x =>
      match op with
      | UnaryOpNode.POSITIVE => "+" +:+ toString x
      | UnaryOpNode.NEGATIVE => "-" +:+ toString x
      | UnaryOpNode.SIN => "sin(" +:+ toString x +:+ ")"
      | UnaryOpNode.COS => "cos(" +:+ toString x +:+ ")"
      | UnaryOpNode.TAN => "tan(" +:+ toString x +:+ ")"
      | UnaryOpNode.LOG => "log(" +:+ toString x +:+ ")"
      | UnaryOpNode.LN => "ln(" +:+ toString x +:+ ")"
      | UnaryOpNode.SQRT => "sqrt(" +:+ toString x +:+ ")"
      | UnaryOpNode.ABS => "abs(" +:+ toString x +:+ ")"
      end
  | NumberNode v => Cxx.print_double v
  | VariableNode name => name
  | FunctionNode f args => f +:+ "(" +:+ join_args (map toString args) +:+ ")"
  end.

Definition evalBinary (op : BinaryOpNode.OpType) (leftVal rightVal : float) : Res float :=
  match op with
  | BinaryOpNode.ADD => Ok (leftVal + rightVal)%float
  | BinaryOpNode.SUBTRACT => Ok (leftVal - rightVal)%float
  | BinaryOpNode.MULTIPLY => Ok (leftVal * rightVal)%float
  | BinaryOpNode.DIVIDE =>
      if (rightVal =? 0)%float then Err "Division by zero"
      else Ok (leftVal / rightVal)%float
  | BinaryOpNode.POWER => Ok (Cxx.pow M leftVal rightVal)
  end.

Definition evalUnary (op : UnaryOpNode.OpType) (val : float) : Res float :=
  match op with
  | UnaryOpNode.POSITIVE => Ok val
  | UnaryOpNode.NEGATIVE => Ok (- val)%float
  | UnaryOpNode.SIN => Ok (Cxx.sin M val)
  | UnaryOpNode.COS => Ok (Cxx.cos M val)
  | UnaryOpNode.TAN => Ok (Cxx.tan M val)
  | UnaryOpNode.LOG =>
      if (val <=? 0)%float then Err domain_error_log else Ok (Cxx.log10 M val)
  | UnaryOpNode.LN =>
      if (val <=? 0)%float then Err domain_error_ln else Ok (Cxx.log M val)
  | UnaryOpNode.SQRT =>
      if (val <? 0)%float then Err domain_error_sqrt else Ok (PrimFloat.sqrt val)
  | UnaryOpNode.ABS => Ok (PrimFloat.abs val)
  end.

(** The chain of [if (functionName == ...)] of [FunctionNode::evaluate]. *)
Definition evalFunction (functionName : string) (arg : float) : Res float :=
  if decide (functionName = "sin") then Ok (Cxx.sin M arg)
  else if decide (functionName = "cos") then Ok (Cxx.cos M arg)
  else if decide (functionName = "tan") then Ok (Cxx.tan M arg)
  else if decide (functionName = "log") then
    if (arg <=? 0)%float then Err domain_error_log else Ok (Cxx.log10 M arg)
  else if decide (functionName = "ln") then
    if (arg <=? 0)%float then Err domain_error_ln else Ok (Cxx.log M arg)
  else if decide (functionName = "sqrt") then
    if (arg <? 0)%float then Err domain_error_sqrt else Ok (PrimFloat.sqrt arg)
  else if decide (functionName = "abs") then Ok (PrimFloat.abs arg)
  else Err ("Unknown function: " +:+ functionName).

Fixpoint evaluate (n : ASTNode) (variables : gmap string float) : Res float :=
  match n with
  | BinaryOpNode op l r =>
      leftVal ← evaluate l variables;
      rightVal ← evaluate r variables;
      evalBinary op leftVal rightVal
  | UnaryOpNode op x =>
      val ← evaluate x variables;
      evalUnary op val
  | NumberNode v => Ok v
  | VariableNode name =>
      match variables !! name with
      | None => Err ("Undefined variable: " +:+ name)
      | Some v => Ok v
      end
  | FunctionNode f args =>
      match args with
      | [a] => arg ← evaluate a variables; evalFunction f arg
      | _ => Err ("Function " +:+ f +:+ " expects 1 argument")
      end
  end.

Fixpoint clone (n : ASTNode) : ASTNode :=
  match n with
  | BinaryOpNode op l r => BinaryOpNode op (clone l) (clone r)
  | UnaryOpNode op x => UnaryOpNode op (clone x)
  | NumberNode v => NumberNode v
  | VariableNode name => VariableNode name
  | FunctionNode f args => FunctionNode f (map clone args)
  end.
End Evaluate.
End AST.

(* ===================================================================== *)
(** * parser/ExpressionParser.cpp: the lexer                              *)
(* ===================================================================== *)

Module Lexer.

(** The fields [input] and [position]; [length] is [input.length()]. *)
Record t : Set := mk {
  input : string;
  position : nat
}.

Definition length (lx : t) : nat := String.length (input lx).

Definition new (expression : string) : t := mk expression 0.

(** [input[i]] *)
Definition at_ (lx : t) (i : nat) : ascii :=
  match String.get i (input lx) with
  | Some c => c
  | None => "000"%char
  end.

Definition current (lx : t) : ascii := at_ lx (position lx).

(** [position++] *)
Definition bump (lx : t) : t := mk (input lx) (S (position lx)).

(** The loops advance [position] by one per turn and stop at [length], so
    [length - position] turns are enough. *)
Definition remaining (lx : t) : nat := length lx - position lx.

(** A loop [while (position < length && test(input[position])) position++]. *)
Fixpoint advanceWhile (test : ascii -> bool) (fuel : nat) (lx : t) : t :=
  match fuel with
  | O => lx
  | S fuel' =>
      if (position lx <? length lx) && test (current lx)
      then advanceWhile test fuel' (bump lx)
      else lx
  end.

Definition skipWhitespace (lx : t) : t := advanceWhile Cxx.isspace (remaining lx) lx.

Definition is_sign (c : ascii) : bool := Ascii.eqb c "+" || Ascii.eqb c "-".

(** The scientific-notation branch of [readNumber], up to its [break]. *)
Definition readExponent (lx : t) : t :=
  let lx1 := bump lx in
  let lx2 := if (position lx1 <? length lx1) && is_sign (current lx1)
             then bump lx1 else lx1 in
  advanceWhile Cxx.isdigit (remaining lx2) lx2.

Fixpoint readNumber_loop (fuel : nat) (hasDecimal : bool) (lx : t) : t :=
  match fuel with
  | O => lx
  | S fuel' =>
      if position lx <? length lx then
        let c := current lx in
        if Cxx.isdigit c then readNumber_loop fuel' hasDecimal (bump lx)
        else if Ascii.eqb c "." && negb hasDecimal
        then readNumber_loop fuel' true (bump lx)
        else if Ascii.eqb c "e" || Ascii.eqb c "E" then readExponent lx
        else lx
      else lx
  end.

Definition readNumber (lx : t) : Token.t * t :=
  let start := position lx in
  let lx' := readNumber_loop (remaining lx) false lx in
  let numberStr := substring start (position lx' - start) (input lx) in
  (Token.mk TokenType.NUMBER numberStr start, lx').

Definition functions : list string :=
  ["sin"; "cos"; "tan"; "log"; "ln"; "sqrt"; "abs"].

Definition isFunction (identifier : string) : bool :=
  bool_decide (identifier ∈ functions).

Definition is_ident_char (c : ascii) : bool :=
  Cxx.isalnum c || Ascii.eqb c "_".

Definition readIdentifier (lx : t) : Token.t * t :=
  let start := position lx in
  let lx' := advanceWhile is_ident_char (remaining lx) lx in
  let identifier := substring start (position lx' - start) (input lx) in
  let type := if isFunction identifier then TokenType.FUNCTION
              else TokenType.VARIABLE in
  (Token.mk type identifier start, lx').

(** The [switch] over single-character tokens. *)
Definition punctuation (c : ascii) : TokenType.t :=
  if Ascii.eqb c "+" then TokenType.PLUS
  else if Ascii.eqb c "-" then TokenType.MINUS
  else if Ascii.eqb c "*" then TokenType.MULTIPLY
  else if Ascii.eqb c "/" then TokenType.DIVIDE
  else if Ascii.eqb c "^" then TokenType.POWER
  else if Ascii.eqb c "(" then TokenType.LEFT_PAREN
  else if Ascii.eqb c ")" then TokenType.RIGHT_PAREN
  else if Ascii.eqb c "," then TokenType.COMMA
  else TokenType.INVALID.

Definition getNextToken (lx0 : t) : Token.t * t :=
  let lx := skipWhitespace lx0 in
  if length lx <=? position lx then
    (Token.mk TokenType.END_OF_FILE "" (position lx), lx)
  else
    let current := current lx in
    let currentPos := position lx in
    if Cxx.isdigit current || Ascii.eqb current "." then readNumber lx
    else if Cxx.isalpha current || Ascii.eqb current "_" then readIdentifier lx
    else (Token.mk (punctuation current) (String current "") currentPos, bump lx).

Definition reset (lx : t) : t := mk (input lx) 0.

Definition getPosition (lx : t) : nat := position lx.

End Lexer.

(* ===================================================================== *)
(** * parser/ExpressionParser.cpp: the recursive descent parser           *)
(* ===================================================================== *)

Module Parser.

Record t : Set := mk {
  lexer : Lexer.t;
  currentToken : Token.t
}.

Definition advance (p : t) : t :=
  let '(tok, lx) := Lexer.getNextToken (lexer p) in mk lx tok.

(** The constructor [Parser(expression)]. *)
Definition new (expression : string) : t :=
  advance (mk (Lexer.new expression) (Token.mk TokenType.INVALID "" 0)).

Definition throwError {A : Type} (message : string) : Res A := Err message.

Definition currentType (p : t) : TokenType.t := Token.type (currentToken p).

Definition expect (type : TokenType.t) (message : string) (p : t) : Res unit :=
  if decide (currentType p = type) then Ok tt
  else
    let expected := if decide (message = "") then "Unexpected token" else message in
    throwError (expected +:+ " at position " +:+
                Cxx.to_string (Token.position (currentToken p))).

Definition getPrecedence (type : TokenType.t) : nat :=
  match type with
  | TokenType.PLUS | TokenType.MINUS => 1
  | TokenType.MULTIPLY | TokenType.DIVIDE => 2
  | TokenType.POWER => 3
  | _ => 0
  end.

Definition isRightAssociative (type : TokenType.t) : bool :=
  bool_decide (type = TokenType.POWER).

(** The condition of the [while] of [parseFactor]: an explicit [*] or [/],
    or a token that can start a factor. *)
Definition continuesFactor (type : TokenType.t) : bool :=
  match type with
  | TokenType.MULTIPLY | TokenType.DIVIDE
  | TokenType.NUMBER | TokenType.VARIABLE
  | TokenType.FUNCTION | TokenType.LEFT_PAREN => true
  | _ => false
  end.

(** The parsing methods.  The C++ recursion is not structural, so every
    call (and every turn of a [while]) spends one unit of [fuel]; a run
    that exhausts it yields [OutOfFuel], never a tree or an error. *)
Fixpoint parseExpression (fuel : nat) (p : t) : Res (ASTNode * t) :=
  match fuel with
  | O => OutOfFuel
  | S fuel' => parseTerm fuel' p
  end

with parseTerm (fuel : nat) (p : t) : Res (ASTNode * t) :=
  match fuel with
  | O => OutOfFuel
  | S fuel' =>
      '(left_, p1) ← parseFactor fuel' p;
      parseTerm_while fuel' left_ p1
  end

with parseTerm_while (fuel : nat) (left_ : ASTNode) (p : t) : Res (ASTNode * t) :=
  match fuel with
  | O => OutOfFuel
  | S fuel' =>
      match currentType p with
      | TokenType.PLUS | TokenType.MINUS =>
          let op := if decide (currentType p = TokenType.PLUS)
                    then BinaryOpNode.ADD else BinaryOpNode.SUBTRACT in
          let p1 := advance p in
          '(right_, p2) ← parseFactor fuel' p1;
          parseTerm_while fuel' (BinaryOpNode op left_ right_) p2
      | _ => Ok (left_, p)
      end
  end

with parseFactor (fuel : nat) (p : t) : Res (ASTNode * t) :=
  match fuel with
  | O => OutOfFuel
  | S fuel' =>
      '(left_, p1) ← parsePower fuel' p;
      parseFactor_while fuel' left_ p1
  end

with parseFactor_while (fuel : nat) (left_ : ASTNode) (p : t) : Res (ASTNode * t) :=
  match fuel with
  | O => OutOfFuel
  | S fuel' =>
      if continuesFactor (currentType p) then
        let '(op, p1) :=
          match currentType p with
          | TokenType.MULTIPLY => (BinaryOpNode.MULTIPLY, advance p)
          | TokenType.DIVIDE => (BinaryOpNode.DIVIDE, advance p)
          | _ => (BinaryOpNode.MULTIPLY, p)   (* implicit multiplication *)
          end in
        '(right_, p2) ← parsePower fuel' p1;
        parseFactor_while fuel' (BinaryOpNode op left_ right_) p2
      else Ok (left_, p)
  end

with parsePower (fuel : nat) (p : t) : Res (ASTNode * t) :=
  match fuel with
  | O => OutOfFuel
  | S fuel' =>
      '(left_, p1) ← parsePrimary fuel' p;
      match currentType p1 with
      | TokenType.POWER =>
          let p2 := advance p1 in
          '(right_, p3) ← parsePower fuel' p2;
          Ok (BinaryOpNode BinaryOpNode.POWER left_ right_, p3)
      | _ => Ok (left_, p1)
      end
  end

with parsePrimary (fuel : nat) (p : t) : Res (ASTNode * t) :=
  match fuel with
  | O => OutOfFuel
  | S fuel' =>
      match currentType p with
      | TokenType.NUMBER =>
          value ← Cxx.stod (Token.value (currentToken p));
          Ok (NumberNode value, advance p)
      | TokenType.VARIABLE =>
          let varName := Token.value (currentToken p) in
          Ok (VariableNode varName, advance p)
      | TokenType.FUNCTION => parseFunction fuel' p
      | TokenType.LEFT_PAREN =>
          let p1 := advance p in
          '(expr, p2) ← parseExpression fuel' p1;
          _ ← expect TokenType.RIGHT_PAREN "Expected closing parenthesis" p2;
          Ok (expr, advance p2)
      | TokenType.PLUS | TokenType.MINUS =>
          let op := if decide (currentType p = TokenType.PLUS)
                    then UnaryOpNode.POSITIVE else UnaryOpNode.NEGATIVE in
          let p1 := advance p in
          '(operand, p2) ← parsePrimary fuel' p1;
          Ok (UnaryOpNode op operand, p2)
      | _ => throwError ("Unexpected token: " +:+ Token.value (currentToken p))
      end
  end

with parseFunction (fuel : nat) (p : t) : Res (ASTNode * t) :=
  match fuel with
  | O => OutOfFuel
  | S fuel' =>
      let funcName := Token.value (currentToken p) in
      let p1 := advance p in
      _ ← expect TokenType.LEFT_PAREN
            "Expected opening parenthesis after function name" p1;
      let p2 := advance p1 in
      '(arguments, p3) ←
        (if decide (currentType p2 = TokenType.RIGHT_PAREN) then Ok ([], p2)
         else
           '(arg, p3) ← parseExpression fuel' p2;
           parseFunction_while fuel' [arg] p3);
      _ ← expect TokenType.RIGHT_PAREN "Expected closing parenthesis" p3;
      Ok (FunctionNode funcName arguments, advance p3)
  end

with parseFunction_while (fuel : nat) (arguments : list ASTNode) (p : t)
  : Res (list ASTNode * t) :=
  match fuel with
  | O => OutOfFuel
  | S fuel' =>
      match currentType p with
      | TokenType.COMMA =>
          let p1 := advance p in
          '(arg, p2) ← parseExpression fuel' p1;
          parseFunction_while fuel' (arguments ++ [arg]) p2
      | _ => Ok (arguments, p)
      end
  end.

(** [Parser::parse]: the [catch] rethrows the message it caught, unchanged. *)
Definition parse (fuel : nat) (p : t) : Res ASTNode :=
  '(result, p1) ← parseExpression fuel p;
  _ ← expect TokenType.END_OF_FILE "Expected end of expression" p1;
  Ok result.

End Parser.

(** The facade [ExpressionParser]. *)
Module ExpressionParser.

Record t : Type := mk {
  ast : option ASTNode;
  lastError : string;
  hasParsingError : bool
}.

Definition new : t := mk None "" false.

(** [parse] returns the [bool] of the C++ method and the updated object. *)
Definition parse (fuel : nat) (expression : string) (self : t) : Res (bool * t) :=
  match Parser.parse fuel (Parser.new expression) with
  | Ok tree => Ok (true, mk (Some tree) "" false)
  | Err what => Ok (false, mk None what true)
  | OutOfFuel => OutOfFuel
  | Undefined => Undefined
  end.

Definition evaluate (M : Cxx.Libm) (self : t) (variables : gmap string float)
  : Res float :=
  match ast self with
  | None => Err "No expression parsed"
  | Some tree => AST.evaluate M tree variables
  end.

Definition toString (self : t) : string :=
  match ast self with
  | None => "No expression parsed"
  | Some tree => AST.toString tree
  end.

Definition getAST (self : t) : option ASTNode := ast self.

Definition hasError (self : t) : bool := hasParsingError self.

Definition getError (self : t) : string := lastError self.

Definition cloneAST (self : t) : option ASTNode := AST.clone <$> ast self.

End ExpressionParser.

(* ===================================================================== *)
(** * cas/SymbolicEngine.h: the symbolic expression tree                  *)
(* ===================================================================== *)

Module SymbolicBinaryOp.
Inductive OpType : Set := ADD | SUBTRACT | MULTIPLY | DIVIDE | POWER.

#[global] Instance eq_dec : EqDecision OpType.
Proof. solve_decision. Defined.
End SymbolicBinaryOp.

Module SymbolicUnaryOp.
Inductive OpType : Set :=
| POSITIVE | NEGATIVE | SIN | COS | TAN | LOG | LN | SQRT | ABS.

#[global] Instance eq_dec : EqDecision OpType.
Proof. solve_decision. Defined.
End SymbolicUnaryOp.

#[warnings="-register-all"] Inductive SymbolicExpression : Type :=
| SymbolicBinaryOp (op : SymbolicBinaryOp.OpType) (left right : SymbolicExpression)
| SymbolicUnaryOp (op : SymbolicUnaryOp.OpType) (operand : SymbolicExpression)
| SymbolicNumber (value : float)
| SymbolicVariable (name : string)
| SymbolicFunction (functionName : string) (arguments : list SymbolicExpression).

Definition makeSymbolicNumber := SymbolicNumber.
Definition makeSymbolicVariable := SymbolicVariable.
Definition makeSymbolicBinaryOp := SymbolicBinaryOp.
Definition makeSymbolicUnaryOp := SymbolicUnaryOp.
Definition makeSymbolicFunction := SymbolicFunction.

(* ===================================================================== *)
(** * cas/SymbolicEngine.cpp: the operations of the symbolic nodes        *)
(* ===================================================================== *)

Module Symbolic.
Import SymbolicBinaryOp SymbolicUnaryOp.

(** ** Classification predicates *)

Fixpoint isConstant (e : SymbolicExpression) : bool :=
  match e with
  | SymbolicBinaryOp _ l r => isConstant l && isConstant r
  | SymbolicUnaryOp _ x => isConstant x
  | SymbolicNumber _ => true
  | SymbolicVariable _ => false
  | SymbolicFunction _ args => forallb isConstant args
  end.

Fixpoint isZero (e : SymbolicExpression) : bool :=
  match e with
  | SymbolicBinaryOp _ _ _ => false
  | SymbolicUnaryOp _ x => isZero x
  | SymbolicNumber v => (v =? 0)%float
  | SymbolicVariable _ => false
  | SymbolicFunction _ _ => false
  end.

Definition isOne (e : SymbolicExpression) : bool :=
  match e with
  | SymbolicNumber v => (v =? 1)%float
  | _ => false
  end.

Fixpoint clone (e : SymbolicExpression) : SymbolicExpression :=
  match e with
  | SymbolicBinaryOp op l r => makeSymbolicBinaryOp op (clone l) (clone r)
  | SymbolicUnaryOp op x => makeSymbolicUnaryOp op (clone x)
  | SymbolicNumber v => SymbolicNumber v
  | SymbolicVariable name => SymbolicVariable name
  | SymbolicFunction f args => makeSymbolicFunction f (map clone args)
  end.

(** ** Printing *)

(** [if (std::floor(v) == v) oss << (long long)v; else oss << v;] *)
Definition print_coefficient (v : float) : string :=
  if Cxx.is_integral v then Cxx.print_longlong (Cxx.to_longlong v)
  else Cxx.print_double v.

(** The three [dynamic_cast]s that decide whether the other factor of a
    coefficient is parenthesised. *)
Definition needParens (e : SymbolicExpression) : bool :=
  match e with
  | SymbolicVariable _ | SymbolicFunction _ _ | SymbolicUnaryOp _ _ => false
  | _ => true
  end.

Definition coefficient_form (coeff : float) (other : SymbolicExpression)
    (s : string) : string :=
  if (coeff =? 1)%float then s
  else if (coeff =? -1)%float then "-" +:+ s
  else print_coefficient coeff +:+ (if needParens other then "(" +:+ s +:+ ")" else s).

Definition unaryPrefix (op : SymbolicUnaryOp.OpType) : string * string :=
  match op with
  | POSITIVE => ("+", "")
  | NEGATIVE => ("-", "")
  | SIN => ("sin(", ")")
  | COS => ("cos(", ")")
  | TAN => ("tan(", ")")
  | LOG => ("log(", ")")
  | LN => ("ln(", ")")
  | SQRT => ("sqrt(", ")")
  | ABS => ("abs(", ")")
  end.

Fixpoint toString (e : SymbolicExpression) : string :=
  match e with
  | SymbolicBinaryOp op l r =>
      let infix opStr :=
        "(" +:+ toString l +:+ " " +:+ opStr +:+ " " +:+ toString r +:+ ")" in
      match op with
      | MULTIPLY =>
          if isConstant l && isConstant r then
            match l, r with
            | SymbolicNumber a, SymbolicNumber b => print_coefficient (a * b)%float
            | _, _ => infix "*"
            end
          else if isConstant l && negb (isConstant r) then
            match l with
            | SymbolicNumber coeff => coefficient_form coeff r (toString r)
            | _ => infix "*"
            end
          else if negb (isConstant l) && isConstant r then
            match r with
            | SymbolicNumber coeff => coefficient_form coeff l (toString l)
            | _ => infix "*"
            end
          else infix "*"
      | ADD => infix "+"
      | SUBTRACT => infix "-"
      | DIVIDE => infix "/"
      | POWER => infix "^"
      end
  | SymbolicUnaryOp op x =>
      fst (unaryPrefix op) +:+ toString x +:+ snd (unaryPrefix op)
  | SymbolicNumber v => Cxx.print_double v
  | SymbolicVariable name => name
  | SymbolicFunction f args => f +:+ "(" +:+ join_args (map toString args) +:+ ")"
  end.

Section Operations.
Context (M : Cxx.Libm).

(** ** Numeric evaluation *)

Definition evalBinary (op : SymbolicBinaryOp.OpType) (leftVal rightVal : float)
  : Res float :=
  match op with
  | ADD => Ok (leftVal + rightVal)%float
  | SUBTRACT => Ok (leftVal - rightVal)%float
  | MULTIPLY => Ok (leftVal * rightVal)%float
  | DIVIDE =>
      if (rightVal =? 0)%float then Err "Division by zero"
      else Ok (leftVal / rightVal)%float
  | POWER => Ok (Cxx.pow M leftVal rightVal)
  end.

Definition evalUnary (op : SymbolicUnaryOp.OpType) (val : float) : Res float :=
  match op with
  | POSITIVE => Ok val
  | NEGATIVE => Ok (- val)%float
  | SIN => Ok (Cxx.sin M val)
  | COS => Ok (Cxx.cos M val)
  | TAN => Ok (Cxx.tan M val)
  | LOG => if (val <=? 0)%float then Err domain_error_log else Ok (Cxx.log10 M val)
  | LN => if (val <=? 0)%float then Err domain_error_ln else Ok (Cxx.log M val)
  | SQRT => if (val <? 0)%float then Err domain_error_sqrt else Ok (PrimFloat.sqrt val)
  | ABS => Ok (PrimFloat.abs val)
  end.

(** [SymbolicFunction::evaluate] repeats the chain of name tests of
    [FunctionNode::evaluate]. *)
Definition evalFunction := AST.evalFunction M.

Fixpoint evaluate (e : SymbolicExpression) (variables : gmap string float)
  : Res float :=
  match e with
  | SymbolicBinaryOp op l r =>
      leftVal ← evaluate l variables;
      rightVal ← evaluate r variables;
      evalBinary op leftVal rightVal
  | SymbolicUnaryOp op x =>
      val ← evaluate x variables;
      evalUnary op val
  | SymbolicNumber v => Ok v
  | SymbolicVariable name =>
      match variables !! name with
      | None => Err ("Undefined variable: " +:+ name)
      | Some v => Ok v
      end
  | SymbolicFunction f args =>
      match args with
      | [a] => arg ← evaluate a variables; evalFunction f arg
      | _ => Err ("Function " +:+ f +:+ " expects 1 argument")
      end
  end.

(** [evaluate()] with the default argument, the empty map. *)
Definition evaluate0 (e : SymbolicExpression) : Res float := evaluate e ∅.

(** ** Differentiation *)

Definition num (v : float) : SymbolicExpression := SymbolicNumber v.

Fixpoint differentiate (e : SymbolicExpression) (variable : string)
  : Res SymbolicExpression :=
  match e with
  | SymbolicNumber _ => Ok (num 0)
  | SymbolicVariable name =>
      if decide (name = variable) then Ok (num 1) else Ok (num 0)
  | SymbolicBinaryOp op l r =>
      match op with
      | ADD | SUBTRACT =>
          leftDeriv ← differentiate l variable;
          rightDeriv ← differentiate r variable;
          Ok (makeSymbolicBinaryOp op leftDeriv rightDeriv)
      | MULTIPLY =>
          leftDeriv ← differentiate l variable;
          rightDeriv ← differentiate r variable;
          let term1 := makeSymbolicBinaryOp MULTIPLY (clone l) rightDeriv in
          let term2 := makeSymbolicBinaryOp MULTIPLY (clone r) leftDeriv in
          Ok (makeSymbolicBinaryOp ADD term1 term2)
      | DIVIDE =>
          leftDeriv ← differentiate l variable;
          rightDeriv ← differentiate r variable;
          let numerator1 := makeSymbolicBinaryOp MULTIPLY (clone r) leftDeriv in
          let numerator2 := makeSymbolicBinaryOp MULTIPLY (clone l) rightDeriv in
          let numerator := makeSymbolicBinaryOp SUBTRACT numerator1 numerator2 in
          let denominator := makeSymbolicBinaryOp POWER (clone r) (num 2) in
          Ok (makeSymbolicBinaryOp DIVIDE numerator denominator)
      | POWER =>
          if isConstant r then
            expVal ← evaluate0 r;
            let newExponent := num (expVal - 1)%float in
            let powerTerm := makeSymbolicBinaryOp POWER (clone l) newExponent in
            baseDeriv ← differentiate l variable;
            let constTerm := num expVal in
            Ok (makeSymbolicBinaryOp MULTIPLY powerTerm
                  (makeSymbolicBinaryOp MULTIPLY constTerm baseDeriv))
          else Err "Differentiation of variable exponents not implemented"
      end
  | SymbolicUnaryOp op x =>
      operandDeriv ← differentiate x variable;
      match op with
      | POSITIVE => Ok operandDeriv
      | NEGATIVE => Ok (makeSymbolicUnaryOp NEGATIVE operandDeriv)
      | SIN =>
          let cosExpr := makeSymbolicUnaryOp COS (clone x) in
          Ok (makeSymbolicBinaryOp MULTIPLY cosExpr operandDeriv)
      | COS =>
          let sinExpr := makeSymbolicUnaryOp SIN (clone x) in
          let negSin := makeSymbolicUnaryOp NEGATIVE sinExpr in
          Ok (makeSymbolicBinaryOp MULTIPLY negSin operandDeriv)
      | TAN =>
          let cosExpr := makeSymbolicUnaryOp COS (clone x) in
          let cosSquared := makeSymbolicBinaryOp POWER cosExpr (num 2) in
          let secSquared := makeSymbolicBinaryOp DIVIDE (num 1) cosSquared in
          Ok (makeSymbolicBinaryOp MULTIPLY secSquared operandDeriv)
      | LN =>
          let oneOverU := makeSymbolicBinaryOp DIVIDE (num 1) (clone x) in
          Ok (makeSymbolicBinaryOp MULTIPLY oneOverU operandDeriv)
      | SQRT =>
          let sqrtU := makeSymbolicUnaryOp SQRT (clone x) in
          let twoSqrtU := makeSymbolicBinaryOp MULTIPLY (num 2) sqrtU in
          let oneOverTwoSqrtU := makeSymbolicBinaryOp DIVIDE (num 1) twoSqrtU in
          Ok (makeSymbolicBinaryOp MULTIPLY oneOverTwoSqrtU operandDeriv)
      | LOG | ABS =>
          Err "Differentiation not implemented for this unary operation"
      end
  | SymbolicFunction f args =>
      match args with
      | [a] =>
          argDeriv ← differentiate a variable;
          if decide (f = "sin") then
            let cosExpr := makeSymbolicUnaryOp COS (clone a) in
            Ok (makeSymbolicBinaryOp MULTIPLY cosExpr argDeriv)
          else if decide (f = "cos") then
            let sinExpr := makeSymbolicUnaryOp SIN (clone a) in
            let negSin := makeSymbolicUnaryOp NEGATIVE sinExpr in
            Ok (makeSymbolicBinaryOp MULTIPLY negSin argDeriv)
          else if decide (f = "ln") then
            let oneOverArg := makeSymbolicBinaryOp DIVIDE (num 1) (clone a) in
            Ok (makeSymbolicBinaryOp MULTIPLY oneOverArg argDeriv)
          else Err ("Differentiation not implemented for function: " +:+ f)
      | _ => Err "Differentiation not implemented for multi-argument functions"
      end
  end.

(** ** Simplification *)

(** The rewriting of [SymbolicBinaryOp::simplify] once both children are
    simplified. *)
Definition simplifyBinary (op : SymbolicBinaryOp.OpType)
    (simplifiedLeft simplifiedRight : SymbolicExpression) : Res SymbolicExpression :=
  let bothConstant := isConstant simplifiedLeft && isConstant simplifiedRight in
  let rebuilt := Ok (makeSymbolicBinaryOp op simplifiedLeft simplifiedRight) in
  match op with
  | ADD =>
      if isZero simplifiedLeft then Ok simplifiedRight
      else if isZero simplifiedRight then Ok simplifiedLeft
      else if bothConstant then
        a ← evaluate0 simplifiedLeft; b ← evaluate0 simplifiedRight;
        Ok (num (a + b)%float)
      else rebuilt
  | SUBTRACT =>
      if isZero simplifiedRight then Ok simplifiedLeft
      else if isZero simplifiedLeft then
        Ok (makeSymbolicUnaryOp NEGATIVE simplifiedRight)
      else if bothConstant then
        a ← evaluate0 simplifiedLeft; b ← evaluate0 simplifiedRight;
        Ok (num (a - b)%float)
      else rebuilt
  | MULTIPLY =>
      if isZero simplifiedLeft || isZero simplifiedRight then Ok (num 0)
      else if isOne simplifiedLeft then Ok simplifiedRight
      else if isOne simplifiedRight then Ok simplifiedLeft
      else if bothConstant then
        a ← evaluate0 simplifiedLeft; b ← evaluate0 simplifiedRight;
        Ok (num (a * b)%float)
      else rebuilt
  | DIVIDE =>
      if isZero simplifiedRight then Err "Division by zero"
      else if isZero simplifiedLeft then Ok (num 0)
      else if isOne simplifiedRight then Ok simplifiedLeft
      else if bothConstant then
        a ← evaluate0 simplifiedLeft; b ← evaluate0 simplifiedRight;
        Ok (num (a / b)%float)
      else rebuilt
  | POWER =>
      if isZero simplifiedRight then Ok (num 1)
      else if isOne simplifiedRight then Ok simplifiedLeft
      else if isZero simplifiedLeft then Ok (num 0)
      else if isOne simplifiedLeft then Ok (num 1)
      else if bothConstant then
        a ← evaluate0 simplifiedLeft; b ← evaluate0 simplifiedRight;
        Ok (num (Cxx.pow M a b))
      else rebuilt
  end.

(** The [dynamic_cast] of the double-negative test: the operand of a
    NEGATIVE node, if the expression is one. *)
Definition asNegative (e : SymbolicExpression) : option SymbolicExpression :=
  match e with
  | SymbolicUnaryOp NEGATIVE x => Some x
  | _ => None
  end.

(** [SymbolicUnaryOp::simplify] once the operand is simplified; [self] is the
    node being simplified, which the constant case evaluates. *)
Definition simplifyUnary (self : SymbolicExpression) (op : SymbolicUnaryOp.OpType)
    (simplifiedOperand : SymbolicExpression) : Res SymbolicExpression :=
  let fold :=
    if isConstant simplifiedOperand then v ← evaluate0 self; Ok (num v)
    else Ok (makeSymbolicUnaryOp op simplifiedOperand) in
  match op with
  | POSITIVE => Ok simplifiedOperand
  | NEGATIVE =>
      if isZero simplifiedOperand then Ok (num 0)
      else match asNegative simplifiedOperand with
           | Some inner => Ok (clone inner)
           | None => fold
           end
  | _ => fold
  end.

Fixpoint simplify (e : SymbolicExpression) : Res SymbolicExpression :=
  match e with
  | SymbolicNumber v => Ok (SymbolicNumber v)
  | SymbolicVariable name => Ok (SymbolicVariable name)
  | SymbolicBinaryOp op l r =>
      simplifiedLeft ← simplify l;
      simplifiedRight ← simplify r;
      simplifyBinary op simplifiedLeft simplifiedRight
  | SymbolicUnaryOp op x =>
      simplifiedOperand ← simplify x;
      simplifyUnary e op simplifiedOperand
  | SymbolicFunction f args =>
      simplifiedArgs ← mapM simplify args;
      if forallb isConstant simplifiedArgs then v ← evaluate0 e; Ok (num v)
      else Ok (makeSymbolicFunction f simplifiedArgs)
  end.

(** ** Integration *)

Definition var (name : string) : SymbolicExpression := SymbolicVariable name.

(** The antiderivatives of sin and cos at the bare integration variable,
    built by [SymbolicUnaryOp::integrate] and [SymbolicFunction::integrate]. *)
Definition integralOfSin (variable : string) : SymbolicExpression :=
  makeSymbolicUnaryOp NEGATIVE (makeSymbolicUnaryOp COS (var variable)).

Definition integralOfCos (variable : string) : SymbolicExpression :=
  makeSymbolicUnaryOp SIN (var variable).

(** [p->clone()] through a [unique_ptr] that may have been moved from:
    [None] is the null pointer. *)
Definition cloneThrough (p : option SymbolicExpression) : Res SymbolicExpression :=
  match p with
  | Some e => Ok (clone e)
  | None => Undefined
  end.

(** The antiderivative of ln at the bare integration variable.  Both
    integrate methods build it by
    [makeSymbolicBinaryOp(MULTIPLY, x->clone(), makeSymbolicUnaryOp(LN, std::move(x)))]:
    the two arguments that use [x] are indeterminately sequenced, and in
    the order that initialises the last argument first (the one g++ takes)
    the tree has been moved out of [x], which is null when [clone] is
    called through it.  An execution the standard allows is undefined, so
    the behaviour of the call is. *)
Definition integralOfLn (variable : string) : Res SymbolicExpression :=
  let x := var variable in
  let lnX := makeSymbolicUnaryOp LN x in
  let x : option SymbolicExpression := None in
  xClone ← cloneThrough x;
  let xLnX := makeSymbolicBinaryOp MULTIPLY xClone lnX in
  Ok (makeSymbolicBinaryOp SUBTRACT xLnX (var variable)).

Fixpoint integrate (e : SymbolicExpression) (variable : string)
  : Res SymbolicExpression :=
  match e with
  | SymbolicNumber v =>
      Ok (SymbolicBinaryOp MULTIPLY (SymbolicNumber v) (var variable))
  | SymbolicVariable name =>
      if decide (name = variable) then
        Ok (SymbolicBinaryOp DIVIDE
              (SymbolicBinaryOp POWER (var variable) (num 2)) (num 2))
      else Ok (SymbolicBinaryOp MULTIPLY (var name) (var variable))
  | SymbolicBinaryOp op l r =>
      match op with
      | ADD | SUBTRACT =>
          leftIntegral ← integrate l variable;
          rightIntegral ← integrate r variable;
          Ok (makeSymbolicBinaryOp op leftIntegral rightIntegral)
      | MULTIPLY =>
          if isConstant l && negb (isConstant r) then
            rightIntegral ← integrate r variable;
            Ok (makeSymbolicBinaryOp MULTIPLY (clone l) rightIntegral)
          else if negb (isConstant l) && isConstant r then
            leftIntegral ← integrate l variable;
            Ok (makeSymbolicBinaryOp MULTIPLY leftIntegral (clone r))
          else Err "Integration by parts not implemented for general multiplication"
      | DIVIDE =>
          if isConstant l && bool_decide (toString r = variable) then
            Ok (makeSymbolicBinaryOp MULTIPLY (clone l)
                  (makeSymbolicUnaryOp LN (var variable)))
          else Err "Complex division integration not implemented"
      | POWER =>
          if bool_decide (toString l = variable) && isConstant r then
            expVal ← evaluate0 r;
            if (expVal =? -1)%float then
              Ok (makeSymbolicUnaryOp LN (var variable))
            else if negb (expVal =? -1)%float then
              let newExponent := num (expVal + 1)%float in
              let powerTerm := makeSymbolicBinaryOp POWER (var variable) newExponent in
              let denominator := num (expVal + 1)%float in
              Ok (makeSymbolicBinaryOp DIVIDE powerTerm denominator)
            else Err "Complex power integration not implemented"
          else Err "Complex power integration not implemented"
      end
  | SymbolicUnaryOp op x =>
      match op with
      | POSITIVE => integrate x variable
      | NEGATIVE =>
          integral ← integrate x variable;
          Ok (makeSymbolicUnaryOp NEGATIVE integral)
      | SIN =>
          if decide (toString x = variable) then Ok (integralOfSin variable)
          else Err "Complex sine integration not implemented"
      | COS =>
          if decide (toString x = variable) then Ok (integralOfCos variable)
          else Err "Complex cosine integration not implemented"
      | LN =>
          if decide (toString x = variable) then integralOfLn variable
          else Err "Complex logarithm integration not implemented"
      | _ => Err "Integration not implemented for this unary operation"
      end
  | SymbolicFunction f args =>
      match args with
      | [a] =>
          if bool_decide (f = "sin") && bool_decide (toString a = variable)
          then Ok (integralOfSin variable)
          else if bool_decide (f = "cos") && bool_decide (toString a = variable)
          then Ok (integralOfCos variable)
          else if bool_decide (f = "ln") && bool_decide (toString a = variable)
          then integralOfLn variable
          else Err ("Integration not implemented for function: " +:+ f)
      | _ => Err "Integration not implemented for multi-argument functions"
      end
  end.

End Operations.
End Symbolic.

(* ===================================================================== *)
(** * cas/SymbolicEngine.cpp: the engine facade                           *)
(* ===================================================================== *)

Module SymbolicEngine.
Import SymbolicBinaryOp SymbolicUnaryOp.

Record t : Type := mk { expression : option SymbolicExpression }.

Definition new : t := mk None.

Definition convertBinaryOp (op : BinaryOpNode.OpType) : SymbolicBinaryOp.OpType :=
  match op with
  | BinaryOpNode.ADD => ADD
  | BinaryOpNode.SUBTRACT => SUBTRACT
  | BinaryOpNode.MULTIPLY => MULTIPLY
  | BinaryOpNode.DIVIDE => DIVIDE
  | BinaryOpNode.POWER => POWER
  end.

Definition convertUnaryOp (op : UnaryOpNode.OpType) : SymbolicUnaryOp.OpType :=
  match op with
  | UnaryOpNode.POSITIVE => POSITIVE
  | UnaryOpNode.NEGATIVE => NEGATIVE
  | UnaryOpNode.SIN => SIN
  | UnaryOpNode.COS => COS
  | UnaryOpNode.TAN => TAN
  | UnaryOpNode.LOG => LOG
  | UnaryOpNode.LN => LN
  | UnaryOpNode.SQRT => SQRT
  | UnaryOpNode.ABS => ABS
  end.

(** The throwing branches of the C++ function (null node, unknown node or
    operation kind) cannot be reached from a value of the closed variant. *)
Fixpoint convertASTToSymbolic (ast : ASTNode) : SymbolicExpression :=
  match ast with
  | NumberNode v => SymbolicNumber v
  | VariableNode name => SymbolicVariable name
  | BinaryOpNode op l r =>
      makeSymbolicBinaryOp (convertBinaryOp op)
        (convertASTToSymbolic l) (convertASTToSymbolic r)
  | UnaryOpNode op x =>
      makeSymbolicUnaryOp (convertUnaryOp op) (convertASTToSymbolic x)
  | FunctionNode f args =>
      makeSymbolicFunction f (map convertASTToSymbolic args)
  end.

Definition parseFromAST (ast : option ASTNode) (self : t) : bool * t :=
  match ast with
  | None => (false, self)
  | Some tree => (true, mk (Some (convertASTToSymbolic tree)))
  end.

Definition parseFromString (fuel : nat) (expressionStr : string) (self : t)
  : Res (bool * t) :=
  '(ok, parser) ← ExpressionParser.parse fuel expressionStr ExpressionParser.new;
  if ok : bool then Ok (parseFromAST (ExpressionParser.getAST parser) self)
  else Ok (false, self).

Section Operations.
Context (M : Cxx.Libm).

Definition differentiate (self : t) (variable : string) : Res SymbolicExpression :=
  match expression self with
  | None => Err "No expression to differentiate"
  | Some e => Symbolic.differentiate M e variable
  end.

Definition simplify (self : t) : Res SymbolicExpression :=
  match expression self with
  | None => Err "No expression to simplify"
  | Some e => Symbolic.simplify M e
  end.

Definition evaluate (self : t) (variables : gmap string float) : Res float :=
  match expression self with
  | None => Err "No expression to evaluate"
  | Some e => Symbolic.evaluate M e variables
  end.

Definition toString (self : t) : string :=
  match expression self with
  | None => "No expression"
  | Some e => Symbolic.toString e
  end.

Definition integrate (self : t) (variable : string) : Res SymbolicExpression :=
  match expression self with
  | None => Err "No expression to integrate"
  | Some e => Symbolic.integrate M e variable
  end.

(** The body of the [try] of [solve]. *)
Definition solve_try (e : SymbolicExpression) : Res SymbolicExpression :=
  simplified ← Symbolic.simplify M e;
  let notImplemented := Err "Complex equation solving not implemented" in
  match simplified with
  | SymbolicBinaryOp op l r =>
      match op with
      | ADD | SUBTRACT =>
          let left_ := Symbolic.clone l in
          let right_ := Symbolic.clone r in
          if Symbolic.isConstant left_ then
            if decide (op = ADD) then
              let negB := makeSymbolicUnaryOp NEGATIVE left_ in
              Ok (makeSymbolicBinaryOp DIVIDE negB right_)
            else Ok (makeSymbolicBinaryOp DIVIDE left_ right_)
          else notImplemented
      | _ => notImplemented
      end
  | _ => notImplemented
  end.

Definition solve (self : t) (variable : string) : Res SymbolicExpression :=
  match expression self with
  | None => Err "No expression to solve"
  | Some e =>
      match solve_try e with
      | Err what => Err ("Equation solving failed: " +:+ what)
      | r => r
      end
  end.

(** The body of the [try] of [factor]. *)
Definition factor_try (e : SymbolicExpression) : Res (list SymbolicExpression) :=
  simplified ← Symbolic.simplify M e;
  let unfactored := Ok [Symbolic.clone simplified] in
  match simplified with
  | SymbolicBinaryOp MULTIPLY l r => Ok [Symbolic.clone l; Symbolic.clone r]
  | SymbolicBinaryOp ADD (SymbolicBinaryOp POWER b n) r =>
      if bool_decide (Symbolic.toString b = "x")
         && bool_decide (Symbolic.toString n = "2")
         && bool_decide (Symbolic.toString r = "x")
      then Ok [SymbolicVariable "x";
               makeSymbolicBinaryOp ADD (SymbolicVariable "x") (SymbolicNumber 1)]
      else unfactored
  | _ => unfactored
  end.

Definition factor (self : t) : Res (list SymbolicExpression) :=
  match expression self with
  | None => Err "No expression to factor"
  | Some e =>
      match factor_try e with
      | Err what => Err ("Factoring failed: " +:+ what)
      | r => r
      end
  end.

End Operations.
End SymbolicEngine.

(* ===================================================================== *)
(** * grapher/ConsoleGrapher.cpp: the function list and the display buffer *)
(* ===================================================================== *)

(** [std::vector::resize(n, fill)] with [n] an [int] converted to [size_t]:
    a negative [n] becomes a size above [max_size()] and the call throws
    [std::length_error], whose [what()] is left to the library; otherwise
    the vector is cut to [n] elements or extended with copies of [fill]. *)
Definition vector_resize {A : Type} (n : Z) (fill : A) (v : list A) : Res (list A) :=
  if (n <? 0)%Z then Err "std::length_error"
  else Ok (take (Z.to_nat n) v ++ replicate (Z.to_nat n - List.length v) fill)%list.

Module ConsoleGrapher.

Module PlotSettings.
Record t : Type := mk {
  xMin : float;
  xMax : float;
  yMin : float;
  yMax : float;
  width : Z;
  height : Z;
  showGrid : bool;
  showAxes : bool;
  gridChar : ascii;
  axesChar : ascii;
  functionChar : ascii
}.

(** The default member initialisers. *)
Definition default : t :=
  mk (-10) 10 (-10) 10 80%Z 24%Z true true "." "+" "*".
End PlotSettings.

Module Function.
Record t : Type := mk {
  expression : string;
  name : string;
  symbol : ascii;
  ast : option ASTNode
}.

(** The constructor [Function(expr, funcName, funcSymbol)]. *)
Definition new (fuel : nat) (expr funcName : string) (funcSymbol : ascii) : Res t :=
  if decide (expr = "") then Ok (mk expr funcName funcSymbol None)
  else
    '(ok, parser) ← ExpressionParser.parse fuel expr ExpressionParser.new;
    if ok : bool
    then Ok (mk expr funcName funcSymbol (ExpressionParser.cloneAST parser))
    else Ok (mk expr funcName funcSymbol None).

(** The assignment [f.ast = tree]. *)
Definition set_ast (tree : option ASTNode) (f : t) : t :=
  mk (expression f) (name f) (symbol f) tree.
End Function.

Record t : Type := mk {
  settings : PlotSettings.t;
  functions : list Function.t;
  displayBuffer : list (list ascii)
}.

(** The loop [for (auto& row : displayBuffer) row.resize(width, ' ')]: the
    rows as the loop leaves them, and how it ends.  When the resize of a row
    throws, the rows before it have been resized and the others are as they
    were. *)
Fixpoint resizeRows (width : Z) (rows : list (list ascii))
  : list (list ascii) * Res unit :=
  match rows with
  | [] => ([], Ok tt)
  | row :: rows' =>
      match vector_resize width " "%char row with
      | Ok row' =>
          let '(resized, r) := resizeRows width rows' in (row' :: resized, r)
      | r => (row :: rows', r ≫= λ _, Ok tt)
      end
  end.

(** A call of [clearBuffer]: the object as the call leaves it, and how the
    call ends.  [displayBuffer.resize] throws before it changes the vector;
    the loop over the rows throws with the row count already changed. *)
Definition clearBuffer_call (self : t) : t * Res unit :=
  match vector_resize (PlotSettings.height (settings self)) []
          (displayBuffer self) with
  | Ok rows =>
      let '(rows', r) := resizeRows (PlotSettings.width (settings self)) rows in
      (mk (settings self) (functions self) rows', r)
  | r => (self, r ≫= λ _, Ok tt)
  end.

(** The object after a call of [clearBuffer] that returns. *)
Definition clearBuffer (self : t) : Res t :=
  let '(self', r) := clearBuffer_call self in
  r ≫= λ _, Ok self'.

(** The constructor [ConsoleGrapher(settings)]; when [clearBuffer] throws
    in it, no object is constructed. *)
Definition new_with (settings : PlotSettings.t) : Res t :=
  clearBuffer (mk settings [] []).

(** The default constructor. *)
Definition new : Res t := new_with PlotSettings.default.

(** [addFunction] returns the [bool] of the C++ method and the updated
    object.  [ExpressionParser::parse] catches what the parser throws, so
    the [catch] of [addFunction] is never entered. *)
Definition addFunction (fuel : nat) (expression name : string) (symbol : ascii)
    (self : t) : Res (bool * t) :=
  '(ok, parser) ← ExpressionParser.parse fuel expression ExpressionParser.new;
  if ok : bool then
    f ← Function.new fuel expression name symbol;
    let f' := Function.set_ast (ExpressionParser.cloneAST parser) f in
    Ok (true, mk (settings self) (functions self ++ [f'])%list (displayBuffer self))
  else Ok (false, self).

(** [functions.erase(functions.begin() + index)] under its bounds test. *)
Definition removeFunction (index : nat) (self : t) : t :=
  if index <? List.length (functions self)
  then mk (settings self) (delete index (functions self)) (displayBuffer self)
  else self.

Definition clearFunctions (self : t) : t :=
  mk (settings self) [] (displayBuffer self).

Definition setPlotRange (xMin xMax yMin yMax : float) (self : t) : t :=
  let s := settings self in
  mk (PlotSettings.mk xMin xMax yMin yMax
        (PlotSettings.width s) (PlotSettings.height s)
        (PlotSettings.showGrid s) (PlotSettings.showAxes s)
        (PlotSettings.gridChar s) (PlotSettings.axesChar s)
        (PlotSettings.functionChar s))
     (functions self) (displayBuffer self).

(** The assignments [settings.width = width; settings.height = height]. *)
Definition setSize (width height : Z) (self : t) : t :=
  let s := settings self in
  mk (PlotSettings.mk (PlotSettings.xMin s) (PlotSettings.xMax s)
        (PlotSettings.yMin s) (PlotSettings.yMax s) width height
        (PlotSettings.showGrid s) (PlotSettings.showAxes s)
        (PlotSettings.gridChar s) (PlotSettings.axesChar s)
        (PlotSettings.functionChar s))
     (functions self) (displayBuffer self).

(** A call of [setDisplaySize]: the object as the call leaves it, with the
    new width and height also when [clearBuffer] throws, and how the call
    ends. *)
Definition setDisplaySize_call (width height : Z) (self : t) : t * Res unit :=
  clearBuffer_call (setSize width height self).

(** The object after a call of [setDisplaySize] that returns. *)
Definition setDisplaySize (width height : Z) (self : t) : Res t :=
  clearBuffer (setSize width height self).

Definition isValidPoint (self : t) (x y : Z) : bool :=
  ((0 <=? x) && (x <? PlotSettings.width (settings self)) &&
   (0 <=? y) && (y <? PlotSettings.height (settings self)))%Z.

End ConsoleGrapher.

(* ===================================================================== *)
(** * Vocabulary of the properties                                        *)
(* ===================================================================== *)

(** [r'] is [r] or [r] ran out of fuel: more fuel can only turn [OutOfFuel]
    into an answer. *)
Definition refines {A : Type} (r r' : Res A) : Prop := r = OutOfFuel ∨ r = r'.

(** [ExpressionParser::parse] on a text, as the tree or the error message. *)
Definition parseText (fuel : nat) (expression : string) : Res ASTNode :=
  Parser.parse fuel (Parser.new expression).

(** A mathematical library for running the examples.  Its [pow] multiplies
    repeatedly when the exponent is a natural number below 64, which is
    exact whenever the power is representable; nothing else is evaluated by
    the examples, and is left as NaN. *)
Fixpoint pow_nat (x : float) (n : nat) : float :=
  match n with
  | O => 1%float
  | S n' => (x * pow_nat x n')%float
  end.

Definition example_pow (x y : float) : float :=
  if Cxx.is_integral y && (0 <=? y)%float && (y <? 64)%float
  then pow_nat x (Z.to_nat (Cxx.to_longlong y))
  else nan.

Definition example_libm : Cxx.Libm := {|
  Cxx.sin := fun _ => nan;
  Cxx.cos := fun _ => nan;
  Cxx.tan := fun _ => nan;
  Cxx.log10 := fun _ => nan;
  Cxx.log := fun _ => nan;
  Cxx.pow := example_pow
|}.

(** All nine parsing methods give the same answer with one more unit of
    fuel, unless they ran out of it. *)
Definition step_monotone (n : nat) : Prop :=
  (forall p, refines (Parser.parseExpression n p) (Parser.parseExpression (S n) p)) /\
  (forall p, refines (Parser.parseTerm n p) (Parser.parseTerm (S n) p)) /\
  (forall l p, refines (Parser.parseTerm_while n l p) (Parser.parseTerm_while (S n) l p)) /\
  (forall p, refines (Parser.parseFactor n p) (Parser.parseFactor (S n) p)) /\
  (forall l p, refines (Parser.parseFactor_while n l p) (Parser.parseFactor_while (S n) l p)) /\
  (forall p, refines (Parser.parsePower n p) (Parser.parsePower (S n) p)) /\
  (forall p, refines (Parser.parsePrimary n p) (Parser.parsePrimary (S n) p)) /\
  (forall p, refines (Parser.parseFunction n p) (Parser.parseFunction (S n) p)) /\
  (forall a p, refines (Parser.parseFunction_while n a p)
                 (Parser.parseFunction_while (S n) a p)).

(** Short names for the trees of the examples. *)
Definition Num (v : float) : ASTNode := NumberNode v.
Definition Bin := BinaryOpNode.


(** ** Symbolic expressions *)

Module Sym.
Import SymbolicBinaryOp SymbolicUnaryOp.

Definition Add := SymbolicBinaryOp ADD.
Definition Sub := SymbolicBinaryOp SUBTRACT.
Definition Mul := SymbolicBinaryOp MULTIPLY.
Definition Div := SymbolicBinaryOp DIVIDE.
Definition Pow := SymbolicBinaryOp POWER.
Definition Neg := SymbolicUnaryOp NEGATIVE.
Definition Sin := SymbolicUnaryOp SIN.
Definition Lit (v : float) := SymbolicNumber v.
Definition Var (name : string) := SymbolicVariable name.

(** The variable names that occur in an expression. *)
Fixpoint vars (e : SymbolicExpression) : gset string :=
  match e with
  | SymbolicBinaryOp _ l r => vars l ∪ vars r
  | SymbolicUnaryOp _ x => vars x
  | SymbolicNumber _ => ∅
  | SymbolicVariable name => {[ name ]}
  | SymbolicFunction _ args => ⋃ (map vars args)
  end.

(** The engine loaded with the tree of a text. *)
Definition engineOf (fuel : nat) (text : string) : Res SymbolicEngine.t :=
  '(_, engine) ← SymbolicEngine.parseFromString fuel text SymbolicEngine.new;
  Ok engine.

Section WithLibm.
Context (M : Cxx.Libm).

(** No negation in the expression is of a constant or of a negation, the
    two NEGATIVE nodes that [simplify] rewrites. *)
Fixpoint settled (e : SymbolicExpression) : bool :=
  match e with
  | SymbolicBinaryOp _ l r => settled l && settled r
  | SymbolicUnaryOp op x =>
      settled x &&
      match op with
      | NEGATIVE =>
          negb (Symbolic.isConstant x) &&
          bool_decide (Symbolic.asNegative x = None)
      | _ => true
      end
  | SymbolicFunction _ args => forallb settled args
  | SymbolicNumber _ | SymbolicVariable _ => true
  end.

(** An expression each of whose subexpressions, itself included, is left
    unchanged by [simplify] when its negations are settled. *)
#[warnings="-register-all"] Inductive Simplified : SymbolicExpression -> Prop :=
| Simplified_number v : Simplified (SymbolicNumber v)
| Simplified_variable name : Simplified (SymbolicVariable name)
| Simplified_binary op l r :
    Simplified l -> Simplified r ->
    (settled (SymbolicBinaryOp op l r) = true ->
     Symbolic.simplify M (SymbolicBinaryOp op l r) = Ok (SymbolicBinaryOp op l r)) ->
    Simplified (SymbolicBinaryOp op l r)
| Simplified_unary op x :
    Simplified x ->
    (settled (SymbolicUnaryOp op x) = true ->
     Symbolic.simplify M (SymbolicUnaryOp op x) = Ok (SymbolicUnaryOp op x)) ->
    Simplified (SymbolicUnaryOp op x)
| Simplified_function f args :
    Forall Simplified args ->
    (settled (SymbolicFunction f args) = true ->
     Symbolic.simplify M (SymbolicFunction f args) = Ok (SymbolicFunction f args)) ->
    Simplified (SymbolicFunction f args).

End WithLibm.
End Sym.

(** ** The lexer seen from the text that is left to read *)

Module LexSpec.

(** The lexer that has read [pre] and has [s] left. *)
Definition L (pre s : string) : Lexer.t :=
  Lexer.mk (pre +:+ s) (String.length pre).
Arguments L : simpl never.

(** The longest prefix whose characters pass [test], and what follows it. *)
Fixpoint spanWhile (test : ascii -> bool) (s : string) : string * string :=
  match s with
  | String c s' =>
      if test c then let '(u, r) := spanWhile test s' in (String c u, r)
      else ("", s)
  | EmptyString => ("", "")
  end.

(** What [readNumber] reads after an exponent mark. *)
Definition spanExponent (s : string) : string * string :=
  let '(sign, s1) :=
    match s with
    | String d t => if Lexer.is_sign d then (String d "", t) else ("", s)
    | EmptyString => ("", s)
    end in
  let '(ds, r) := spanWhile Cxx.isdigit s1 in (sign +:+ ds, r).

(** The text of the NUMBER token at the head of [s], and what follows it. *)
Fixpoint spanNumber (hasDecimal : bool) (s : string) : string * string :=
  match s with
  | String c s' =>
      if Cxx.isdigit c then
        let '(u, r) := spanNumber hasDecimal s' in (String c u, r)
      else if Ascii.eqb c "." && negb hasDecimal then
        let '(u, r) := spanNumber true s' in (String c u, r)
      else if Ascii.eqb c "e" || Ascii.eqb c "E" then
        let '(u, r) := spanExponent s' in (String c u, r)
      else ("", s)
  | EmptyString => ("", "")
  end.

(** The next token of the text [s] that follows [pre], with the text read
    so far and the text left after it. *)
Definition lexSuffix (pre s : string) : Token.t * (string * string) :=
  let '(ws, s1) := spanWhile Cxx.isspace s in
  let pre1 := pre +:+ ws in
  match s1 with
  | EmptyString =>
      (Token.mk TokenType.END_OF_FILE "" (String.length pre1), (pre1, ""))
  | String c s2 =>
      if Cxx.isdigit c || Ascii.eqb c "." then
        let '(u, r) := spanNumber false s1 in
        (Token.mk TokenType.NUMBER u (String.length pre1), (pre1 +:+ u, r))
      else if Cxx.isalpha c || Ascii.eqb c "_" then
        let '(u, r) := spanWhile Lexer.is_ident_char s1 in
        let type := if Lexer.isFunction u then TokenType.FUNCTION
                    else TokenType.VARIABLE in
        (Token.mk type u (String.length pre1), (pre1 +:+ u, r))
      else
        (Token.mk (Lexer.punctuation c) (String c "") (String.length pre1),
         (pre1 +:+ String c "", s2))
  end.

(** The parser whose current token is the next one of [s]. *)
Definition at_text (pre s : string) : Parser.t :=
  let '(tok, (pre', s')) := lexSuffix pre s in Parser.mk (L pre' s') tok.

End LexSpec.

(** ** Trees that the parser builds, and their printed form *)

Module Printed.

Fixpoint allChars (test : ascii -> bool) (s : string) : bool :=
  match s with
  | String c s' => test c && allChars test s'
  | EmptyString => true
  end.

(** [[A-Za-z_][A-Za-z0-9_]*] *)
Definition isIdentifier (name : string) : bool :=
  match name with
  | String c _ =>
      (Cxx.isalpha c || Ascii.eqb c "_") && allChars Lexer.is_ident_char name
  | EmptyString => false
  end.

Definition isVariableName (name : string) : bool :=
  isIdentifier name && negb (Lexer.isFunction name).

(** What a token of the lexer is known to carry. *)
Definition tokenOk (tok : Token.t) : Prop :=
  match Token.type tok with
  | TokenType.VARIABLE => isVariableName (Token.value tok) = true
  | TokenType.FUNCTION => Lexer.isFunction (Token.value tok) = true
  | _ => True
  end.

(** A parser whose lexer has read a prefix of its input and whose current
    token came from the lexer. *)
Definition stateOk (p : Parser.t) : Prop :=
  tokenOk (Parser.currentToken p) /\
  exists pre s, Parser.lexer p = LexSpec.L pre s.

Definition isSign (op : UnaryOpNode.OpType) : bool :=
  match op with
  | UnaryOpNode.POSITIVE | UnaryOpNode.NEGATIVE => true
  | _ => false
  end.

(** The shape of the trees the parser returns: unary nodes are signs,
    variables are identifiers outside the registry, calls are to names of
    the registry. *)
Fixpoint wellFormed (t : ASTNode) : bool :=
  match t with
  | BinaryOpNode _ l r => wellFormed l && wellFormed r
  | UnaryOpNode op x => isSign op && wellFormed x
  | NumberNode _ => true
  | VariableNode name => isVariableName name
  | FunctionNode f args => Lexer.isFunction f && forallb wellFormed args
  end.


(** The numeric leaves of a tree, left to right. *)
Fixpoint numbers (t : ASTNode) : list float :=
  match t with
  | BinaryOpNode _ l r => numbers l ++ numbers r
  | UnaryOpNode _ x => numbers x
  | NumberNode v => [v]
  | VariableNode _ => []
  | FunctionNode _ args => concat (map numbers args)
  end.

(** The value [v] survives printing: its printed form, six significant
    digits, is read by the lexer as one NUMBER token, which [stod] converts
    to [v] again. *)
Definition readsBack (v : float) : Prop :=
  let s := Cxx.print_double v in
  Lexer.getNextToken (Lexer.new s) =
    (Token.mk TokenType.NUMBER s 0, Lexer.mk s (String.length s)) /\
  Cxx.stod s = Ok v.

(** What may follow a printed subtree: the end of the text, a space, a
    closing parenthesis or a comma. *)
Definition isDelimiter (c : ascii) : bool :=
  Ascii.eqb c " " || Ascii.eqb c ")" || Ascii.eqb c ",".

Definition delimited (r : string) : Prop :=
  match r with
  | String c _ => isDelimiter c = true
  | EmptyString => True
  end.

(** The same without the space: the next token then ends an expression. *)
Definition closing (r : string) : Prop :=
  match r with
  | String c _ => c = ")"%char \/ c = ","%char
  | EmptyString => True
  end.

(** The next character does not continue an identifier. *)
Definition endsIdentifier (r : string) : Prop :=
  match r with
  | String c _ => Lexer.is_ident_char c = false
  | EmptyString => True
  end.

(** The tokens after which [parseTerm] returns. *)
Definition endsExpression (type : TokenType.t) : Prop :=
  type = TokenType.RIGHT_PAREN \/ type = TokenType.COMMA \/
  type = TokenType.END_OF_FILE.

(** [f n] is [Ok a] for all [n] large enough. *)
Definition converges {A : Type} (f : nat -> Res A) (a : A) : Prop :=
  exists n0, forall n, n0 <= n -> f n = Ok a.

(** The printed arguments of a call after the first one. *)
Fixpoint moreArguments (l : list ASTNode) : string :=
  match l with
  | [] => ""
  | a :: l' => ", " +:+ AST.toString a +:+ moreArguments l'
  end.

(** Reading the printed form of [t] as a primary gives [t] back and leaves
    the parser at what follows. *)
Definition primaryReadsBack (t : ASTNode) : Prop :=
  forall pre r, delimited r ->
    converges (fun n => Parser.parsePrimary n (LexSpec.at_text pre (AST.toString t +:+ r)))
      (t, LexSpec.at_text (pre +:+ AST.toString t) r).

(** What each parsing method returns on a well-formed state. *)
Definition returnsWellFormed (f : Parser.t -> Res (ASTNode * Parser.t)) : Prop :=
  forall p t p', stateOk p -> f p = Ok (t, p') -> wellFormed t = true /\ stateOk p'.

Definition parserWellFormed (n : nat) : Prop :=
  returnsWellFormed (Parser.parseExpression n) /\
  returnsWellFormed (Parser.parseTerm n) /\
  (forall l, wellFormed l = true -> returnsWellFormed (Parser.parseTerm_while n l)) /\
  returnsWellFormed (Parser.parseFactor n) /\
  (forall l, wellFormed l = true -> returnsWellFormed (Parser.parseFactor_while n l)) /\
  returnsWellFormed (Parser.parsePower n) /\
  returnsWellFormed (Parser.parsePrimary n) /\
  (forall p t p', stateOk p -> Parser.currentType p = TokenType.FUNCTION ->
     Parser.parseFunction n p = Ok (t, p') -> wellFormed t = true /\ stateOk p') /\
  (forall args p args' p', forallb wellFormed args = true -> stateOk p ->
     Parser.parseFunction_while n args p = Ok (args', p') ->
     forallb wellFormed args' = true /\ stateOk p').

End Printed.

(** The character and the token of a binary operator. *)
Definition opChar (op : BinaryOpNode.OpType) : ascii :=
  match op with
  | BinaryOpNode.ADD => "+"
  | BinaryOpNode.SUBTRACT => "-"
  | BinaryOpNode.MULTIPLY => "*"
  | BinaryOpNode.DIVIDE => "/"
  | BinaryOpNode.POWER => "^"
  end.

Definition opToken (op : BinaryOpNode.OpType) : TokenType.t :=
  match op with
  | BinaryOpNode.ADD => TokenType.PLUS
  | BinaryOpNode.SUBTRACT => TokenType.MINUS
  | BinaryOpNode.MULTIPLY => TokenType.MULTIPLY
  | BinaryOpNode.DIVIDE => TokenType.DIVIDE
  | BinaryOpNode.POWER => TokenType.POWER
  end.

Definition signChar (op : UnaryOpNode.OpType) : ascii :=
  match op with
  | UnaryOpNode.POSITIVE => "+"
  | _ => "-"
  end.

(** The same as [Printed.primaryReadsBack] for [parseExpression], when an
    expression ends after the printed form. *)
Definition expressionReadsBack (t : ASTNode) : Prop :=
  forall pre r, Printed.closing r ->
    Printed.converges
      (fun n => Parser.parseExpression n (LexSpec.at_text pre (AST.toString t +:+ r)))
      (t, LexSpec.at_text (pre +:+ AST.toString t) r).

(* ===================================================================== *)
(** * Vocabulary of the further properties                                *)
(* ===================================================================== *)

(** ** Characters and tokens *)

Module Chars.

Fixpoint countIf (test : ascii -> bool) (s : string) : nat :=
  match s with
  | String c s' => (if test c then 1 else 0) + countIf test s'
  | EmptyString => 0
  end.

Definition isPoint (c : ascii) : bool := Ascii.eqb c ".".

Definition isExponentMark (c : ascii) : bool := Ascii.eqb c "e" || Ascii.eqb c "E".

(** The characters a NUMBER token is made of. *)
Definition isNumberChar (c : ascii) : bool :=
  Cxx.isdigit c || isPoint c || isExponentMark c || Lexer.is_sign c.

(** The characters the lexer turns into something else than an INVALID
    token: blanks, the characters of numbers and identifiers, and the eight
    operators and separators. *)
Definition inAlphabet (c : ascii) : bool :=
  Cxx.isspace c || Cxx.isdigit c || isPoint c || Lexer.is_ident_char c ||
  negb (bool_decide (Lexer.punctuation c = TokenType.INVALID)).

End Chars.

(** ** What the parser has read *)

Module Reading.
Import Parser.

(** The parser is at work on the text [inp]: its lexer has read a prefix of
    it, made of characters of the alphabet unless the current token is
    INVALID, and nothing is left to read once the current token is
    END_OF_FILE. *)
Definition reads (inp : string) (p : Parser.t) : Prop :=
  exists pre s,
    lexer p = LexSpec.L pre s /\ pre +:+ s = inp /\
    (currentType p <> TokenType.INVALID ->
     Printed.allChars Chars.inAlphabet pre = true) /\
    (currentType p = TokenType.END_OF_FILE -> s = "").

Definition keepsReading {A : Type} (inp : string)
    (f : Parser.t -> Res (A * Parser.t)) : Prop :=
  forall p a p', reads inp p -> f p = Ok (a, p') -> reads inp p'.

Definition parserReads (inp : string) (n : nat) : Prop :=
  keepsReading inp (parseExpression n) /\
  keepsReading inp (parseTerm n) /\
  (forall l, keepsReading inp (parseTerm_while n l)) /\
  keepsReading inp (parseFactor n) /\
  (forall l, keepsReading inp (parseFactor_while n l)) /\
  keepsReading inp (parsePower n) /\
  keepsReading inp (parsePrimary n) /\
  (forall p a p', reads inp p -> currentType p = TokenType.FUNCTION ->
     parseFunction n p = Ok (a, p') -> reads inp p') /\
  (forall args, keepsReading inp (parseFunction_while n args)).

End Reading.

(** ** Shapes of symbolic expressions *)

Module Shapes.
Import SymbolicBinaryOp SymbolicUnaryOp.

(** A number under any count of negations. *)
Fixpoint signedLiteral (e : SymbolicExpression) : bool :=
  match e with
  | SymbolicNumber _ => true
  | SymbolicUnaryOp NEGATIVE x => signedLiteral x
  | _ => false
  end.

(** Built from numbers, variables, [+], [-], [*], [^] and the unary plus. *)
Fixpoint polynomialForm (e : SymbolicExpression) : bool :=
  match e with
  | SymbolicBinaryOp op l r =>
      negb (bool_decide (op = DIVIDE)) && polynomialForm l && polynomialForm r
  | SymbolicUnaryOp op x => bool_decide (op = POSITIVE) && polynomialForm x
  | SymbolicNumber _ | SymbolicVariable _ => true
  | SymbolicFunction _ _ => false
  end.

(** The unary operations and the function names that [differentiate]
    handles. *)
Definition hasDerivative (op : SymbolicUnaryOp.OpType) : bool :=
  match op with
  | LOG | ABS => false
  | _ => true
  end.

Definition derivableNames : list string := ["sin"; "cos"; "ln"].

(** Built from numbers, variables, the four operations, powers whose
    exponent is a number, and the unary operations and one-argument calls
    that [differentiate] handles. *)
Fixpoint elementary (e : SymbolicExpression) : bool :=
  match e with
  | SymbolicBinaryOp op l r =>
      elementary l &&
      match op with
      | POWER => match r with SymbolicNumber _ => true | _ => false end
      | _ => elementary r
      end
  | SymbolicUnaryOp op x => hasDerivative op && elementary x
  | SymbolicNumber _ | SymbolicVariable _ => true
  | SymbolicFunction f args =>
      bool_decide (f ∈ derivableNames) &&
      match args with
      | [a] => elementary a
      | _ => false
      end
  end.

(** The number of nodes. *)
Fixpoint size (e : SymbolicExpression) : nat :=
  match e with
  | SymbolicBinaryOp _ l r => S (size l + size r)
  | SymbolicUnaryOp _ x => S (size x)
  | SymbolicNumber _ | SymbolicVariable _ => 1
  | SymbolicFunction _ args => S (list_sum (map size args))
  end.

(** The bare variable. *)
Definition isVariable (variable : string) (e : SymbolicExpression) : bool :=
  match e with
  | SymbolicVariable name => bool_decide (name = variable)
  | _ => false
  end.

(** The function names whose call at the bare variable [integrate] has a
    rule for that returns. *)
Definition integrableNames : list string := ["sin"; "cos"].

(** Sums and differences of the integrands [integrate] has a rule for that
    returns: numbers, variables, powers of the variable with a number as
    exponent, a constant over the variable, sin and cos of the variable,
    products of a constant and a term that is not constant, and their
    signs. *)
Fixpoint termwise (variable : string) (e : SymbolicExpression) : bool :=
  match e with
  | SymbolicBinaryOp op l r =>
      match op with
      | ADD | SUBTRACT => termwise variable l && termwise variable r
      | MULTIPLY =>
          (Symbolic.isConstant l && negb (Symbolic.isConstant r)
           && termwise variable r)
          || (negb (Symbolic.isConstant l) && Symbolic.isConstant r
              && termwise variable l)
      | DIVIDE => Symbolic.isConstant l && isVariable variable r
      | POWER =>
          isVariable variable l &&
          match r with SymbolicNumber _ => true | _ => false end
      end
  | SymbolicUnaryOp op x =>
      match op with
      | POSITIVE | NEGATIVE => termwise variable x
      | SIN | COS => isVariable variable x
      | _ => false
      end
  | SymbolicNumber _ | SymbolicVariable _ => true
  | SymbolicFunction f args =>
      bool_decide (f ∈ integrableNames) &&
      match args with
      | [a] => isVariable variable a
      | _ => false
      end
  end.

(** No product of the tree has a number as one of its two operands. *)
Fixpoint literalFactorFree (t : ASTNode) : bool :=
  match t with
  | BinaryOpNode op l r =>
      literalFactorFree l && literalFactorFree r &&
      match op, l, r with
      | BinaryOpNode.MULTIPLY, NumberNode _, _
      | BinaryOpNode.MULTIPLY, _, NumberNode _ => false
      | _, _, _ => true
      end
  | UnaryOpNode _ x => literalFactorFree x
  | NumberNode _ | VariableNode _ => true
  | FunctionNode _ args => forallb literalFactorFree args
  end.

Section WithLibm.
Context (M : Cxx.Libm).

(** The expressions on which [differentiate] returns: every power it meets
    outside an exponent has a constant exponent that evaluates, and every
    unary operation and call it meets there is one it handles. *)
Fixpoint differentiable (e : SymbolicExpression) : bool :=
  match e with
  | SymbolicBinaryOp op l r =>
      match op with
      | POWER =>
          Symbolic.isConstant r && isOk (Symbolic.evaluate0 M r) && differentiable l
      | _ => differentiable l && differentiable r
      end
  | SymbolicUnaryOp op x => differentiable x && hasDerivative op
  | SymbolicNumber _ | SymbolicVariable _ => true
  | SymbolicFunction f args =>
      match args with
      | [a] => differentiable a && bool_decide (f ∈ derivableNames)
      | _ => false
      end
  end.

End WithLibm.
End Shapes.

(** ** The states of the console grapher *)

Module Display.
Import ConsoleGrapher.

(** The cell [displayBuffer[y][x]], when both indices are in range. *)
Definition cell (self : ConsoleGrapher.t) (x y : nat) : option ascii :=
  row ← displayBuffer self !! y; row !! x.

(** The entry holds the tree of its expression. *)
Definition hasTree (f : Function.t) : Prop :=
  exists fuel tree,
    parseText fuel (Function.expression f) = Ok tree /\
    Function.ast f = Some tree.

(** The height is a size, and so is the width unless there is no row: the
    sizes with which [clearBuffer] returns. *)
Definition sized (self : ConsoleGrapher.t) : Prop :=
  (0 <= PlotSettings.height (settings self))%Z /\
  ((0 <= PlotSettings.width (settings self))%Z \/
   PlotSettings.height (settings self) = 0%Z).

(** The buffer has [height] rows of [width] cells, and every entry of the
    function list holds the tree of its expression. *)
Definition consistent (self : ConsoleGrapher.t) : Prop :=
  List.length (displayBuffer self) = Z.to_nat (PlotSettings.height (settings self)) /\
  Forall (fun row => List.length row = Z.to_nat (PlotSettings.width (settings self)))
    (displayBuffer self) /\
  Forall hasTree (functions self).

(** The states that the constructors and the methods on the function list,
    the plot range and the display size lead to.  A constructor that throws
    leaves no object; a [setDisplaySize] that throws leaves the object it
    has changed so far, which a caller that catches the exception goes on
    using. *)
Inductive reachable : ConsoleGrapher.t -> Prop :=
| reachable_new settings self :
    new_with settings = Ok self -> reachable self
| reachable_addFunction fuel expression name symbol self ok self' :
    reachable self ->
    addFunction fuel expression name symbol self = Ok (ok, self') ->
    reachable self'
| reachable_removeFunction index self :
    reachable self -> reachable (removeFunction index self)
| reachable_clearFunctions self :
    reachable self -> reachable (clearFunctions self)
| reachable_setPlotRange xMin xMax yMin yMax self :
    reachable self -> reachable (setPlotRange xMin xMax yMin yMax self)
| reachable_setDisplaySize width height self :
    reachable self ->
    reachable (setDisplaySize_call width height self).1.

End Display.

(** ** What the parser has left to read *)

Module Termination.
Import Parser.

(** The characters of the current token and of the text after it. *)
Definition unread (p : Parser.t) : nat :=
  String.length (Token.value (currentToken p)) + Lexer.remaining (lexer p).

(** The current token stands for at least one character, unless it is
    END_OF_FILE. *)
Definition tokenRead (p : Parser.t) : Prop :=
  currentType p <> TokenType.END_OF_FILE ->
  0 < String.length (Token.value (currentToken p)).

(** [r] is a return or a throw. *)
Definition answer {A : Type} (r : Res A) : Prop :=
  r <> OutOfFuel /\ r <> Undefined.

(** [r] is an answer of a parsing method called at [p], and when it is a
    tree the parser has consumed [d] characters at least. *)
Definition returned {A : Type} (d : nat) (p : Parser.t) (r : Res (A * Parser.t))
  : Prop :=
  answer r /\
  forall a p', r = Ok (a, p') -> tokenRead p' /\ unread p' + d <= unread p.

(** With [fuel], every parsing method answers at every state that has less
    than [bound] characters left. *)
Definition parserReturns (bound fuel : nat) : Prop :=
  forall p, tokenRead p -> unread p < bound ->
    returned 1 p (parseExpression fuel p) /\
    returned 1 p (parseTerm fuel p) /\
    (forall l, returned 0 p (parseTerm_while fuel l p)) /\
    returned 1 p (parseFactor fuel p) /\
    (forall l, returned 0 p (parseFactor_while fuel l p)) /\
    returned 1 p (parsePower fuel p) /\
    returned 1 p (parsePrimary fuel p) /\
    (currentType p = TokenType.FUNCTION -> returned 1 p (parseFunction fuel p)) /\
    (forall args, returned 0 p (parseFunction_while fuel args p)).

End Termination.

(** ** The errors of the parser *)

Module Errors.
Import Parser.

(** The messages that [expect] is called with. *)
Definition expectations : list string :=
  ["Expected closing parenthesis";
   "Expected opening parenthesis after function name";
   "Expected end of expression"].

(** The messages of the errors of [parse] on the text [inp]: the text of a
    token that cannot start a primary, which has one character at most; the
    [what()] of the exception of [std::stod]; an expectation with the offset
    of the token found instead. *)
Inductive parseError (inp : string) : string -> Prop :=
| unexpected_token text :
    String.length text <= 1 ->
    parseError inp ("Unexpected token: " +:+ text)
| number_conversion : parseError inp "stod"
| expectation message offset :
    message ∈ expectations ->
    offset <= String.length inp ->
    parseError inp (message +:+ " at position " +:+ Cxx.to_string offset).

(** The parser is at work on [inp]: its lexer and its current token are
    inside the text, and a current token that is neither a number nor a
    name has one character at most. *)
Definition located (inp : string) (p : Parser.t) : Prop :=
  Lexer.input (lexer p) = inp /\
  Lexer.position (lexer p) <= String.length inp /\
  Token.position (currentToken p) <= String.length inp /\
  (match currentType p with
   | TokenType.NUMBER | TokenType.VARIABLE | TokenType.FUNCTION => True
   | _ => String.length (Token.value (currentToken p)) <= 1
   end).

(** The answer [r] of a parsing method on [inp]: an error is one of
    [parseError], a tree comes with a state at work on [inp]. *)
Definition answered {A : Type} (inp : string) (r : Res (A * Parser.t)) : Prop :=
  (forall what, r = Err what -> parseError inp what) /\
  (forall a p', r = Ok (a, p') -> located inp p').

Definition parserAnswers (inp : string) (n : nat) : Prop :=
  forall p, located inp p ->
    answered inp (parseExpression n p) /\
    answered inp (parseTerm n p) /\
    (forall l, answered inp (parseTerm_while n l p)) /\
    answered inp (parseFactor n p) /\
    (forall l, answered inp (parseFactor_while n l p)) /\
    answered inp (parsePower n p) /\
    answered inp (parsePrimary n p) /\
    answered inp (parseFunction n p) /\
    (forall args, answered inp (parseFunction_while n args p)).

End Errors.

(** ** Whole numbers *)

Module Whole.

(** The binary64 value of a natural number. *)
Definition wholeNumber (n : nat) : float :=
  PrimFloat.of_uint63 (Uint63.of_Z (Z.of_nat n)).

(** The whole numbers checked one by one to survive printing. *)
Definition checked : nat := 1000.

Definition isWhole (v : float) : Prop :=
  exists n, n < checked /\ v = wholeNumber n.

End Whole.

(* ===================================================================== *)
(** * Results                                                             *)
(* ===================================================================== *)

Module ResFacts.

Lemma bind_Ok {A B} (r : Res A) (k : A -> Res B) b :
  r ≫= k = Ok b -> exists a, r = Ok a /\ k a = Ok b.
Proof. destruct r as [a| | |]; simpl; [eauto | done..]. Qed.

Ltac inv_binds :=
  repeat match goal with
         | H : _ ≫= _ = Ok _ |- _ =>
             let a := fresh "v" in
             let Ha := fresh "Hv" in
             apply bind_Ok in H; destruct H as (a & Ha & H)
         end.

Ltac inv_bind H :=
  let a := fresh "v" in
  let Ha := fresh "Hv" in
  let Hk := fresh "Hk" in
  apply bind_Ok in H; destruct H as (a & Ha & Hk); rename Hk into H.

Tactic Notation "inv_ok" hyp(H) "as" simple_intropattern(a) ident(Ha) :=
  let Hk := fresh "Hk" in
  apply bind_Ok in H; destruct H as (a & Ha & Hk); rename Hk into H.

End ResFacts.

(* ===================================================================== *)
(** * The parser: fuel                                                    *)
(* ===================================================================== *)

Module ParserFuel.
Import Parser.

Lemma refines_refl {A} (r : Res A) : refines r r.
Proof. by right. Qed.

Lemma refines_bind {A B} (r r' : Res A) (k k' : A -> Res B) :
  refines r r' -> (forall a, refines (k a) (k' a)) -> refines (r ≫= k) (r' ≫= k').
Proof.
  intros [-> | ->] Hk; [by left|].
  destruct r' as [a| | |]; simpl; [apply Hk | by right | by left | by right].
Qed.

Lemma refines_trans {A} (r1 r2 r3 : Res A) :
  refines r1 r2 -> refines r2 r3 -> refines r1 r3.
Proof. intros [-> | ->] H; [by left | done]. Qed.

Lemma refines_Ok {A} (r r' : Res A) a : refines r r' -> r = Ok a -> r' = Ok a.
Proof. intros [-> | ->]; done. Qed.

Lemma refines_Err {A} (r r' : Res A) m : refines r r' -> r = Err m -> r' = Err m.
Proof. intros [-> | ->]; done. Qed.

(** One unfolding of each parsing method. *)
Lemma parseExpression_S n p : parseExpression (S n) p = parseTerm n p.
Proof. reflexivity. Qed.

Lemma parseTerm_S n p :
  parseTerm (S n) p = '(l, p1) ← parseFactor n p; parseTerm_while n l p1.
Proof. reflexivity. Qed.

Lemma parseTerm_while_S n l p :
  parseTerm_while (S n) l p =
  match currentType p with
  | TokenType.PLUS | TokenType.MINUS =>
      let op := if decide (currentType p = TokenType.PLUS)
                then BinaryOpNode.ADD else BinaryOpNode.SUBTRACT in
      '(r, p2) ← parseFactor n (advance p);
      parseTerm_while n (BinaryOpNode op l r) p2
  | _ => Ok (l, p)
  end.
Proof. reflexivity. Qed.

Lemma parseFactor_S n p :
  parseFactor (S n) p = '(l, p1) ← parsePower n p; parseFactor_while n l p1.
Proof. reflexivity. Qed.

Lemma parseFactor_while_S n l p :
  parseFactor_while (S n) l p =
  if continuesFactor (currentType p) then
    let '(op, p1) :=
      match currentType p with
      | TokenType.MULTIPLY => (BinaryOpNode.MULTIPLY, advance p)
      | TokenType.DIVIDE => (BinaryOpNode.DIVIDE, advance p)
      | _ => (BinaryOpNode.MULTIPLY, p)
      end in
    '(r, p2) ← parsePower n p1;
    parseFactor_while n (BinaryOpNode op l r) p2
  else Ok (l, p).
Proof. reflexivity. Qed.

Lemma parsePower_S n p :
  parsePower (S n) p =
  '(l, p1) ← parsePrimary n p;
  match currentType p1 with
  | TokenType.POWER =>
      '(r, p3) ← parsePower n (advance p1);
      Ok (BinaryOpNode BinaryOpNode.POWER l r, p3)
  | _ => Ok (l, p1)
  end.
Proof. reflexivity. Qed.

Lemma parsePrimary_S n p :
  parsePrimary (S n) p =
  match currentType p with
  | TokenType.NUMBER =>
      value ← Cxx.stod (Token.value (currentToken p));
      Ok (NumberNode value, advance p)
  | TokenType.VARIABLE => Ok (VariableNode (Token.value (currentToken p)), advance p)
  | TokenType.FUNCTION => parseFunction n p
  | TokenType.LEFT_PAREN =>
      '(expr, p2) ← parseExpression n (advance p);
      _ ← expect TokenType.RIGHT_PAREN "Expected closing parenthesis" p2;
      Ok (expr, advance p2)
  | TokenType.PLUS | TokenType.MINUS =>
      let op := if decide (currentType p = TokenType.PLUS)
                then UnaryOpNode.POSITIVE else UnaryOpNode.NEGATIVE in
      '(operand, p2) ← parsePrimary n (advance p);
      Ok (UnaryOpNode op operand, p2)
  | _ => throwError ("Unexpected token: " +:+ Token.value (currentToken p))
  end.
Proof. reflexivity. Qed.

Lemma parseFunction_S n p :
  parseFunction (S n) p =
  let funcName := Token.value (currentToken p) in
  let p1 := advance p in
  _ ← expect TokenType.LEFT_PAREN
        "Expected opening parenthesis after function name" p1;
  let p2 := advance p1 in
  '(arguments, p3) ←
    (if decide (currentType p2 = TokenType.RIGHT_PAREN) then Ok ([], p2)
     else '(arg, p3) ← parseExpression n p2; parseFunction_while n [arg] p3);
  _ ← expect TokenType.RIGHT_PAREN "Expected closing parenthesis" p3;
  Ok (FunctionNode funcName arguments, advance p3).
Proof. reflexivity. Qed.

Lemma parseFunction_while_S n args p :
  parseFunction_while (S n) args p =
  match currentType p with
  | TokenType.COMMA =>
      '(arg, p2) ← parseExpression n (advance p);
      parseFunction_while n (args ++ [arg]) p2
  | _ => Ok (args, p)
  end.
Proof. reflexivity. Qed.

Ltac refine_step :=
  first
    [ apply refines_refl
    | apply refines_bind; [ solve [auto using refines_refl] | intros [? ?] ]
    | apply refines_bind; [ solve [auto using refines_refl] | intros ? ]
    | progress auto ].

Lemma parse_step_monotone n : step_monotone n.
Proof.
  induction n as [|n (IHe & IHt & IHtw & IHf & IHfw & IHp & IHpr & IHfn & IHfnw)].
  { repeat split; intros; by left. }
  repeat split; intros.
  - rewrite (parseExpression_S (S n)), (parseExpression_S n). auto.
  - rewrite (parseTerm_S (S n)), (parseTerm_S n). repeat refine_step.
  - rewrite (parseTerm_while_S (S n)), (parseTerm_while_S n).
    destruct (currentType p); cbv zeta; repeat refine_step.
  - rewrite (parseFactor_S (S n)), (parseFactor_S n). repeat refine_step.
  - rewrite (parseFactor_while_S (S n)), (parseFactor_while_S n).
    destruct (continuesFactor _); [|apply refines_refl].
    destruct (currentType p); cbv zeta; repeat refine_step.
  - rewrite (parsePower_S (S n)), (parsePower_S n).
    apply refines_bind; [auto|]. intros [l p1].
    destruct (currentType p1); repeat refine_step.
  - rewrite (parsePrimary_S (S n)), (parsePrimary_S n).
    destruct (currentType p); cbv zeta; repeat refine_step.
  - rewrite (parseFunction_S (S n)), (parseFunction_S n). cbv zeta.
    apply refines_bind; [apply refines_refl|]. intros _.
    apply refines_bind.
    + destruct (decide _); repeat refine_step.
    + intros [args p3]. apply refines_refl.
  - rewrite (parseFunction_while_S (S n)), (parseFunction_while_S n).
    destruct (currentType p); repeat refine_step.
Qed.

Lemma parseExpression_monotone n m p :
  n <= m -> refines (parseExpression n p) (parseExpression m p).
Proof.
  induction 1 as [|m _ IH]; [apply refines_refl|].
  eapply refines_trans; [exact IH|]. apply (parse_step_monotone m).
Qed.

Lemma parsePrimary_monotone n m p :
  n <= m -> refines (parsePrimary n p) (parsePrimary m p).
Proof.
  induction 1 as [|m _ IH]; [apply refines_refl|].
  eapply refines_trans; [exact IH|]. apply (parse_step_monotone m).
Qed.

Lemma parse_monotone n m p : n <= m -> refines (parse n p) (parse m p).
Proof.
  intros H. unfold parse. apply refines_bind; [by apply parseExpression_monotone|].
  intros [? ?]. apply refines_refl.
Qed.

(** More fuel never changes an answer. *)
Lemma parseText_monotone n m s : n <= m -> refines (parseText n s) (parseText m s).
Proof. apply parse_monotone. Qed.

Lemma parseText_Ok n m s t : n <= m -> parseText n s = Ok t -> parseText m s = Ok t.
Proof. intros H. apply refines_Ok. by apply parseText_monotone. Qed.

Lemma parseText_Err n m s e : n <= m -> parseText n s = Err e -> parseText m s = Err e.
Proof. intros H. apply refines_Err. by apply parseText_monotone. Qed.

(** Hence the answer of the parser on a text does not depend on the fuel. *)
Lemma parseText_deterministic n m s t t' :
  parseText n s = Ok t -> parseText m s = Ok t' -> t = t'.
Proof.
  intros H1 H2. destruct (Nat.le_ge_cases n m) as [H|H].
  - apply (parseText_Ok _ _ _ _ H) in H1. congruence.
  - apply (parseText_Ok _ _ _ _ H) in H2. congruence.
Qed.

End ParserFuel.

(* ===================================================================== *)
(** * The parser on the documented examples                               *)
(* ===================================================================== *)

Module ParserExamples.
Import Parser ParserFuel.

Lemma parse_2_plus_3_times_4 :
  parseText 11 "2 + 3 * 4" =
  Ok (Bin BinaryOpNode.ADD (Num 2) (Bin BinaryOpNode.MULTIPLY (Num 3) (Num 4))).
Proof. vm_compute. reflexivity. Qed.

Lemma parse_paren_2_plus_3_times_4 :
  parseText 11 "(2 + 3) * 4" =
  Ok (Bin BinaryOpNode.MULTIPLY (Bin BinaryOpNode.ADD (Num 2) (Num 3)) (Num 4)).
Proof. vm_compute. reflexivity. Qed.

Lemma parse_2_pow_3_pow_2 :
  parseText 11 "2 ^ 3 ^ 2" =
  Ok (Bin BinaryOpNode.POWER (Num 2) (Bin BinaryOpNode.POWER (Num 3) (Num 2))).
Proof. vm_compute. reflexivity. Qed.

(** C4: with the precedence and associativity of the grammar, "2 + 3 * 4"
    parses to 2 + (3 * 4) and evaluates to 14, "(2 + 3) * 4" parses to
    (2 + 3) * 4 and evaluates to 20, and "2 ^ 3 ^ 2" parses to 2 ^ (3 ^ 2)
    and evaluates to 512, for every mathematical library whose [pow] returns
    the exact values 3^2 = 9 and 2^9 = 512. *)
Theorem C4_precedence_and_associativity (M : Cxx.Libm) (fuel : nat) :
  11 <= fuel ->
  Cxx.pow M 3 2 = 9%float ->
  Cxx.pow M 2 9 = 512%float ->
  (exists t, parseText fuel "2 + 3 * 4" = Ok t /\
     t = Bin BinaryOpNode.ADD (Num 2) (Bin BinaryOpNode.MULTIPLY (Num 3) (Num 4)) /\
     AST.evaluate M t ∅ = Ok 14%float) /\
  (exists t, parseText fuel "(2 + 3) * 4" = Ok t /\
     t = Bin BinaryOpNode.MULTIPLY (Bin BinaryOpNode.ADD (Num 2) (Num 3)) (Num 4) /\
     AST.evaluate M t ∅ = Ok 20%float) /\
  (exists t, parseText fuel "2 ^ 3 ^ 2" = Ok t /\
     t = Bin BinaryOpNode.POWER (Num 2) (Bin BinaryOpNode.POWER (Num 3) (Num 2)) /\
     AST.evaluate M t ∅ = Ok 512%float).
Proof.
  intros Hfuel H32 H29. repeat split.
  - eexists. split; [|split; [reflexivity|]].
    + apply (parseText_Ok 11); [done | apply parse_2_plus_3_times_4].
    + reflexivity.
  - eexists. split; [|split; [reflexivity|]].
    + apply (parseText_Ok 11); [done | apply parse_paren_2_plus_3_times_4].
    + reflexivity.
  - eexists. split; [|split; [reflexivity|]].
    + apply (parseText_Ok 11); [done | apply parse_2_pow_3_pow_2].
    + simpl. unfold Num in *. rewrite H32. simpl. by rewrite H29.
Qed.

Lemma C4_precedence_and_associativity_witness :
  (exists t, parseText 11 "2 + 3 * 4" = Ok t /\
     t = Bin BinaryOpNode.ADD (Num 2) (Bin BinaryOpNode.MULTIPLY (Num 3) (Num 4)) /\
     AST.evaluate example_libm t ∅ = Ok 14%float) /\
  (exists t, parseText 11 "(2 + 3) * 4" = Ok t /\
     t = Bin BinaryOpNode.MULTIPLY (Bin BinaryOpNode.ADD (Num 2) (Num 3)) (Num 4) /\
     AST.evaluate example_libm t ∅ = Ok 20%float) /\
  (exists t, parseText 11 "2 ^ 3 ^ 2" = Ok t /\
     t = Bin BinaryOpNode.POWER (Num 2) (Bin BinaryOpNode.POWER (Num 3) (Num 2)) /\
     AST.evaluate example_libm t ∅ = Ok 512%float).
Proof.
  apply (C4_precedence_and_associativity example_libm 11);
    [lia | vm_compute; reflexivity | vm_compute; reflexivity].
Defined.

(** C9: a registered function name followed by an empty pair of
    parentheses is accepted by the parser, as a call of that function with
    no argument; only evaluating that node reports the wrong arity, whatever
    the bindings and the mathematical library. *)
Theorem C9_empty_call_parses_and_fails_late (f : string) (fuel : nat) :
  f ∈ Lexer.functions -> 6 <= fuel ->
  parseText fuel (f +:+ "()") = Ok (FunctionNode f []) /\
  forall M variables,
    AST.evaluate M (FunctionNode f []) variables =
    Err ("Function " +:+ f +:+ " expects 1 argument").
Proof.
  intros Hf Hfuel. unfold Lexer.functions in Hf.
  repeat (apply elem_of_cons in Hf as [-> | Hf];
          [split; [apply (parseText_Ok 6); [done | vm_compute; reflexivity]
                  | reflexivity] |]).
  by apply elem_of_nil in Hf.
Qed.

Lemma C9_empty_call_parses_and_fails_late_witness :
  (parseText 6 "sin()" = Ok (FunctionNode "sin" []) /\
   forall M variables,
     AST.evaluate M (FunctionNode "sin" []) variables =
     Err "Function sin expects 1 argument") /\
  (parseText 6 "sqrt()" = Ok (FunctionNode "sqrt" []) /\
   forall M variables,
     AST.evaluate M (FunctionNode "sqrt" []) variables =
     Err "Function sqrt expects 1 argument").
Proof.
  split.
  - apply (C9_empty_call_parses_and_fails_late "sin" 6); [|lia].
    apply (bool_decide_unpack _). vm_compute. exact I.
  - apply (C9_empty_call_parses_and_fails_late "sqrt" 6); [|lia].
    apply (bool_decide_unpack _). vm_compute. exact I.
Defined.

End ParserExamples.

(* ===================================================================== *)
(** * The symbolic engine                                                 *)
(* ===================================================================== *)

Module SymbolicFacts.
Import SymbolicBinaryOp SymbolicUnaryOp Symbolic Sym Shapes ResFacts.

(** Structural induction that reaches the arguments of a call. *)
Lemma SymbolicExpression_nested_ind (P : SymbolicExpression -> Prop) :
  (forall op l r, P l -> P r -> P (SymbolicBinaryOp op l r)) ->
  (forall op x, P x -> P (SymbolicUnaryOp op x)) ->
  (forall v, P (SymbolicNumber v)) ->
  (forall name, P (SymbolicVariable name)) ->
  (forall f args, Forall P args -> P (SymbolicFunction f args)) ->
  forall e, P e.
Proof.
  intros Hbin Hun Hnum Hvar Hfun.
  fix IH 1. intros [op l r | op x | v | name | f args].
  - apply Hbin; apply IH.
  - apply Hun; apply IH.
  - apply Hnum.
  - apply Hvar.
  - apply Hfun. induction args as [|a args IHargs]; constructor; [apply IH | exact IHargs].
Qed.

(** A deep copy is the same tree. *)
Lemma clone_id e : clone e = e.
Proof.
  induction e as [op l r IHl IHr | op x IHx | v | name | f args IH]
    using SymbolicExpression_nested_ind; simpl;
    unfold makeSymbolicBinaryOp, makeSymbolicUnaryOp, makeSymbolicFunction.
  - by rewrite IHl, IHr.
  - by rewrite IHx.
  - done.
  - done.
  - f_equal. induction IH as [|a args Ha _ IHargs]; simpl; [done|].
    by rewrite Ha, IHargs.
Qed.

(** ** Differentiation of powers *)

(** C6, as stated, fails: the derivative of x^2 is the tree
    x^(2-1) * (2 * 1), whose left operand is the power; it is neither of the
    two trees that n * base^(n-1) * dbase can stand for, (2 * x^(2-1)) * 1
    and 2 * (x^(2-1) * 1), and [toString] tells it from the first. *)
Lemma C6_counterexample :
  differentiate example_libm (Pow (Var "x") (Lit 2)) "x" =
    Ok (Mul (Pow (Var "x") (Lit 1)) (Mul (Lit 2) (Lit 1))) /\
  differentiate example_libm (Pow (Var "x") (Lit 2)) "x" <>
    Ok (Mul (Mul (Lit 2) (Pow (Var "x") (Lit 1))) (Lit 1)) /\
  differentiate example_libm (Pow (Var "x") (Lit 2)) "x" <>
    Ok (Mul (Lit 2) (Mul (Pow (Var "x") (Lit 1)) (Lit 1))) /\
  toString (Mul (Pow (Var "x") (Lit 1)) (Mul (Lit 2) (Lit 1))) = "((x ^ 1) * 2)" /\
  toString (Mul (Mul (Lit 2) (Pow (Var "x") (Lit 1))) (Lit 1)) = "2((x ^ 1))".
Proof.
  assert (differentiate example_libm (Pow (Var "x") (Lit 2)) "x" =
          Ok (Mul (Pow (Var "x") (Lit 1)) (Mul (Lit 2) (Lit 1)))) as ->
    by (vm_compute; reflexivity).
  split; [reflexivity|]. split; [discriminate|]. split; [discriminate|].
  split; vm_compute; reflexivity.
Qed.

(** C6 (amended): for a POWER node whose exponent is constant and evaluates
    to n, and whose base has the derivative dbase, [differentiate] returns
    the tree base^(n-1) * (n * dbase), the power first and the constant with
    the derivative of the base; when the exponent is not constant it
    throws. *)
Theorem C6_power_rule (M : Cxx.Libm) (base exponent : SymbolicExpression)
    (variable : string) :
  (forall n dbase,
     isConstant exponent = true ->
     evaluate0 M exponent = Ok n ->
     differentiate M base variable = Ok dbase ->
     differentiate M (Pow base exponent) variable =
     Ok (Mul (Pow base (Lit (n - 1)%float)) (Mul (Lit n) dbase))) /\
  (isConstant exponent = false ->
   differentiate M (Pow base exponent) variable =
   Err "Differentiation of variable exponents not implemented").
Proof.
  split.
  - intros n dbase Hc Hn Hd. simpl. rewrite Hc, Hn. simpl. rewrite Hd. simpl.
    by rewrite clone_id.
  - intros Hc. simpl. by rewrite Hc.
Qed.

Lemma C6_power_rule_witness :
  differentiate example_libm (Pow (Var "x") (Lit 2)) "x" =
  Ok (Mul (Pow (Var "x") (Lit (2 - 1)%float)) (Mul (Lit 2) (Lit 1))) /\
  differentiate example_libm (Pow (Var "x") (Var "x")) "x" =
  Err "Differentiation of variable exponents not implemented".
Proof.
  split.
  - apply (proj1 (C6_power_rule example_libm (Var "x") (Lit 2) "x"));
      [reflexivity | reflexivity | reflexivity].
  - apply (proj2 (C6_power_rule example_libm (Var "x") (Var "x") "x")). reflexivity.
Defined.

(** ** Integration of products *)

(** C7, as stated, fails: in 2 * 3 the operand 2 is constant and the other
    operand has the integral 3 * x, yet [integrate] throws; so it does on
    the tree of the text "2*3". *)
Lemma C7_counterexample :
  isConstant (Lit 2) = true /\
  integrate example_libm (Lit 3) "x" = Ok (Mul (Lit 3) (Var "x")) /\
  integrate example_libm (Mul (Lit 2) (Lit 3)) "x" =
    Err "Integration by parts not implemented for general multiplication" /\
  (engine ← engineOf 11 "2*3"; SymbolicEngine.integrate example_libm engine "x") =
    Err "Integration by parts not implemented for general multiplication".
Proof. repeat split; vm_compute; reflexivity. Qed.

(** C7 (amended): [integrate] on a MULTIPLY node with exactly one constant
    operand keeps it and integrates the other, non-constant one: c * f
    gives c * F and f * c gives F * c, where F is the integral of f; a
    product of two non-constant operands, such as x * y with respect to x,
    and a product of two constant operands throw instead of returning a
    tree. *)
Theorem C7_integrate_product (M : Cxx.Libm) (variable : string) :
  (forall c f F,
     isConstant c = true -> isConstant f = false ->
     integrate M f variable = Ok F ->
     integrate M (Mul c f) variable = Ok (Mul c F) /\
     integrate M (Mul f c) variable = Ok (Mul F c)) /\
  (forall u v,
     isConstant u = isConstant v ->
     integrate M (Mul u v) variable =
     Err "Integration by parts not implemented for general multiplication") /\
  integrate M (Mul (Var "x") (Var "y")) "x" =
  Err "Integration by parts not implemented for general multiplication" /\
  (forall fuel, 11 <= fuel ->
     (engine ← engineOf fuel "x*y"; SymbolicEngine.integrate M engine "x") =
     Err "Integration by parts not implemented for general multiplication").
Proof.
  split; [|split; [|split]].
  - intros c f F Hc Hf HF. split.
    + simpl. rewrite Hc, Hf. simpl. rewrite HF. simpl. by rewrite clone_id.
    + simpl. rewrite Hc, Hf. simpl. rewrite HF. simpl. by rewrite clone_id.
  - intros u v Huv. simpl. rewrite Huv. by destruct (isConstant v).
  - reflexivity.
  - intros fuel Hfuel. unfold engineOf, SymbolicEngine.parseFromString,
      ExpressionParser.parse.
    change (Parser.parse fuel (Parser.new "x*y")) with (parseText fuel "x*y").
    rewrite (ParserFuel.parseText_Ok 11 fuel "x*y"
               (Bin BinaryOpNode.MULTIPLY (VariableNode "x") (VariableNode "y")));
      [reflexivity | done | vm_compute; reflexivity].
Qed.

Lemma C7_integrate_product_witness :
  (integrate example_libm (Mul (Lit 2) (Var "x")) "x" =
     Ok (Mul (Lit 2) (Div (Pow (Var "x") (Lit 2)) (Lit 2))) /\
   integrate example_libm (Mul (Var "x") (Lit 2)) "x" =
     Ok (Mul (Div (Pow (Var "x") (Lit 2)) (Lit 2)) (Lit 2))) /\
  integrate example_libm (Mul (Lit 2) (Lit 3)) "x" =
    Err "Integration by parts not implemented for general multiplication".
Proof.
  split.
  - apply (proj1 (C7_integrate_product example_libm "x"));
      [reflexivity | reflexivity | reflexivity].
  - apply (proj1 (proj2 (C7_integrate_product example_libm "x"))). reflexivity.
Defined.

(** ** Solving *)

(** C8: on the tree of "2*x - 3" [solve] does not return 1.5: the simplified
    tree is (2 * x) - 3, whose left operand is not constant, so the only
    pattern [solve] treats does not apply and it throws. *)
Theorem C8_solve_2x_minus_3_throws (M : Cxx.Libm) (fuel : nat) :
  13 <= fuel ->
  (engine ← engineOf fuel "2*x - 3"; SymbolicEngine.solve M engine "x") =
  Err "Equation solving failed: Complex equation solving not implemented".
Proof.
  intros Hfuel. unfold engineOf, SymbolicEngine.parseFromString,
    ExpressionParser.parse.
  change (Parser.parse fuel (Parser.new "2*x - 3")) with (parseText fuel "2*x - 3").
  rewrite (ParserFuel.parseText_Ok 13 fuel "2*x - 3"
             (Bin BinaryOpNode.SUBTRACT
                (Bin BinaryOpNode.MULTIPLY (Num 2) (VariableNode "x")) (Num 3)));
    [reflexivity | done | vm_compute; reflexivity].
Qed.

Lemma C8_solve_2x_minus_3_throws_witness :
  (engine ← engineOf 13 "2*x - 3"; SymbolicEngine.solve example_libm engine "x") =
  Err "Equation solving failed: Complex equation solving not implemented".
Proof. apply (C8_solve_2x_minus_3_throws example_libm 13). lia. Defined.

(** ** Constant folding of unary nodes *)

(** C10, as stated, fails on its own example: the negation of 0 * x
    simplifies to the number 0, without any error. *)
Lemma C10_counterexample :
  simplify example_libm (Neg (Mul (Lit 0) (Var "x"))) = Ok (Lit 0) /\
  isErr (simplify example_libm (Neg (Mul (Lit 0) (Var "x")))) = false.
Proof. split; reflexivity. Qed.

(** C10 (amended): when the simplified operand of a unary node is constant,
    and the node is neither a POSITIVE node nor a NEGATIVE node whose
    simplified operand is zero or a negation, [simplify] folds it by
    evaluating the original node with no bindings; so sin(0 * x) and -(x^0),
    whose operands simplify to constants but contain x, make [simplify] throw
    the undefined-variable error, while -(0 * x) simplifies to 0. *)
Theorem C10_unary_fold_evaluates_original (M : Cxx.Libm) :
  (forall op operand simplifiedOperand,
     simplify M operand = Ok simplifiedOperand ->
     isConstant simplifiedOperand = true ->
     op <> POSITIVE ->
     (op = NEGATIVE ->
      isZero simplifiedOperand = false /\ asNegative simplifiedOperand = None) ->
     simplify M (SymbolicUnaryOp op operand) =
     (v ← evaluate0 M (SymbolicUnaryOp op operand); Ok (SymbolicNumber v))) /\
  simplify M (Sin (Mul (Lit 0) (Var "x"))) = Err "Undefined variable: x" /\
  simplify M (Neg (Pow (Var "x") (Lit 0))) = Err "Undefined variable: x" /\
  simplify M (Neg (Mul (Lit 0) (Var "x"))) = Ok (Lit 0).
Proof.
  split; [|repeat split].
  intros op operand so Hs Hc Hpos Hneg. simpl. rewrite Hs. simpl.
  unfold simplifyUnary. rewrite Hc.
  destruct op; try done.
  destruct (Hneg eq_refl) as [-> ->]. done.
Qed.

Lemma C10_unary_fold_evaluates_original_witness :
  simplify example_libm (Sin (Mul (Lit 0) (Var "x"))) =
  (v ← evaluate0 example_libm (Sin (Mul (Lit 0) (Var "x"))); Ok (SymbolicNumber v)).
Proof.
  apply (proj1 (C10_unary_fold_evaluates_original example_libm) SIN
           (Mul (Lit 0) (Var "x")) (Lit 0)); [reflexivity | reflexivity | done | done].
Defined.

(** ** Simplification and the variables of an expression *)

(** Every case of [simplifyBinary] that returns expressions other than a
    number returns an operand, its negation, or the rebuilt node. *)
Lemma simplifyBinary_cases (M : Cxx.Libm) op sl sr s :
  simplifyBinary M op sl sr = Ok s ->
  (exists v, s = SymbolicNumber v) \/ s = sl \/ s = sr \/
  (s = SymbolicUnaryOp NEGATIVE sr /\ op = SUBTRACT /\
   isZero sl = true /\ isZero sr = false) \/
  s = SymbolicBinaryOp op sl sr.
Proof.
  unfold simplifyBinary, num, makeSymbolicBinaryOp, makeSymbolicUnaryOp.
  intros H. destruct op;
    repeat (case_match; simplify_eq; eauto 6);
    inv_binds; simplify_eq; eauto 10.
Qed.

Lemma simplifyUnary_cases (M : Cxx.Libm) self op so s :
  simplifyUnary M self op so = Ok s ->
  (exists v, s = SymbolicNumber v) \/ s = so \/
  (op = NEGATIVE /\ so = SymbolicUnaryOp NEGATIVE s) \/
  (s = SymbolicUnaryOp op so /\ isConstant so = false).
Proof.
  unfold simplifyUnary, num, makeSymbolicUnaryOp, asNegative.
  intros H. destruct op;
    repeat (case_match; simplify_eq; rewrite ?clone_id in *; eauto 6);
    inv_binds; simplify_eq; eauto 10.
Qed.

Lemma mapM_Ok_Forall2 {A B} (f : A -> Res B) l l' :
  mapM f l = Ok l' -> Forall2 (fun a b => f a = Ok b) l l'.
Proof.
  revert l'. induction l as [|a l IH]; intros l' H; simpl in H.
  - simplify_eq. constructor.
  - inv_bind H. inv_bind H. simplify_eq. constructor; auto.
Qed.

(** C2, as stated, fails: x * 0 simplifies to the number 0, which has lost
    the variable x. *)
Lemma C2_counterexample :
  simplify example_libm (Mul (Var "x") (Lit 0)) = Ok (Lit 0) /\
  vars (Lit 0) <> vars (Mul (Var "x") (Lit 0)).
Proof.
  split; [reflexivity|]. simpl. set_solver.
Qed.

(** C2 (amended): when [simplify] succeeds, every variable name that occurs
    in the result occurs in the expression; names can disappear (x * 0 gives
    0), none is introduced. *)
Theorem C2_simplify_introduces_no_variable (M : Cxx.Libm)
    (e s : SymbolicExpression) :
  simplify M e = Ok s -> vars s ⊆ vars e.
Proof.
  revert s.
  induction e as [op l r IHl IHr | op x IHx | v | name | f args IH]
    using SymbolicExpression_nested_ind; intros s H; simpl in H.
  - inv_bind H. inv_bind H.
    specialize (IHl _ Hv). specialize (IHr _ Hv0).
    destruct (simplifyBinary_cases _ _ _ _ _ H)
      as [[w ->] | [-> | [-> | [(-> & _) | ->]]]]; simpl; set_solver.
  - inv_bind H. specialize (IHx _ Hv).
    destruct (simplifyUnary_cases _ _ _ _ _ H)
      as [[w ->] | [-> | [(_ & ->) | (-> & _)]]]; simpl in *; set_solver.
  - simplify_eq. done.
  - simplify_eq. done.
  - inv_bind H. apply mapM_Ok_Forall2 in Hv.
    assert (Hsub : ⋃ (map vars v) ⊆ ⋃ (map vars args)).
    { clear H. induction Hv as [|a b l l' Hab _ IHl]; simpl; [done|].
      apply Forall_cons in IH as [Ha IH]. specialize (Ha _ Hab).
      specialize (IHl IH). set_solver. }
    case_match.
    + inv_bind H. simplify_eq. simpl. set_solver.
    + simplify_eq. simpl. exact Hsub.
Qed.

Lemma C2_simplify_introduces_no_variable_witness :
  vars (Add (Lit 6) (Var "x")) ⊆ vars (Add (Mul (Lit 2) (Lit 3)) (Mul (Var "x") (Lit 1))).
Proof.
  apply (C2_simplify_introduces_no_variable example_libm
           (Add (Mul (Lit 2) (Lit 3)) (Mul (Var "x") (Lit 1)))).
  vm_compute. reflexivity.
Defined.

(** ** Simplifying twice *)

Lemma mapM_fixed {A} (f : A -> Res A) l :
  Forall (fun a => f a = Ok a) l -> mapM f l = Ok l.
Proof.
  induction 1 as [|a l Ha _ IH]; simpl; [done|]. by rewrite Ha, IH.
Qed.

(** Only the constant-folding case of [simplifyUnary] looks at the node. *)
Lemma simplifyUnary_self (M : Cxx.Libm) self self' op so :
  isConstant so = false ->
  simplifyUnary M self op so = simplifyUnary M self' op so.
Proof. intros H. unfold simplifyUnary. by rewrite H. Qed.

Lemma size_positive e : 0 < size e.
Proof. destruct e; simpl; lia. Qed.

(** The result of [simplify] has at most as many nodes as the expression. *)
Lemma simplify_size (M : Cxx.Libm) (e s : SymbolicExpression) :
  simplify M e = Ok s -> size s <= size e.
Proof.
  revert s.
  induction e as [op l r IHl IHr | op x IHx | v | name | f args IH]
    using SymbolicExpression_nested_ind; intros s H; simpl in H.
  - inv_ok H as sl Hl. inv_ok H as sr Hr.
    specialize (IHl _ Hl). specialize (IHr _ Hr).
    pose proof (size_positive sl). pose proof (size_positive sr).
    apply simplifyBinary_cases in H
      as [(v & ->) | [-> | [-> | [(-> & _) | ->]]]]; simpl; lia.
  - inv_ok H as so Ho. specialize (IHx _ Ho).
    apply simplifyUnary_cases in H
      as [(v & ->) | [-> | [[-> ->] | [-> Hn]]]]; simpl in *; lia.
  - by simplify_eq.
  - by simplify_eq.
  - inv_ok H as sargs Hargs.
    assert (Hsum : list_sum (map size sargs) <= list_sum (map size args)).
    { apply mapM_Ok_Forall2 in Hargs. clear H.
      induction Hargs as [|a b args sargs Hab _ IHargs]; [done|].
      apply Forall_cons in IH as [IHa IH]. simpl.
      specialize (IHa _ Hab). specialize (IHargs IH). lia. }
    destruct (forallb isConstant sargs).
    + inv_ok H as v Hv. simplify_eq. simpl. lia.
    + simplify_eq. simpl. lia.
Qed.

Lemma Simplified_fixed (M : Cxx.Libm) s :
  Simplified M s -> settled s = true -> simplify M s = Ok s.
Proof. destruct 1; auto. Qed.

(** What [simplify] returns is left unchanged by [simplify], in each of its
    subexpressions, unless a negation of a constant or of a negation is
    there to rewrite. *)
Lemma simplify_Simplified (M : Cxx.Libm) e s :
  simplify M e = Ok s -> Simplified M s.
Proof.
  revert s.
  induction e as [op l r IHl IHr | op x IHx | v | name | f args IH]
    using SymbolicExpression_nested_ind; intros s H; simpl in H.
  - inv_ok H as sl Hl. inv_ok H as sr Hr.
    specialize (IHl _ Hl). specialize (IHr _ Hr).
    destruct (simplifyBinary_cases _ _ _ _ _ H)
      as [[w ->] | [-> | [-> | [(-> & -> & Hzl & Hzr) | ->]]]];
      [constructor | done | done | |].
    + constructor; [done|]. simpl. intros Hs.
      apply andb_true_iff in Hs as [Hsr Hs].
      apply andb_true_iff in Hs as [Hc Hn].
      apply negb_true_iff in Hc. apply bool_decide_eq_true in Hn.
      rewrite (Simplified_fixed _ _ IHr Hsr). simpl.
      unfold simplifyUnary. by rewrite Hzr, Hn, Hc.
    + constructor; [done | done |]. simpl. intros Hs.
      apply andb_true_iff in Hs as [Hsl Hsr].
      by rewrite (Simplified_fixed _ _ IHl Hsl), (Simplified_fixed _ _ IHr Hsr).
  - inv_ok H as so Ho. specialize (IHx _ Ho).
    destruct (simplifyUnary_cases _ _ _ _ _ H)
      as [[w ->] | [-> | [(_ & ->) | (-> & Hc)]]];
      [constructor | done | by inversion IHx | ].
    constructor; [done|]. intros Hs.
    assert (settled so = true) as Hso
      by (simpl in Hs; by apply andb_true_iff in Hs as [Hso _]).
    simpl. rewrite (Simplified_fixed _ _ IHx Hso). simpl.
    rewrite <- H. by apply simplifyUnary_self.
  - simplify_eq. constructor.
  - simplify_eq. constructor.
  - inv_ok H as sargs Hargs. apply mapM_Ok_Forall2 in Hargs.
    assert (Hst : Forall (Simplified M) sargs).
    { clear H. induction Hargs as [|a b l l' Hab _ IHl]; [constructor|].
      apply Forall_cons in IH as [Ha IH]. constructor; eauto. }
    case_match.
    + inv_ok H as w Hw. simplify_eq. constructor.
    + simplify_eq. constructor; [done|]. intros Hs.
      unfold makeSymbolicFunction in *. simpl in *.
      rewrite (mapM_fixed (simplify M) sargs).
      * simpl. by rewrite H0.
      * clear H0 Hargs IH. induction Hst as [|a l Ha _ IHl]; [constructor|].
        simpl in Hs. apply andb_true_iff in Hs as [Hsa Hsl].
        constructor; [by apply Simplified_fixed | by apply IHl].
Qed.

(** An expression that [simplify] returns as it is has no negation of a
    constant or of a negation. *)
Lemma fixed_settled (M : Cxx.Libm) s : simplify M s = Ok s -> settled s = true.
Proof.
  induction s as [op l r IHl IHr | op x IHx | v | name | f args IH]
    using SymbolicExpression_nested_ind; intros H; simpl in H; simpl.
  - inv_ok H as sl Hl. inv_ok H as sr Hr.
    pose proof (simplify_size _ _ _ Hl). pose proof (simplify_size _ _ _ Hr).
    destruct (simplifyBinary_cases _ _ _ _ _ H)
      as [[w E] | [E | [E | [(E & _) | E]]]]; try discriminate;
      try (apply (f_equal size) in E; simpl in E; lia).
    injection E as <- <-. by rewrite IHl, IHr.
  - inv_ok H as so Ho. pose proof (simplify_size _ _ _ Ho).
    destruct (simplifyUnary_cases _ _ _ _ _ H)
      as [[w E] | [E | [(_ & E) | (E & Hc)]]]; try discriminate;
      try (apply (f_equal size) in E; simpl in E; lia).
    injection E as <-. rewrite (IHx Ho). simpl.
    destruct op; try done. rewrite Hc. simpl. apply bool_decide_eq_true.
    destruct (asNegative x) as [inner|] eqn:Hn; [exfalso | done].
    unfold simplifyUnary in H. rewrite Hn, clone_id in H.
    destruct (isZero x); [done|]. simplify_eq.
    destruct x as [| [] y | | |]; try done. simpl in Hn. simplify_eq.
    apply (f_equal size) in Hn. simpl in Hn. lia.
  - done.
  - done.
  - inv_ok H as sargs Hargs. apply mapM_Ok_Forall2 in Hargs.
    assert (sargs = args) as ->.
    { destruct (forallb isConstant sargs).
      - inv_ok H as w Hw. discriminate.
      - by simplify_eq. }
    clear H. induction args as [|a args IHargs]; [done|].
    apply Forall_cons in IH as [IHa IH].
    apply Forall2_cons in Hargs as [Ha Hargs].
    simpl. by rewrite (IHa Ha), (IHargs IH Hargs).
Qed.

(** C1, as stated, fails: 0 - (-x) simplifies to -(-x), and simplifying
    that once more gives x. *)
Lemma C1_counterexample :
  simplify example_libm (Sub (Lit 0) (Neg (Var "x"))) = Ok (Neg (Neg (Var "x"))) /\
  simplify example_libm (Neg (Neg (Var "x"))) = Ok (Var "x") /\
  (s ← simplify example_libm (Sub (Lit 0) (Neg (Var "x"))); simplify example_libm s)
  <> simplify example_libm (Sub (Lit 0) (Neg (Var "x"))).
Proof. repeat split. done. Qed.

(** C1 (amended): for every expression on which [simplify] succeeds,
    [simplify] applied to the result returns that result unchanged exactly
    when the result has no negation of a constant and no negation of a
    negation, the two nodes that the rewriting of 0 - y to -y can leave
    behind. *)
Theorem C1_simplify_idempotent (M : Cxx.Libm) (e s : SymbolicExpression) :
  simplify M e = Ok s ->
  (simplify M s = Ok s <-> settled s = true).
Proof.
  intros H. split.
  - apply fixed_settled.
  - apply Simplified_fixed. by eapply simplify_Simplified.
Qed.

Lemma C1_simplify_idempotent_witness :
  (simplify example_libm (Lit (-4)) = Ok (Lit (-4)) <->
   settled (Lit (-4)) = true) /\
  (simplify example_libm (Neg (Neg (Var "x"))) = Ok (Neg (Neg (Var "x"))) <->
   settled (Neg (Neg (Var "x"))) = true).
Proof.
  split.
  - apply (C1_simplify_idempotent example_libm
             (Add (Sub (Lit 0) (Lit 5)) (Lit 1)) (Lit (-4))).
    vm_compute. reflexivity.
  - apply (C1_simplify_idempotent example_libm
             (Sub (Lit 0) (Neg (Var "x"))) (Neg (Neg (Var "x")))).
    vm_compute. reflexivity.
Defined.

End SymbolicFacts.

(* ===================================================================== *)
(** * The lexer                                                           *)
(* ===================================================================== *)

Module LexerFacts.
Import LexSpec.

(** ** Strings *)

Lemma app_String c s t : String c s +:+ t = String c (s +:+ t).
Proof. reflexivity. Qed.

Lemma app_empty_l s : "" +:+ s = s.
Proof. reflexivity. Qed.

Lemma app_empty_r s : s +:+ "" = s.
Proof. induction s as [|c s IH]; [done|]. by rewrite app_String, IH. Qed.

Lemma app_assoc s t u : (s +:+ t) +:+ u = s +:+ (t +:+ u).
Proof. induction s as [|c s IH]; [done|]. by rewrite !app_String, IH. Qed.

Lemma length_app s t : String.length (s +:+ t) = String.length s + String.length t.
Proof. induction s as [|c s IH]; [done|]. rewrite app_String. simpl. by rewrite IH. Qed.

Lemma get_app_r pre s i : String.get (String.length pre + i) (pre +:+ s) = String.get i s.
Proof. induction pre as [|c pre IH]; [done|]. rewrite app_String. simpl. exact IH. Qed.

Lemma substring_app_r pre s n :
  substring (String.length pre) n (pre +:+ s) = substring 0 n s.
Proof. induction pre as [|c pre IH]; [done|]. rewrite app_String. simpl. exact IH. Qed.

Lemma substring_prefix u r : substring 0 (String.length u) (u +:+ r) = u.
Proof.
  induction u as [|c u IH].
  - by destruct r.
  - rewrite app_String. simpl. by rewrite IH.
Qed.

Lemma snoc_app pre c s : (pre +:+ String c "") +:+ s = pre +:+ String c s.
Proof. by rewrite app_assoc. Qed.

Lemma length_snoc pre c : String.length (pre +:+ String c "") = S (String.length pre).
Proof. rewrite length_app. simpl. lia. Qed.

(** ** The lexer state [L pre s] *)

Lemma L_new s : Lexer.new s = L "" s.
Proof. reflexivity. Qed.

Lemma L_remaining pre s : Lexer.remaining (L pre s) = String.length s.
Proof. unfold Lexer.remaining, Lexer.length, L. simpl. rewrite length_app. lia. Qed.

Lemma L_more pre c s :
  (Lexer.position (L pre (String c s)) <? Lexer.length (L pre (String c s))) = true.
Proof.
  unfold Lexer.length, L. simpl. rewrite length_app. simpl.
  apply Nat.ltb_lt. lia.
Qed.

Lemma L_end pre :
  (Lexer.position (L pre "") <? Lexer.length (L pre "")) = false.
Proof.
  unfold Lexer.length, L. simpl. rewrite length_app. simpl.
  apply Nat.ltb_ge. lia.
Qed.

Lemma L_current pre c s : Lexer.current (L pre (String c s)) = c.
Proof.
  unfold Lexer.current, Lexer.at_, L. simpl.
  replace (String.length pre) with (String.length pre + 0) by lia.
  by rewrite get_app_r.
Qed.

Lemma L_bump pre c s : Lexer.bump (L pre (String c s)) = L (pre +:+ String c "") s.
Proof. unfold Lexer.bump, L. simpl. by rewrite snoc_app, length_snoc. Qed.

(** ** The loops read what the spans say *)

Lemma spanWhile_app test s u r : spanWhile test s = (u, r) -> s = u +:+ r.
Proof.
  revert u r. induction s as [|c s IH]; intros u r H; simpl in H.
  - by simplify_eq.
  - destruct (test c); [|by simplify_eq].
    destruct (spanWhile test s) as [u' r'] eqn:E. simplify_eq.
    rewrite app_String. f_equal. by apply IH.
Qed.

Lemma advanceWhile_S test fuel lx :
  Lexer.advanceWhile test (S fuel) lx =
  if (Lexer.position lx <? Lexer.length lx) && test (Lexer.current lx)
  then Lexer.advanceWhile test fuel (Lexer.bump lx) else lx.
Proof. reflexivity. Qed.

Lemma advanceWhile_L test fuel pre s :
  String.length s <= fuel ->
  Lexer.advanceWhile test fuel (L pre s) =
  let '(u, r) := spanWhile test s in L (pre +:+ u) r.
Proof.
  revert pre s. induction fuel as [|fuel IH]; intros pre s Hlen.
  - destruct s; [|simpl in Hlen; lia]. simpl. by rewrite app_empty_r.
  - rewrite advanceWhile_S. destruct s as [|c s].
    + rewrite L_end. simpl. by rewrite app_empty_r.
    + rewrite L_more, L_current. simpl. destruct (test c).
      * rewrite L_bump, IH by (simpl in Hlen; lia).
        destruct (spanWhile test s) as [u r]. by rewrite snoc_app.
      * by rewrite app_empty_r.
Qed.

Lemma spanExponent_app s u r : spanExponent s = (u, r) -> s = u +:+ r.
Proof.
  unfold spanExponent. intros H.
  destruct s as [|d t].
  - simpl in H. by simplify_eq.
  - destruct (Lexer.is_sign d).
    + destruct (spanWhile Cxx.isdigit t) as [ds r'] eqn:E. simplify_eq.
      apply spanWhile_app in E. by rewrite E.
    + destruct (spanWhile Cxx.isdigit (String d t)) as [ds r'] eqn:E. simplify_eq.
      apply spanWhile_app in E. by rewrite E.
Qed.

Lemma spanNumber_app hd s u r : spanNumber hd s = (u, r) -> s = u +:+ r.
Proof.
  revert hd u r. induction s as [|c s IH]; intros hd u r H; simpl in H.
  - by simplify_eq.
  - repeat case_match; simplify_eq; rewrite ?app_String; try done; f_equal;
      eauto using spanExponent_app.
Qed.

Lemma readExponent_L pre c s :
  Lexer.readExponent (L pre (String c s)) =
  let '(u, r) := spanExponent s in L (pre +:+ String c u) r.
Proof.
  unfold Lexer.readExponent, spanExponent. rewrite L_bump.
  destruct s as [|d t].
  - rewrite L_end. simpl. rewrite L_remaining. simpl. by rewrite app_empty_r.
  - rewrite L_more, L_current. simpl. destruct (Lexer.is_sign d).
    + rewrite L_bump, L_remaining, advanceWhile_L by done.
      destruct (spanWhile Cxx.isdigit t) as [ds r].
      rewrite !app_assoc. by rewrite !app_String, !app_empty_l.
    + rewrite L_remaining, advanceWhile_L by done.
      destruct (spanWhile Cxx.isdigit (String d t)) as [ds r].
      rewrite !app_assoc. by rewrite !app_String, !app_empty_l.
Qed.

Lemma readNumber_loop_S fuel hd lx :
  Lexer.readNumber_loop (S fuel) hd lx =
  if Lexer.position lx <? Lexer.length lx then
    let c := Lexer.current lx in
    if Cxx.isdigit c then Lexer.readNumber_loop fuel hd (Lexer.bump lx)
    else if Ascii.eqb c "." && negb hd
    then Lexer.readNumber_loop fuel true (Lexer.bump lx)
    else if Ascii.eqb c "e" || Ascii.eqb c "E" then Lexer.readExponent lx
    else lx
  else lx.
Proof. reflexivity. Qed.

Lemma readNumber_loop_L fuel hd pre s :
  String.length s <= fuel ->
  Lexer.readNumber_loop fuel hd (L pre s) =
  let '(u, r) := spanNumber hd s in L (pre +:+ u) r.
Proof.
  revert hd pre s. induction fuel as [|fuel IH]; intros hd pre s Hlen.
  - destruct s; [|simpl in Hlen; lia]. simpl. by rewrite app_empty_r.
  - rewrite readNumber_loop_S. destruct s as [|c s].
    + rewrite L_end. simpl. by rewrite app_empty_r.
    + rewrite L_more, L_current. simpl in Hlen. simpl.
      destruct (Cxx.isdigit c).
      { rewrite L_bump, IH by lia.
        destruct (spanNumber hd s) as [u r]. by rewrite snoc_app. }
      destruct (Ascii.eqb c "." && negb hd).
      { rewrite L_bump, IH by lia.
        destruct (spanNumber true s) as [u r]. by rewrite snoc_app. }
      destruct (Ascii.eqb c "e" || Ascii.eqb c "E").
      { rewrite readExponent_L. by destruct (spanExponent s). }
      by rewrite app_empty_r.
Qed.

(** ** [getNextToken] is [lexSuffix] *)

Lemma L_position pre s : Lexer.position (L pre s) = String.length pre.
Proof. reflexivity. Qed.

Lemma L_input pre s : Lexer.input (L pre s) = pre +:+ s.
Proof. reflexivity. Qed.

Lemma token_text pre u r :
  substring (String.length pre)
    (String.length (pre +:+ u) - String.length pre) (pre +:+ (u +:+ r)) = u.
Proof.
  rewrite length_app, substring_app_r.
  replace (String.length pre + String.length u - String.length pre)
    with (String.length u) by lia.
  apply substring_prefix.
Qed.

Lemma getNextToken_L pre s :
  Lexer.getNextToken (L pre s) =
  let '(tok, (pre', s')) := lexSuffix pre s in (tok, L pre' s').
Proof.
  unfold Lexer.getNextToken, lexSuffix, Lexer.skipWhitespace.
  rewrite L_remaining, advanceWhile_L by done.
  destruct (spanWhile Cxx.isspace s) as [ws s1] eqn:Ews.
  destruct s1 as [|c s2].
  - pose proof (L_end (pre +:+ ws)) as He.
    apply Nat.ltb_ge in He. apply Nat.leb_le in He. by rewrite He.
  - pose proof (L_more (pre +:+ ws) c s2) as Hm.
    apply Nat.ltb_lt in Hm.
    replace (Lexer.length (L (pre +:+ ws) (String c s2)) <=?
             Lexer.position (L (pre +:+ ws) (String c s2))) with false
      by (symmetry; apply Nat.leb_gt; exact Hm).
    rewrite L_current.
    destruct (Cxx.isdigit c || Ascii.eqb c ".").
    { unfold Lexer.readNumber. rewrite L_remaining, readNumber_loop_L by done.
      destruct (spanNumber false (String c s2)) as [u r] eqn:E.
      apply spanNumber_app in E.
      rewrite !L_position, !L_input, E. by rewrite !token_text. }
    destruct (Cxx.isalpha c || Ascii.eqb c "_").
    { unfold Lexer.readIdentifier. rewrite L_remaining, advanceWhile_L by done.
      destruct (spanWhile Lexer.is_ident_char (String c s2)) as [u r] eqn:E.
      apply spanWhile_app in E.
      rewrite !L_position, !L_input, E. by rewrite !token_text. }
    by rewrite L_bump.
Qed.

(** The parser state after [advance] is the one of the text left. *)
Lemma advance_L tok pre s : Parser.advance (Parser.mk (L pre s) tok) = at_text pre s.
Proof.
  unfold Parser.advance, at_text. simpl. rewrite getNextToken_L.
  by destruct (lexSuffix pre s) as [tok' [pre' s']].
Qed.

Lemma new_at_text s : Parser.new s = at_text "" s.
Proof. unfold Parser.new. rewrite L_new. apply advance_L. Qed.

End LexerFacts.

(* ===================================================================== *)
(** * The tokens of a printed tree                                        *)
(* ===================================================================== *)

Module TokenFacts.
Import LexSpec LexerFacts Printed.

Ltac each_ascii c :=
  destruct c as [[|] [|] [|] [|] [|] [|] [|] [|]]; vm_compute; intuition congruence.

(** ** Character classes *)

Lemma identifier_start c :
  Cxx.isalpha c || Ascii.eqb c "_" = true ->
  Cxx.isspace c = false /\ Cxx.isdigit c || Ascii.eqb c "." = false /\
  Lexer.is_ident_char c = true.
Proof. each_ascii c. Qed.

Lemma number_start c :
  Cxx.isdigit c || Ascii.eqb c "." = true -> Cxx.isspace c = false.
Proof. each_ascii c. Qed.

Lemma delimiter_class c :
  isDelimiter c = true ->
  Cxx.isdigit c = false /\ Ascii.eqb c "." = false /\
  Ascii.eqb c "e" || Ascii.eqb c "E" = false /\
  Lexer.is_sign c = false /\ Lexer.is_ident_char c = false.
Proof. each_ascii c. Qed.

Lemma punctuation_type c :
  Lexer.punctuation c <> TokenType.NUMBER /\
  Lexer.punctuation c <> TokenType.VARIABLE /\
  Lexer.punctuation c <> TokenType.FUNCTION.
Proof. unfold Lexer.punctuation. repeat case_match; done. Qed.

Lemma delimited_endsIdentifier r : delimited r -> endsIdentifier r.
Proof.
  destruct r as [|c r]; [done|]. simpl. intros H.
  by apply delimiter_class in H as (_ & _ & _ & _ & H).
Qed.

Lemma closing_delimited r : closing r -> delimited r.
Proof. destruct r as [|c r]; [done|]. by intros [-> | ->]. Qed.

(** ** Spans of a text followed by another *)

Lemma spanWhile_all test s u r :
  spanWhile test s = (u, r) -> allChars test u = true.
Proof.
  revert u r. induction s as [|c s IH]; intros u r H; simpl in H.
  - by simplify_eq.
  - destruct (test c) eqn:Hc; [|by simplify_eq].
    destruct (spanWhile test s) as [u' r'] eqn:E. simplify_eq.
    simpl. rewrite Hc. eauto.
Qed.

Lemma spanWhile_stop test r :
  match r with String c _ => test c = false | EmptyString => True end ->
  spanWhile test r = ("", r).
Proof. destruct r as [|c r]; [done|]. simpl. by intros ->. Qed.

Lemma spanWhile_extend test s r :
  allChars test s = true ->
  match r with String c _ => test c = false | EmptyString => True end ->
  spanWhile test (s +:+ r) = (s, r).
Proof.
  intros Hs Hr. induction s as [|c s IH].
  - by apply spanWhile_stop.
  - simpl in Hs. apply andb_true_iff in Hs as [Hc Hs].
    rewrite app_String. simpl. rewrite Hc, (IH Hs). done.
Qed.

Lemma spanWhile_whole test s :
  spanWhile test s = (s, "") -> allChars test s = true.
Proof. apply spanWhile_all. Qed.

Lemma spanExponent_extend s r :
  spanExponent s = (s, "") -> delimited r -> spanExponent (s +:+ r) = (s, r).
Proof.
  unfold spanExponent. intros H Hr.
  assert (Hdig : match r with
                 | String c _ => Cxx.isdigit c = false
                 | EmptyString => True
                 end).
  { destruct r as [|c r]; [done|]. by apply delimiter_class in Hr as [Hr _]. }
  destruct s as [|d t].
  - rewrite app_empty_l. destruct r as [|c r]; [done|].
    apply delimiter_class in Hr as (Hd & _ & _ & Hsign & _).
    rewrite Hsign. simpl. by rewrite Hd.
  - rewrite app_String. destruct (Lexer.is_sign d).
    + destruct (spanWhile Cxx.isdigit t) as [ds r'] eqn:E.
      rewrite app_String, app_empty_l in H. simplify_eq.
      apply spanWhile_all in E as Hall.
      rewrite (spanWhile_extend _ _ _ Hall Hdig).
      by rewrite app_String, app_empty_l.
    + destruct (spanWhile Cxx.isdigit (String d t)) as [ds r'] eqn:E.
      rewrite app_empty_l in H. simplify_eq.
      apply spanWhile_all in E as Hall.
      rewrite <- app_String, (spanWhile_extend _ _ _ Hall Hdig).
      by rewrite app_empty_l.
Qed.

Lemma spanNumber_extend hd s r :
  spanNumber hd s = (s, "") -> delimited r -> spanNumber hd (s +:+ r) = (s, r).
Proof.
  intros H Hr. revert hd H. induction s as [|c s IH]; intros hd H.
  - rewrite app_empty_l. destruct r as [|c r]; [done|].
    apply delimiter_class in Hr as (Hd & Hp & He & _).
    simpl. by rewrite Hd, Hp, He.
  - rewrite app_String. simpl in *.
    destruct (Cxx.isdigit c).
    { destruct (spanNumber hd s) as [u r'] eqn:E. simplify_eq.
      by rewrite (IH hd). }
    destruct (Ascii.eqb c "." && negb hd).
    { destruct (spanNumber true s) as [u r'] eqn:E. simplify_eq.
      by rewrite (IH true). }
    destruct (Ascii.eqb c "e" || Ascii.eqb c "E"); [|done].
    destruct (spanExponent s) as [u r'] eqn:E. simplify_eq.
    by rewrite (spanExponent_extend s r).
Qed.

(** ** The parser state at the head of a text *)

Lemma at_text_eof pre :
  at_text pre "" =
  Parser.mk (L pre "") (Token.mk TokenType.END_OF_FILE "" (String.length pre)).
Proof. unfold at_text, lexSuffix. simpl. by rewrite app_empty_r. Qed.

Lemma at_text_space pre s : at_text pre (String " " s) = at_text (pre +:+ " ") s.
Proof.
  unfold at_text, lexSuffix.
  change (spanWhile Cxx.isspace (String " " s))
    with (let '(u, r) := spanWhile Cxx.isspace s in (String " " u, r)).
  destruct (spanWhile Cxx.isspace s) as [ws s1]. by rewrite snoc_app.
Qed.

Lemma at_text_punctuation pre c s :
  Cxx.isspace c = false ->
  Cxx.isdigit c || Ascii.eqb c "." = false ->
  Cxx.isalpha c || Ascii.eqb c "_" = false ->
  at_text pre (String c s) =
  Parser.mk (L (pre +:+ String c "") s)
    (Token.mk (Lexer.punctuation c) (String c "") (String.length pre)).
Proof.
  intros Hs Hd Ha. unfold at_text, lexSuffix. simpl. rewrite Hs, Hd, Ha.
  by rewrite app_empty_r.
Qed.

Lemma at_text_identifier pre name r :
  isIdentifier name = true -> endsIdentifier r ->
  at_text pre (name +:+ r) =
  Parser.mk (L (pre +:+ name) r)
    (Token.mk (if Lexer.isFunction name then TokenType.FUNCTION
               else TokenType.VARIABLE) name (String.length pre)).
Proof.
  intros Hname Hr. destruct name as [|c name]; [done|].
  apply andb_true_iff in Hname as [Hc Hall].
  destruct (identifier_start c Hc) as (Hs & Hd & Hi).
  unfold at_text, lexSuffix. rewrite app_String.
  rewrite (spanWhile_stop Cxx.isspace) by done.
  rewrite Hd, Hc, <- app_String.
  rewrite (spanWhile_extend _ _ _ Hall Hr). by rewrite app_empty_r.
Qed.

(** The first condition of [readsBack], on the spans. *)
Lemma readsBack_span v :
  readsBack v ->
  exists c s, Cxx.print_double v = String c s /\
    Cxx.isdigit c || Ascii.eqb c "." = true /\
    spanNumber false (String c s) = (String c s, "").
Proof.
  intros [H _]. rewrite L_new, getNextToken_L in H.
  unfold lexSuffix in H.
  destruct (spanWhile Cxx.isspace (Cxx.print_double v)) as [ws s1] eqn:Ews.
  apply spanWhile_app in Ews as Happ.
  destruct s1 as [|c s2]; [simplify_eq|].
  destruct (Cxx.isdigit c || Ascii.eqb c ".") eqn:Hd.
  - destruct (spanNumber false (String c s2)) as [u r] eqn:E.
    injection H as Hu Hpos _.
    rewrite app_empty_l in Hpos. destruct ws; [|done].
    rewrite app_empty_l in Happ. exists c, s2. split; [done|]. split; [done|].
    apply spanNumber_app in E as Hur. rewrite E. f_equal.
    + congruence.
    + assert (Hlen : String.length (String c s2) = String.length (u +:+ r))
        by by rewrite Hur.
      rewrite length_app, Hu, Happ in Hlen. destruct r; [done|simpl in Hlen; lia].
  - destruct (Cxx.isalpha c || Ascii.eqb c "_").
    + destruct (spanWhile Lexer.is_ident_char (String c s2)) as [u r].
      injection H as Hty _. by destruct (Lexer.isFunction u).
    + injection H as Hty _. by apply punctuation_type in Hty.
Qed.

Lemma at_text_number pre v r :
  readsBack v -> delimited r ->
  at_text pre (Cxx.print_double v +:+ r) =
  Parser.mk (L (pre +:+ Cxx.print_double v) r)
    (Token.mk TokenType.NUMBER (Cxx.print_double v) (String.length pre)).
Proof.
  intros Hv Hr. destruct (readsBack_span v Hv) as (c & s & -> & Hd & Hspan).
  unfold at_text, lexSuffix. rewrite app_String.
  rewrite (spanWhile_stop Cxx.isspace) by (by apply number_start).
  rewrite Hd, <- app_String, (spanNumber_extend _ _ _ Hspan Hr).
  by rewrite app_empty_r.
Qed.

(** ** Tokens are well formed *)

Lemma lexSuffix_tokenOk pre s : tokenOk (fst (lexSuffix pre s)).
Proof.
  unfold lexSuffix, tokenOk.
  destruct (spanWhile Cxx.isspace s) as [ws s1].
  destruct s1 as [|c s2]; [done|].
  destruct (Cxx.isdigit c || Ascii.eqb c "."); [by destruct (spanNumber _ _)|].
  destruct (Cxx.isalpha c || Ascii.eqb c "_") eqn:Hc.
  - destruct (identifier_start c Hc) as (_ & _ & Hi).
    destruct (spanWhile Lexer.is_ident_char (String c s2)) as [u r] eqn:E.
    apply spanWhile_all in E as Hall. simpl in E. rewrite Hi in E.
    destruct (spanWhile Lexer.is_ident_char s2) as [u' r']. simplify_eq.
    simpl. destruct (Lexer.isFunction (String c u')) eqn:Hf; simpl; [done|].
    unfold isVariableName, isIdentifier. by rewrite Hc, Hall, Hf.
  - simpl. destruct (punctuation_type c) as (_ & Hv & Hf).
    by destruct (Lexer.punctuation c).
Qed.

Lemma at_text_stateOk pre s : stateOk (at_text pre s).
Proof.
  unfold at_text. pose proof (lexSuffix_tokenOk pre s) as H.
  destruct (lexSuffix pre s) as [tok [pre' s']]. split; [done|]. by exists pre', s'.
Qed.

Lemma advance_stateOk p : stateOk p -> stateOk (Parser.advance p).
Proof.
  intros [_ (pre & s & Hl)]. destruct p as [lx tok]. simpl in Hl. subst lx.
  rewrite advance_L. apply at_text_stateOk.
Qed.

Lemma new_stateOk s : stateOk (Parser.new s).
Proof. rewrite new_at_text. apply at_text_stateOk. Qed.

End TokenFacts.

(* ===================================================================== *)
(** * The trees the parser returns                                        *)
(* ===================================================================== *)

Module ParsedFacts.
Import Parser ParserFuel Printed TokenFacts ResFacts.

Lemma expect_Ok type message p :
  expect type message p = Ok tt -> currentType p = type.
Proof. unfold expect. by destruct (decide _). Qed.

Lemma parser_wellFormed n : parserWellFormed n.
Proof.
  induction n as [|n (IHe & IHt & IHtw & IHf & IHfw & IHp & IHpr & IHfn & IHfnw)].
  { repeat apply conj; try red; intros; discriminate. }
  repeat apply conj.
  - intros p t p' Hp H. rewrite parseExpression_S in H. eauto.
  - intros p t p' Hp H. rewrite parseTerm_S in H.
    inv_ok H as [l p1] Hl.
    destruct (IHf _ _ _ Hp Hl) as [Hwl Hp1]. eapply IHtw; eauto.
  - intros l Hwl p t p' Hp H. rewrite parseTerm_while_S in H.
    destruct (currentType p); simplify_eq; try done;
      cbv zeta in H; inv_ok H as [r p2] Hr;
      (destruct (IHf _ _ _ (advance_stateOk _ Hp) Hr) as [Hwr Hp2];
       eapply IHtw; [|exact Hp2|exact H]; simpl; by rewrite Hwl, Hwr).
  - intros p t p' Hp H. rewrite parseFactor_S in H.
    inv_ok H as [l p1] Hl.
    destruct (IHp _ _ _ Hp Hl) as [Hwl Hp1]. eapply IHfw; eauto.
  - intros l Hwl p t p' Hp H. rewrite parseFactor_while_S in H.
    destruct (continuesFactor (currentType p)); [|by simplify_eq].
    assert (Hadv := advance_stateOk _ Hp).
    destruct (currentType p); cbv zeta beta iota in H;
      inv_ok H as [r p2] Hr;
      match type of Hr with
      | parsePower _ ?q = _ =>
          assert (Hq : stateOk q) by assumption;
          destruct (IHp _ _ _ Hq Hr) as [Hwr Hp2]
      end;
      (eapply IHfw; [|exact Hp2|exact H]; simpl; by rewrite Hwl, Hwr).
  - intros p t p' Hp H. rewrite parsePower_S in H.
    inv_ok H as [l p1] Hl.
    destruct (IHpr _ _ _ Hp Hl) as [Hwl Hp1].
    destruct (currentType p1); simplify_eq; try done.
    inv_ok H as [r p3] Hr. simplify_eq.
    destruct (IHp _ _ _ (advance_stateOk _ Hp1) Hr) as [Hwr Hp3].
    split; [|done]. simpl. by rewrite Hwl, Hwr.
  - intros p t p' Hp H. rewrite parsePrimary_S in H.
    destruct (currentType p) eqn:Hty; try discriminate.
    + inv_ok H as v Hv. simplify_eq. split; [done|]. by apply advance_stateOk.
    + simplify_eq. split; [|by apply advance_stateOk].
      destruct Hp as [Htok _]. unfold tokenOk in Htok.
      unfold currentType in Hty. by rewrite Hty in Htok.
    + cbv zeta in H. inv_ok H as [x p2] Hx. simplify_eq.
      destruct (IHpr _ _ _ (advance_stateOk _ Hp) Hx) as [Hwx Hp2]. done.
    + cbv zeta in H. inv_ok H as [x p2] Hx. simplify_eq.
      destruct (IHpr _ _ _ (advance_stateOk _ Hp) Hx) as [Hwx Hp2]. done.
    + inv_ok H as [e p2] He. inv_ok H as u Hu. simplify_eq.
      destruct (IHe _ _ _ (advance_stateOk _ Hp) He) as [Hwe Hp2].
      split; [done|]. by apply advance_stateOk.
    + eauto.
  - intros p t p' Hp Hty H. rewrite parseFunction_S in H. cbv zeta in H.
    inv_ok H as u Hu. inv_ok H as [args p3] Hargs. inv_ok H as u' Hu'.
    simplify_eq.
    assert (Hp2 := advance_stateOk _ (advance_stateOk _ Hp)).
    assert (Hf : Lexer.isFunction (Token.value (currentToken p)) = true).
    { destruct Hp as [Htok _]. unfold tokenOk in Htok.
      unfold currentType in Hty. by rewrite Hty in Htok. }
    assert (Hwargs : forallb wellFormed args = true /\ stateOk p3).
    { destruct (decide _); [by simplify_eq|].
      inv_ok Hargs as [a p4] Ha.
      destruct (IHe _ _ _ Hp2 Ha) as [Hwa Hp4].
      eapply IHfnw; [|exact Hp4|exact Hargs]. simpl. by rewrite Hwa. }
    destruct Hwargs as [Hwargs Hp3]. split; [|by apply advance_stateOk].
    simpl. by rewrite Hf, Hwargs.
  - intros args p args' p' Hwargs Hp H. rewrite parseFunction_while_S in H.
    destruct (currentType p); simplify_eq; try done.
    inv_ok H as [a p2] Ha.
    destruct (IHe _ _ _ (advance_stateOk _ Hp) Ha) as [Hwa Hp2].
    eapply IHfnw; [|exact Hp2|exact H].
    rewrite forallb_app, Hwargs. simpl. by rewrite Hwa.
Qed.

(** Every tree the parser returns on a text is well formed. *)
Lemma parseText_wellFormed fuel s t :
  parseText fuel s = Ok t -> wellFormed t = true.
Proof.
  unfold parseText, parse. intros H. inv_ok H as [t' p1] Ht.
  inv_ok H as u Hu. simplify_eq.
  destruct (parser_wellFormed fuel) as (IHe & _).
  by destruct (IHe _ _ _ (new_stateOk s) Ht).
Qed.

End ParsedFacts.

(* ===================================================================== *)
(** * Parsing the printed form                                            *)
(* ===================================================================== *)

Module RoundTrip.
Import Parser ParserFuel LexSpec LexerFacts Printed TokenFacts ResFacts.

(** Structural induction that reaches the arguments of a call. *)
Lemma ASTNode_nested_ind (P : ASTNode -> Prop) :
  (forall op l r, P l -> P r -> P (BinaryOpNode op l r)) ->
  (forall op x, P x -> P (UnaryOpNode op x)) ->
  (forall v, P (NumberNode v)) ->
  (forall name, P (VariableNode name)) ->
  (forall f args, Forall P args -> P (FunctionNode f args)) ->
  forall t, P t.
Proof.
  intros Hbin Hun Hnum Hvar Hfun.
  fix IH 1. intros [op l r | op x | v | name | f args].
  - apply Hbin; apply IH.
  - apply Hun; apply IH.
  - apply Hnum.
  - apply Hvar.
  - apply Hfun. induction args as [|a args IHargs]; constructor; [apply IH | exact IHargs].
Qed.

(** ** Each method, once its parts are read *)

Ltac enough_fuel n0 :=
  exists n0; intros [|?n] ?Hn; [lia|].

Lemma conv_number p v :
  currentType p = TokenType.NUMBER ->
  Cxx.stod (Token.value (currentToken p)) = Ok v ->
  converges (fun n => parsePrimary n p) (NumberNode v, advance p).
Proof.
  intros Hty Hv. enough_fuel 1. rewrite parsePrimary_S, Hty, Hv. done.
Qed.

Lemma conv_variable p :
  currentType p = TokenType.VARIABLE ->
  converges (fun n => parsePrimary n p)
    (VariableNode (Token.value (currentToken p)), advance p).
Proof. intros Hty. enough_fuel 1. by rewrite parsePrimary_S, Hty. Qed.

Lemma conv_sign p op x p' :
  currentType p = (if decide (op = UnaryOpNode.POSITIVE) then TokenType.PLUS
                   else TokenType.MINUS) ->
  isSign op = true ->
  converges (fun n => parsePrimary n (advance p)) (x, p') ->
  converges (fun n => parsePrimary n p) (UnaryOpNode op x, p').
Proof.
  intros Hty Hop [n0 H]. enough_fuel (S n0).
  rewrite parsePrimary_S, Hty.
  destruct op; try done; simpl; by rewrite H by lia.
Qed.

Lemma conv_paren p e p' :
  currentType p = TokenType.LEFT_PAREN ->
  converges (fun n => parseExpression n (advance p)) (e, p') ->
  currentType p' = TokenType.RIGHT_PAREN ->
  converges (fun n => parsePrimary n p) (e, advance p').
Proof.
  intros Hty [n0 H] Hclose. enough_fuel (S n0).
  rewrite parsePrimary_S, Hty, H by lia. simpl.
  unfold expect. by rewrite Hclose.
Qed.

Lemma conv_power_of_primary p t p' :
  converges (fun n => parsePrimary n p) (t, p') ->
  currentType p' <> TokenType.POWER ->
  converges (fun n => parsePower n p) (t, p').
Proof.
  intros [n0 H] Hty. enough_fuel (S n0).
  rewrite parsePower_S, H by lia. simpl. by destruct (currentType p').
Qed.

Lemma conv_power_binary p l p2 r p4 :
  converges (fun n => parsePrimary n p) (l, p2) ->
  currentType p2 = TokenType.POWER ->
  converges (fun n => parsePower n (advance p2)) (r, p4) ->
  converges (fun n => parsePower n p) (BinaryOpNode BinaryOpNode.POWER l r, p4).
Proof.
  intros [n1 H1] Hty [n2 H2]. enough_fuel (S (n1 `max` n2)).
  rewrite parsePower_S, H1 by lia. simpl. rewrite Hty, H2 by lia. done.
Qed.

Lemma conv_factor_of_power p t p' :
  converges (fun n => parsePower n p) (t, p') ->
  continuesFactor (currentType p') = false ->
  converges (fun n => parseFactor n p) (t, p').
Proof.
  intros [n0 H] Hty. enough_fuel (S (S n0)).
  rewrite parseFactor_S, H by lia. simpl.
  destruct n; [lia|]. by rewrite parseFactor_while_S, Hty.
Qed.

Lemma conv_factor_binary p op l p2 r p4 :
  converges (fun n => parsePower n p) (l, p2) ->
  (op = BinaryOpNode.MULTIPLY \/ op = BinaryOpNode.DIVIDE) ->
  currentType p2 = opToken op ->
  converges (fun n => parsePower n (advance p2)) (r, p4) ->
  continuesFactor (currentType p4) = false ->
  converges (fun n => parseFactor n p) (BinaryOpNode op l r, p4).
Proof.
  intros [n1 H1] Hop Hty [n2 H2] Hend. enough_fuel (S (S (S (n1 `max` n2)))).
  rewrite parseFactor_S, H1 by lia. simpl.
  destruct n; [lia|]. rewrite parseFactor_while_S, Hty.
  destruct Hop as [-> | ->]; cbn -[parsePower parseFactor_while];
    rewrite H2 by lia; cbn -[parseFactor_while];
    (destruct n; [lia|]); by rewrite parseFactor_while_S, Hend.
Qed.

Lemma conv_term_of_factor p t p' :
  converges (fun n => parseFactor n p) (t, p') ->
  currentType p' <> TokenType.PLUS -> currentType p' <> TokenType.MINUS ->
  converges (fun n => parseTerm n p) (t, p').
Proof.
  intros [n0 H] Hplus Hminus. enough_fuel (S (S n0)).
  rewrite parseTerm_S, H by lia. simpl.
  destruct n; [lia|]. rewrite parseTerm_while_S. by destruct (currentType p').
Qed.

Lemma conv_term_binary p op l p2 r p4 :
  converges (fun n => parseFactor n p) (l, p2) ->
  (op = BinaryOpNode.ADD \/ op = BinaryOpNode.SUBTRACT) ->
  currentType p2 = opToken op ->
  converges (fun n => parseFactor n (advance p2)) (r, p4) ->
  currentType p4 <> TokenType.PLUS -> currentType p4 <> TokenType.MINUS ->
  converges (fun n => parseTerm n p) (BinaryOpNode op l r, p4).
Proof.
  intros [n1 H1] Hop Hty [n2 H2] Hplus Hminus.
  enough_fuel (S (S (S (n1 `max` n2)))).
  rewrite parseTerm_S, H1 by lia. simpl.
  destruct n; [lia|]. rewrite parseTerm_while_S, Hty.
  destruct Hop as [-> | ->]; cbn -[parseFactor parseTerm_while];
    rewrite H2 by lia; cbn -[parseTerm_while];
    (destruct n; [lia|]); rewrite parseTerm_while_S; by destruct (currentType p4).
Qed.

Lemma conv_expression_of_term p t p' :
  converges (fun n => parseTerm n p) (t, p') ->
  converges (fun n => parseExpression n p) (t, p').
Proof.
  intros [n0 H]. enough_fuel (S n0). rewrite parseExpression_S. apply H. lia.
Qed.

Lemma endsExpression_types type :
  endsExpression type ->
  type <> TokenType.POWER /\ continuesFactor type = false /\
  type <> TokenType.PLUS /\ type <> TokenType.MINUS.
Proof. intros [-> | [-> | ->]]; done. Qed.

Lemma conv_factor_of_primary p t p' :
  converges (fun n => parsePrimary n p) (t, p') ->
  currentType p' <> TokenType.POWER ->
  continuesFactor (currentType p') = false ->
  converges (fun n => parseFactor n p) (t, p').
Proof. eauto using conv_factor_of_power, conv_power_of_primary. Qed.

Lemma conv_expression_of_primary p t p' :
  converges (fun n => parsePrimary n p) (t, p') ->
  endsExpression (currentType p') ->
  converges (fun n => parseExpression n p) (t, p').
Proof.
  intros H Hend. apply endsExpression_types in Hend as (H1 & H2 & H3 & H4).
  eauto using conv_expression_of_term, conv_term_of_factor, conv_factor_of_primary.
Qed.

(** ** The tokens between the printed subtrees *)

Ltac norm :=
  repeat first [rewrite app_assoc | rewrite app_String | rewrite app_empty_l].

Lemma at_text_op pre op s :
  at_text pre (String (opChar op) s) =
  Parser.mk (L (pre +:+ String (opChar op) "") s)
    (Token.mk (opToken op) (String (opChar op) "") (String.length pre)).
Proof. destruct op; by apply at_text_punctuation. Qed.

Lemma at_text_sign pre op s :
  isSign op = true ->
  at_text pre (String (signChar op) s) =
  Parser.mk (L (pre +:+ String (signChar op) "") s)
    (Token.mk (if decide (op = UnaryOpNode.POSITIVE) then TokenType.PLUS
               else TokenType.MINUS)
       (String (signChar op) "") (String.length pre)).
Proof. destruct op; try done; intros _; by apply at_text_punctuation. Qed.

Lemma at_text_open pre s :
  at_text pre (String "(" s) =
  Parser.mk (L (pre +:+ "(") s)
    (Token.mk TokenType.LEFT_PAREN "(" (String.length pre)).
Proof. by apply at_text_punctuation. Qed.

Lemma at_text_close pre s :
  at_text pre (String ")" s) =
  Parser.mk (L (pre +:+ ")") s)
    (Token.mk TokenType.RIGHT_PAREN ")" (String.length pre)).
Proof. by apply at_text_punctuation. Qed.

Lemma at_text_comma pre s :
  at_text pre (String "," s) =
  Parser.mk (L (pre +:+ ",") s)
    (Token.mk TokenType.COMMA "," (String.length pre)).
Proof. by apply at_text_punctuation. Qed.

Lemma closing_endsExpression pre r :
  closing r -> endsExpression (currentType (at_text pre r)).
Proof.
  destruct r as [|c r]; simpl.
  - intros _. rewrite at_text_eof. by right; right.
  - intros [-> | ->].
    + rewrite at_text_close. by left.
    + rewrite at_text_comma. by right; left.
Qed.

Lemma primary_expression t :
  primaryReadsBack t -> expressionReadsBack t.
Proof.
  intros H pre r Hr. apply conv_expression_of_primary.
  - apply H. by apply closing_delimited.
  - by apply closing_endsExpression.
Qed.

(** ** Leaves *)

Lemma number_reads_back v : readsBack v -> primaryReadsBack (NumberNode v).
Proof.
  intros Hv pre r Hr. simpl AST.toString.
  rewrite (at_text_number pre v r Hv Hr).
  rewrite <- (advance_L (Token.mk TokenType.NUMBER (Cxx.print_double v)
                           (String.length pre))).
  apply conv_number; [done|]. apply Hv.
Qed.

Lemma variable_reads_back name :
  isVariableName name = true -> primaryReadsBack (VariableNode name).
Proof.
  intros Hname pre r Hr. simpl AST.toString.
  apply andb_true_iff in Hname as [Hid Hnf]. apply negb_true_iff in Hnf.
  rewrite (at_text_identifier pre name r Hid (delimited_endsIdentifier r Hr)), Hnf.
  rewrite <- (advance_L (Token.mk TokenType.VARIABLE name (String.length pre))).
  exact (conv_variable
           (Parser.mk (L (pre +:+ name) r)
              (Token.mk TokenType.VARIABLE name (String.length pre))) eq_refl).
Qed.

(** ** Signs *)

Lemma toString_sign op x :
  isSign op = true ->
  AST.toString (UnaryOpNode op x) = String (signChar op) (AST.toString x).
Proof. destruct op; try done; intros _; simpl; by norm. Qed.

Lemma sign_reads_back op x :
  isSign op = true -> primaryReadsBack x -> primaryReadsBack (UnaryOpNode op x).
Proof.
  intros Hop Hx pre r Hr. rewrite (toString_sign op x Hop), app_String.
  rewrite (at_text_sign pre op _ Hop).
  eapply conv_sign; [done | done |].
  rewrite advance_L.
  replace (pre +:+ String (signChar op) (AST.toString x))
    with ((pre +:+ String (signChar op) "") +:+ AST.toString x) by by norm.
  by apply Hx.
Qed.

(** ** Binary nodes *)

Lemma toString_binary op l r :
  AST.toString (BinaryOpNode op l r) =
  String "(" (AST.toString l +:+
    String " " (String (opChar op) (String " " (AST.toString r +:+ ")")))).
Proof. destruct op; simpl; by norm. Qed.

Lemma binary_reads_back op l r :
  primaryReadsBack l -> primaryReadsBack r ->
  primaryReadsBack (BinaryOpNode op l r).
Proof.
  intros Hl Hr pre r0 Hr0. rewrite toString_binary.
  set (sl := AST.toString l). set (sr := AST.toString r).
  set (x4 := String ")" r0).
  set (x3 := String " " (sr +:+ x4)).
  set (x2 := String " " (String (opChar op) x3)).
  set (pre1 := pre +:+ "(").
  set (pre2 := ((pre1 +:+ sl) +:+ " ") +:+ String (opChar op) "").
  set (pre3 := (pre2 +:+ " ") +:+ sr).
  set (p2 := Parser.mk (L pre2 x3)
               (Token.mk (opToken op) (String (opChar op) "")
                  (String.length ((pre1 +:+ sl) +:+ " ")))).
  set (p4 := Parser.mk (L (pre3 +:+ ")") r0)
               (Token.mk TokenType.RIGHT_PAREN ")" (String.length pre3))).
  (* the left operand, up to the operator *)
  assert (H1 : converges (fun n => parsePrimary n (at_text pre1 (sl +:+ x2))) (l, p2)).
  { replace p2 with (at_text (pre1 +:+ sl) x2)
      by (unfold x2; by rewrite at_text_space, at_text_op).
    by apply Hl. }
  (* the right operand, up to the closing parenthesis *)
  assert (H2 : converges (fun n => parsePrimary n (advance p2)) (r, p4)).
  { unfold p2. rewrite advance_L. unfold x3. rewrite at_text_space.
    replace p4 with (at_text pre3 x4) by (unfold x4; by rewrite at_text_close).
    by apply Hr. }
  (* the text and the final state *)
  replace (String "(" (sl +:+ String " " (String (opChar op)
             (String " " (sr +:+ ")")))) +:+ r0)
    with (String "(" (sl +:+ x2)) by (unfold x2, x3, x4; by norm).
  replace (at_text (pre +:+ String "(" (sl +:+ String " " (String (opChar op)
             (String " " (sr +:+ ")"))))) r0)
    with (advance p4)
    by (unfold p4, pre3, pre2, pre1; rewrite advance_L; f_equal; by norm).
  rewrite at_text_open. fold pre1.
  apply conv_paren; [done| |done]. rewrite advance_L.
  assert (Hend : endsExpression (currentType p4)) by by left.
  apply endsExpression_types in Hend as (E1 & E2 & E3 & E4).
  apply conv_expression_of_term.
  destruct op.
  - eapply conv_term_binary; eauto using conv_factor_of_primary.
  - eapply conv_term_binary; eauto using conv_factor_of_primary.
  - apply conv_term_of_factor; [|done|done].
    eapply conv_factor_binary; eauto using conv_power_of_primary.
  - apply conv_term_of_factor; [|done|done].
    eapply conv_factor_binary; eauto using conv_power_of_primary.
  - apply conv_term_of_factor; [|done|done].
    apply conv_factor_of_power; [|done].
    eapply conv_power_binary; eauto using conv_power_of_primary.
Qed.

(** ** Calls *)

Lemma conv_arguments_done args p :
  currentType p <> TokenType.COMMA ->
  converges (fun n => parseFunction_while n args p) (args, p).
Proof.
  intros Hty. enough_fuel 1. rewrite parseFunction_while_S.
  by destruct (currentType p).
Qed.

Lemma conv_arguments_more args p a p' args' p'' :
  currentType p = TokenType.COMMA ->
  converges (fun n => parseExpression n (advance p)) (a, p') ->
  converges (fun n => parseFunction_while n (args ++ [a])%list p') (args', p'') ->
  converges (fun n => parseFunction_while n args p) (args', p'').
Proof.
  intros Hty [n1 H1] [n2 H2]. enough_fuel (S (n1 `max` n2)).
  rewrite parseFunction_while_S, Hty, H1 by lia. simpl. apply H2. lia.
Qed.

Lemma conv_call_empty p :
  currentType p = TokenType.FUNCTION ->
  currentType (advance p) = TokenType.LEFT_PAREN ->
  currentType (advance (advance p)) = TokenType.RIGHT_PAREN ->
  converges (fun n => parsePrimary n p)
    (FunctionNode (Token.value (currentToken p)) [], advance (advance (advance p))).
Proof.
  intros Hty Hopen Hclose. enough_fuel 2.
  rewrite parsePrimary_S, Hty. destruct n; [lia|].
  rewrite parseFunction_S. cbv zeta. unfold expect.
  rewrite Hopen, Hclose. simpl. by rewrite Hclose.
Qed.

Lemma conv_call p a p3 args p4 :
  currentType p = TokenType.FUNCTION ->
  currentType (advance p) = TokenType.LEFT_PAREN ->
  currentType (advance (advance p)) <> TokenType.RIGHT_PAREN ->
  converges (fun n => parseExpression n (advance (advance p))) (a, p3) ->
  converges (fun n => parseFunction_while n [a] p3) (args, p4) ->
  currentType p4 = TokenType.RIGHT_PAREN ->
  converges (fun n => parsePrimary n p)
    (FunctionNode (Token.value (currentToken p)) args, advance p4).
Proof.
  intros Hty Hopen Hnot [n1 H1] [n2 H2] Hclose.
  enough_fuel (S (S (n1 `max` n2))).
  rewrite parsePrimary_S, Hty. destruct n; [lia|].
  rewrite parseFunction_S. cbv zeta. unfold expect.
  rewrite Hopen. simpl.
  destruct (decide (currentType (advance (advance p)) = TokenType.RIGHT_PAREN));
    [done|].
  rewrite H1 by lia. simpl. rewrite H2 by lia. simpl.
  by rewrite Hclose.
Qed.

Lemma primary_not_close p t p' :
  converges (fun n => parsePrimary n p) (t, p') ->
  currentType p <> TokenType.RIGHT_PAREN.
Proof.
  intros [n0 H] Hty. specialize (H (S n0)).
  rewrite parsePrimary_S, Hty in H. discriminate H. lia.
Qed.

Lemma join_args_cons a rest :
  join_args (map AST.toString (a :: rest)) = AST.toString a +:+ moreArguments rest.
Proof.
  revert a. induction rest as [|b rest IH]; intros a.
  - simpl. by rewrite app_empty_r.
  - change (join_args (map AST.toString (a :: b :: rest)))
      with (AST.toString a +:+ ", " +:+ join_args (map AST.toString (b :: rest))).
    rewrite IH. simpl moreArguments. by norm.
Qed.

Lemma closing_moreArguments rest r0 :
  closing (moreArguments rest +:+ String ")" r0).
Proof. destruct rest; simpl; norm; auto. Qed.

Lemma more_arguments_read_back rest r0 :
  Forall primaryReadsBack rest ->
  forall acc pre,
    converges
      (fun n => parseFunction_while n acc
                  (at_text pre (moreArguments rest +:+ String ")" r0)))
      ((acc ++ rest)%list, at_text (pre +:+ moreArguments rest) (String ")" r0)).
Proof.
  induction 1 as [|b rest Hb _ IH]; intros acc pre.
  - simpl moreArguments. rewrite app_empty_l, app_empty_r, app_nil_r.
    apply conv_arguments_done. by rewrite at_text_close.
  - simpl moreArguments. norm. rewrite at_text_comma.
    eapply conv_arguments_more; [done| |].
    + rewrite advance_L, at_text_space.
      apply (primary_expression b Hb). apply closing_moreArguments.
    + replace (acc ++ b :: rest)%list with ((acc ++ [b]) ++ rest)%list
        by by rewrite <- List.app_assoc.
      replace (pre +:+ String "," (String " " (AST.toString b +:+ moreArguments rest)))
        with ((((pre +:+ ",") +:+ " ") +:+ AST.toString b) +:+ moreArguments rest)
        by by norm.
      apply IH.
Qed.

Lemma function_names_identifiers f :
  Lexer.isFunction f = true -> isIdentifier f = true.
Proof.
  unfold Lexer.isFunction, Lexer.functions. intros H.
  apply bool_decide_eq_true in H.
  repeat (apply elem_of_cons in H as [-> | H]; [reflexivity|]).
  by apply elem_of_nil in H.
Qed.

Lemma function_reads_back f args :
  Lexer.isFunction f = true -> Forall primaryReadsBack args ->
  primaryReadsBack (FunctionNode f args).
Proof.
  intros Hf Hargs pre r0 Hr0. simpl AST.toString.
  set (text := join_args (map AST.toString args)).
  set (p0 := Parser.mk (L (pre +:+ f) (String "(" (text +:+ String ")" r0)))
               (Token.mk TokenType.FUNCTION f (String.length pre))).
  replace (at_text pre ((f +:+ "(" +:+ text +:+ ")") +:+ r0)) with p0.
  2:{ norm. rewrite at_text_identifier, Hf;
        [done | by apply function_names_identifiers | done]. }
  remember ((pre +:+ f) +:+ "(") as pre1 eqn:Epre1.
  assert (H1 : currentType (advance p0) = TokenType.LEFT_PAREN).
  { unfold p0. by rewrite advance_L, at_text_open. }
  assert (H2 : advance (advance p0) = at_text pre1 (text +:+ String ")" r0)).
  { unfold p0. by rewrite advance_L, at_text_open, advance_L, Epre1. }
  assert (Hlast : forall pre',
            pre' +:+ ")" = pre +:+ f +:+ "(" +:+ text +:+ ")" ->
            advance (Parser.mk (L (pre' +:+ ")") r0)
                       (Token.mk TokenType.RIGHT_PAREN ")" (String.length pre'))) =
            at_text (pre +:+ f +:+ "(" +:+ text +:+ ")") r0).
  { intros pre' E. by rewrite advance_L, E. }
  change f with (Token.value (currentToken p0)) at 1.
  subst text. destruct Hargs as [|a rest Ha Hrest].
  - simpl join_args in *. rewrite app_empty_l in H2.
    rewrite <- (Hlast pre1) by (subst pre1; by norm).
    rewrite at_text_close in H2. rewrite <- H2.
    by apply conv_call_empty; [| |rewrite H2].
  - rewrite join_args_cons in *.
    replace ((AST.toString a +:+ moreArguments rest) +:+ String ")" r0)
      with (AST.toString a +:+ (moreArguments rest +:+ String ")" r0)) in H2
      by by rewrite app_assoc.
    pose proof (primary_expression a Ha pre1
                  (moreArguments rest +:+ String ")" r0)
                  (closing_moreArguments rest r0)) as He.
    pose proof (Ha pre1 (moreArguments rest +:+ String ")" r0)
                  (closing_delimited _ (closing_moreArguments rest r0))) as Hp.
    pose proof (more_arguments_read_back rest r0 Hrest [a]
                  (pre1 +:+ AST.toString a)) as Hw.
    rewrite at_text_close in Hw.
    rewrite <- H2 in He, Hp.
    rewrite <- (Hlast ((pre1 +:+ AST.toString a) +:+ moreArguments rest))
      by (subst pre1; by norm).
    eapply conv_call; [done | done | | exact He | exact Hw | done].
    eapply primary_not_close, Hp.
Qed.

(** ** Every well-formed tree *)

Lemma wellFormed_reads_back t :
  wellFormed t = true -> Forall readsBack (numbers t) -> primaryReadsBack t.
Proof.
  induction t as [op l r IHl IHr | op x IHx | v | name | f args IH]
    using ASTNode_nested_ind; simpl; intros Hwf Hnum.
  - apply andb_true_iff in Hwf as [Hl Hr].
    apply Forall_app in Hnum as [Hnl Hnr].
    apply binary_reads_back; auto.
  - apply andb_true_iff in Hwf as [Hop Hx].
    apply sign_reads_back; auto.
  - apply number_reads_back. exact (Forall_inv Hnum).
  - by apply variable_reads_back.
  - apply andb_true_iff in Hwf as [Hf Hargs].
    apply function_reads_back; [done|].
    induction IH as [|a args Ha _ IHargs]; [constructor|].
    simpl in Hargs, Hnum. apply andb_true_iff in Hargs as [Hwa Hwargs].
    apply Forall_app in Hnum as [Hna Hnargs].
    constructor; auto.
Qed.

(** The printed form of a well-formed tree whose numbers read back parses
    to that tree, with any fuel from some point on. *)
Lemma printed_parses t :
  wellFormed t = true -> Forall readsBack (numbers t) ->
  converges (fun n => parseText n (AST.toString t)) t.
Proof.
  intros Hwf Hnum.
  pose proof (primary_expression t (wellFormed_reads_back t Hwf Hnum) "" "" I)
    as [n0 H].
  rewrite app_empty_r, app_empty_l, at_text_eof in H.
  exists n0. intros n Hn. unfold parseText, parse.
  by rewrite new_at_text, (H n Hn).
Qed.

End RoundTrip.

(* ===================================================================== *)
(** * Re-parsing the printed form                                         *)
(* ===================================================================== *)

Module Reparse.
Import ParserFuel Printed.

(** C3, as stated, fails: the text "3.14159265" is accepted, its tree is
    printed with six significant digits as "3.14159", and that text parses
    to a leaf with another value. *)
Lemma C3_counterexample :
  parseText 6 "3.14159265" = Ok (NumberNode 0x1.921fb53c8d4f1p+1) /\
  AST.toString (NumberNode 0x1.921fb53c8d4f1p+1) = "3.14159" /\
  parseText 6 "3.14159" = Ok (NumberNode 0x1.921f9f01b866ep+1) /\
  NumberNode 0x1.921f9f01b866ep+1 <> NumberNode 0x1.921fb53c8d4f1p+1.
Proof.
  split; [vm_compute; reflexivity|].
  split; [vm_compute; reflexivity|].
  split; [vm_compute; reflexivity|].
  intros H.
  apply (f_equal (fun t => match t with
                           | NumberNode v => PrimFloat.eqb v 0x1.921fb53c8d4f1p+1
                           | _ => false
                           end)) in H.
  vm_compute in H. discriminate H.
Qed.

(** C3 (amended): for every text that the parser accepts, if each numeric
    leaf of its tree survives printing (the text printed for the value, six
    significant digits, is read by the lexer as one NUMBER token that [stod]
    converts to the same value), then parsing the printed form of the tree
    succeeds, with any fuel from some point on, and yields the same tree:
    same node kinds, operators, names and numeric values. *)
Theorem C3_printed_form_parses_back (fuel : nat) (e : string) (t : ASTNode) :
  parseText fuel e = Ok t ->
  Forall readsBack (numbers t) ->
  exists n0, forall n, n0 <= n -> parseText n (AST.toString t) = Ok t.
Proof.
  intros Hparse Hnumbers.
  assert (Hwf : wellFormed t = true).
  { exact (ParsedFacts.parseText_wellFormed fuel e t Hparse). }
  destruct (RoundTrip.printed_parses t Hwf Hnumbers) as [n0 Hn0].
  exists n0. exact Hn0.
Qed.

Lemma C3_printed_form_parses_back_witness :
  exists n0, forall n, n0 <= n ->
    parseText n "(sin(x) + ((2.5 * y) ^ -3))" =
    Ok (BinaryOpNode BinaryOpNode.ADD
          (FunctionNode "sin" [VariableNode "x"])
          (BinaryOpNode BinaryOpNode.POWER
             (BinaryOpNode BinaryOpNode.MULTIPLY (NumberNode 2.5) (VariableNode "y"))
             (UnaryOpNode UnaryOpNode.NEGATIVE (NumberNode 3)))).
Proof.
  apply (C3_printed_form_parses_back 30 "sin(x) + (2.5y)^-3"
           (BinaryOpNode BinaryOpNode.ADD
              (FunctionNode "sin" [VariableNode "x"])
              (BinaryOpNode BinaryOpNode.POWER
                 (BinaryOpNode BinaryOpNode.MULTIPLY (NumberNode 2.5) (VariableNode "y"))
                 (UnaryOpNode UnaryOpNode.NEGATIVE (NumberNode 3))))).
  - vm_compute. reflexivity.
  - repeat constructor; vm_compute; reflexivity.
Defined.

End Reparse.

(* ===================================================================== *)
(** * Implicit multiplication                                             *)
(* ===================================================================== *)

Module ImplicitMultiplication.
Import Parser ParserFuel LexSpec LexerFacts Printed TokenFacts ResFacts RoundTrip.









End ImplicitMultiplication.

(* ===================================================================== *)
(** * The token stream of the lexer                                       *)
(* ===================================================================== *)

Module LexerLaws.
Import LexSpec LexerFacts TokenFacts Printed Chars RoundTrip.

(** ** Every lexer inside its input has read a prefix of it *)

Lemma split_at inp pos :
  pos <= String.length inp ->
  exists pre s, inp = pre +:+ s /\ String.length pre = pos.
Proof.
  revert inp. induction pos as [|pos IH]; intros inp H.
  - exists "", inp. by rewrite app_empty_l.
  - destruct inp as [|c inp]; simpl in H; [lia|].
    destruct (IH inp) as (pre & s & -> & Hl); [lia|].
    exists (String c pre), s. rewrite app_String. simpl. by rewrite Hl.
Qed.

Lemma L_form lx :
  Lexer.position lx <= Lexer.length lx -> exists pre s, lx = L pre s.
Proof.
  destruct lx as [inp pos]. unfold Lexer.length. simpl. intros H.
  destruct (split_at inp pos H) as (pre & s & -> & <-). by exists pre, s.
Qed.

Lemma getNextToken_past_end lx :
  Lexer.length lx <= Lexer.position lx ->
  Lexer.getNextToken lx =
    (Token.mk TokenType.END_OF_FILE "" (Lexer.position lx), lx).
Proof.
  intros H. unfold Lexer.getNextToken, Lexer.skipWhitespace, Lexer.remaining.
  replace (Lexer.length lx - Lexer.position lx) with 0 by lia. simpl.
  apply Nat.leb_le in H. by rewrite H.
Qed.

Lemma allChars_app test u v :
  allChars test (u +:+ v) = allChars test u && allChars test v.
Proof.
  induction u as [|c u IH]; [by rewrite app_empty_l|].
  rewrite app_String. simpl. rewrite IH. by rewrite andb_assoc.
Qed.

Lemma punctuation_not_eof c : Lexer.punctuation c <> TokenType.END_OF_FILE.
Proof. unfold Lexer.punctuation. repeat case_match; done. Qed.

(** ** The shape of the next token *)

(** The next token of [s] is preceded by blanks only; its text is the slice
    of [s] that follows them. *)
Lemma lexSuffix_shape pre s tok pre' s' :
  lexSuffix pre s = (tok, (pre', s')) ->
  exists ws,
    allChars Cxx.isspace ws = true /\
    s = ws +:+ (Token.value tok +:+ s') /\
    pre' = (pre +:+ ws) +:+ Token.value tok /\
    Token.position tok = String.length (pre +:+ ws).
Proof.
  unfold lexSuffix. intros H.
  destruct (spanWhile Cxx.isspace s) as [ws s1] eqn:Ews.
  pose proof (spanWhile_all _ _ _ _ Ews) as Hws.
  apply spanWhile_app in Ews. exists ws.
  destruct s1 as [|c s2].
  { simplify_eq. simpl. by rewrite !app_empty_r. }
  destruct (Cxx.isdigit c || Ascii.eqb c ".").
  { destruct (spanNumber false (String c s2)) as [u r] eqn:E.
    apply spanNumber_app in E. simplify_eq. simpl. by rewrite E. }
  destruct (Cxx.isalpha c || Ascii.eqb c "_").
  { destruct (spanWhile Lexer.is_ident_char (String c s2)) as [u r] eqn:E.
    apply spanWhile_app in E. simplify_eq. simpl. by rewrite E. }
  simplify_eq. simpl. by rewrite app_String, app_empty_l.
Qed.

(** Only the exhausted text gives END_OF_FILE. *)
Lemma lexSuffix_eof pre s tok pre' s' :
  lexSuffix pre s = (tok, (pre', s')) ->
  Token.type tok = TokenType.END_OF_FILE ->
  s' = "" /\ tok = Token.mk TokenType.END_OF_FILE "" (String.length pre').
Proof.
  unfold lexSuffix. intros H Hty.
  destruct (spanWhile Cxx.isspace s) as [ws s1].
  destruct s1 as [|c s2]; [by simplify_eq|].
  destruct (Cxx.isdigit c || Ascii.eqb c ".").
  { destruct (spanNumber false (String c s2)). by simplify_eq. }
  destruct (Cxx.isalpha c || Ascii.eqb c "_").
  { destruct (spanWhile Lexer.is_ident_char (String c s2)) as [u r].
    simplify_eq. simpl in Hty. by destruct (Lexer.isFunction u). }
  simplify_eq. simpl in Hty. by apply punctuation_not_eof in Hty.
Qed.

(** A token other than END_OF_FILE has at least one character. *)
Lemma lexSuffix_nonempty pre s tok pre' s' :
  lexSuffix pre s = (tok, (pre', s')) ->
  Token.type tok <> TokenType.END_OF_FILE ->
  0 < String.length (Token.value tok).
Proof.
  unfold lexSuffix. intros H Hty.
  destruct (spanWhile Cxx.isspace s) as [ws s1].
  destruct s1 as [|c s2]; [by simplify_eq|].
  destruct (Cxx.isdigit c || Ascii.eqb c ".") eqn:Hd.
  { simpl in H. apply orb_true_iff in Hd as [Hd | Hd]; rewrite Hd in H.
    - destruct (spanNumber false s2). simplify_eq. simpl. lia.
    - destruct (Cxx.isdigit c); simpl in H;
        destruct (spanNumber _ s2); simplify_eq; simpl; lia. }
  destruct (Cxx.isalpha c || Ascii.eqb c "_") eqn:Ha.
  { destruct (identifier_start c Ha) as (_ & _ & Hi).
    simpl in H. rewrite Hi in H.
    destruct (spanWhile Lexer.is_ident_char s2). simplify_eq. simpl. lia. }
  simplify_eq. simpl. lia.
Qed.

Lemma get_allChars test ws r j :
  allChars test ws = true -> j < String.length ws ->
  exists c, String.get j (ws +:+ r) = Some c /\ test c = true.
Proof.
  revert j. induction ws as [|c ws IH]; intros j Hall Hj; simpl in Hj; [lia|].
  simpl in Hall. apply andb_true_iff in Hall as [Hc Hall].
  rewrite app_String. destruct j as [|j]; simpl; [eauto|].
  apply IH; [done|lia].
Qed.

(** X1.  The end of the input is absorbing: once the lexer has returned
    END_OF_FILE, whose text is empty, every further call returns the same
    token and leaves the lexer where it is. *)
Theorem end_of_input_is_absorbing (lx lx' : Lexer.t) (tok : Token.t) :
  Lexer.getNextToken lx = (tok, lx') ->
  Token.type tok = TokenType.END_OF_FILE ->
  Token.value tok = "" /\ Lexer.getNextToken lx' = (tok, lx').
Proof.
  intros H Hty.
  destruct (Nat.le_gt_cases (Lexer.length lx) (Lexer.position lx)) as [Hend | Hin].
  - rewrite getNextToken_past_end in H by done. simplify_eq.
    split; [done|]. by apply getNextToken_past_end.
  - destruct (L_form lx) as (pre & s & ->); [lia|].
    rewrite getNextToken_L in H.
    destruct (lexSuffix pre s) as [tok0 [pre' s']] eqn:E. simplify_eq.
    destruct (lexSuffix_eof _ _ _ _ _ E Hty) as [-> ->].
    split; [done|]. rewrite getNextToken_L. simpl. by rewrite app_empty_r.
Qed.

Lemma end_of_input_is_absorbing_witness :
  let lx := Lexer.mk "2 " 1 in
  let tok := Token.mk TokenType.END_OF_FILE "" 2 in
  let lx' := Lexer.mk "2 " 2 in
  Token.value tok = "" /\ Lexer.getNextToken lx' = (tok, lx').
Proof.
  exact (end_of_input_is_absorbing (Lexer.mk "2 " 1) (Lexer.mk "2 " 2)
           (Token.mk TokenType.END_OF_FILE "" 2) eq_refl eq_refl).
Defined.

(** X2.  Tokens are slices of the input: a call of [getNextToken] on a
    lexer inside its input keeps the input, skips blanks only, returns the
    text that stands at the token's position, and stops right after it,
    still inside the input. *)
Theorem token_is_a_slice_of_the_input (lx lx' : Lexer.t) (tok : Token.t) :
  Lexer.position lx <= Lexer.length lx ->
  Lexer.getNextToken lx = (tok, lx') ->
  Lexer.input lx' = Lexer.input lx /\
  Lexer.position lx <= Token.position tok /\
  (forall i, Lexer.position lx <= i < Token.position tok ->
     Cxx.isspace (Lexer.at_ lx i) = true) /\
  substring (Token.position tok) (String.length (Token.value tok))
    (Lexer.input lx) = Token.value tok /\
  Lexer.position lx' = Token.position tok + String.length (Token.value tok) /\
  Lexer.position lx' <= Lexer.length lx'.
Proof.
  intros Hin H. destruct (L_form lx Hin) as (pre & s & ->).
  rewrite getNextToken_L in H.
  destruct (lexSuffix pre s) as [tok0 [pre' s']] eqn:E. simplify_eq.
  destruct (lexSuffix_shape _ _ _ _ _ E) as (ws & Hws & -> & -> & Hpos).
  unfold Lexer.length. rewrite !L_position, !L_input, Hpos, !length_app.
  repeat apply conj.
  - by rewrite !app_assoc.
  - lia.
  - intros i Hi. unfold Lexer.at_. rewrite L_input.
    replace i with (String.length pre + (i - String.length pre)) by lia.
    rewrite get_app_r.
    destruct (get_allChars Cxx.isspace ws (Token.value tok +:+ s')
                (i - String.length pre) Hws) as (c & -> & Hc); [lia|done].
  - rewrite <- length_app, <- app_assoc, substring_app_r.
    apply substring_prefix.
  - lia.
  - lia.
Qed.

Lemma token_is_a_slice_of_the_input_witness :
  let lx := Lexer.mk "2  + x" 1 in
  let tok := Token.mk TokenType.PLUS "+" 3 in
  let lx' := Lexer.mk "2  + x" 4 in
  Lexer.input lx' = Lexer.input lx /\
  Lexer.position lx <= Token.position tok /\
  (forall i, Lexer.position lx <= i < Token.position tok ->
     Cxx.isspace (Lexer.at_ lx i) = true) /\
  substring (Token.position tok) (String.length (Token.value tok))
    (Lexer.input lx) = Token.value tok /\
  Lexer.position lx' = Token.position tok + String.length (Token.value tok) /\
  Lexer.position lx' <= Lexer.length lx'.
Proof.
  apply (token_is_a_slice_of_the_input (Lexer.mk "2  + x" 1)
           (Lexer.mk "2  + x" 4) (Token.mk TokenType.PLUS "+" 3)).
  - vm_compute. lia.
  - reflexivity.
Defined.

(** X3.  The lexer makes progress: a token other than END_OF_FILE has at
    least one character, and the call that returns it moves the position
    forward. *)
Theorem lexer_advances (lx lx' : Lexer.t) (tok : Token.t) :
  Lexer.getNextToken lx = (tok, lx') ->
  Token.type tok <> TokenType.END_OF_FILE ->
  Token.value tok <> "" /\ Lexer.position lx < Lexer.position lx'.
Proof.
  intros H Hty.
  destruct (Nat.le_gt_cases (Lexer.length lx) (Lexer.position lx)) as [Hend | Hin].
  { rewrite getNextToken_past_end in H by done. by simplify_eq. }
  destruct (L_form lx) as (pre & s & ->); [lia|].
  rewrite getNextToken_L in H.
  destruct (lexSuffix pre s) as [tok0 [pre' s']] eqn:E. simplify_eq.
  pose proof (lexSuffix_nonempty _ _ _ _ _ E Hty) as Hne.
  destruct (lexSuffix_shape _ _ _ _ _ E) as (ws & _ & _ & -> & _).
  rewrite !L_position, !length_app. split; [|lia].
  intros Hv. rewrite Hv in Hne. simpl in Hne. lia.
Qed.

Lemma lexer_advances_witness :
  let lx := Lexer.mk "2  + x" 1 in
  let tok := Token.mk TokenType.PLUS "+" 3 in
  let lx' := Lexer.mk "2  + x" 4 in
  Token.value tok <> "" /\ Lexer.position lx < Lexer.position lx'.
Proof.
  apply (lexer_advances (Lexer.mk "2  + x" 1) (Lexer.mk "2  + x" 4)
           (Token.mk TokenType.PLUS "+" 3)).
  - reflexivity.
  - discriminate.
Defined.

(** ** Identifier tokens *)

Lemma number_start_not_identifier c :
  Cxx.isdigit c || Ascii.eqb c "." = true ->
  Cxx.isalpha c || Ascii.eqb c "_" = false.
Proof. each_ascii c. Qed.

(** The tokens whose text is an identifier are the VARIABLE and FUNCTION
    tokens. *)
Lemma lexSuffix_identifier pre s tok rest :
  lexSuffix pre s = (tok, rest) ->
  isIdentifier (Token.value tok) = true <->
  Token.type tok = TokenType.VARIABLE \/ Token.type tok = TokenType.FUNCTION.
Proof.
  unfold lexSuffix. intros H.
  destruct (spanWhile Cxx.isspace s) as [ws s1].
  destruct s1 as [|c s2].
  { simplify_eq. simpl. split; [done | by intros [|]]. }
  destruct (Cxx.isdigit c || Ascii.eqb c ".") eqn:Hd.
  { assert (exists u r, spanNumber false (String c s2) = (String c u, r))
      as (u & r & E).
    { simpl. apply orb_true_iff in Hd as [Hd | Hd]; rewrite Hd.
      - destruct (spanNumber false s2); eauto.
      - destruct (Cxx.isdigit c); simpl; destruct (spanNumber _ s2); eauto. }
    rewrite E in H. simplify_eq. simpl.
    rewrite (number_start_not_identifier c Hd). simpl.
    split; [done | by intros [|]]. }
  destruct (Cxx.isalpha c || Ascii.eqb c "_") eqn:Ha.
  { destruct (identifier_start c Ha) as (_ & _ & Hi).
    destruct (spanWhile Lexer.is_ident_char (String c s2)) as [u r] eqn:E.
    apply spanWhile_all in E as Hall. simpl in E. rewrite Hi in E.
    destruct (spanWhile Lexer.is_ident_char s2) as [u' r']. simplify_eq.
    simpl. rewrite Ha. simpl in Hall. rewrite Hall.
    split; [|done]. intros _. destruct (Lexer.isFunction _); auto. }
  simplify_eq. simpl. rewrite Ha. simpl.
  destruct (punctuation_type c) as (_ & Hv & Hf).
  split; [done | by intros [|]].
Qed.

(** X4.  The lexer tells names apart by the registry alone: a token is a
    FUNCTION exactly when its text is one of the seven registered names, and
    a VARIABLE exactly when its text is any other identifier
    [[A-Za-z_][A-Za-z0-9_]*]. *)
Theorem names_are_classified_by_the_registry (lx lx' : Lexer.t) (tok : Token.t) :
  Lexer.getNextToken lx = (tok, lx') ->
  (Token.type tok = TokenType.FUNCTION <-> Token.value tok ∈ Lexer.functions) /\
  (Token.type tok = TokenType.VARIABLE <->
   isIdentifier (Token.value tok) = true /\ Token.value tok ∉ Lexer.functions).
Proof.
  intros H.
  assert (Hreg : forall u, Lexer.isFunction u = true <-> u ∈ Lexer.functions).
  { intros u. apply bool_decide_eq_true. }
  assert (Hok : tokenOk tok /\
    (isIdentifier (Token.value tok) = true <->
     Token.type tok = TokenType.VARIABLE \/ Token.type tok = TokenType.FUNCTION)).
  { destruct (Nat.le_gt_cases (Lexer.length lx) (Lexer.position lx)) as [Hend | Hin].
    - rewrite getNextToken_past_end in H by done. simplify_eq.
      split; [done|]. simpl. split; [done | by intros [|]].
    - destruct (L_form lx) as (pre & s & ->); [lia|].
      rewrite getNextToken_L in H.
      destruct (lexSuffix pre s) as [tok0 [pre' s']] eqn:E. simplify_eq.
      split; [|by eapply lexSuffix_identifier].
      pose proof (lexSuffix_tokenOk pre s) as Htok. by rewrite E in Htok. }
  destruct Hok as [Htok Hid]. unfold tokenOk, isVariableName in Htok.
  rewrite <- Hreg. split; split.
  - intros Hty. by rewrite Hty in Htok.
  - intros Hf. destruct Hid as [Hid _].
    destruct (Hid (function_names_identifiers _ Hf)) as [Hty | Hty]; [|done].
    rewrite Hty in Htok. apply andb_true_iff in Htok as [_ Hn].
    by rewrite Hf in Hn.
  - intros Hty. rewrite Hty in Htok. apply andb_true_iff in Htok as [Hi Hn].
    split; [done|]. intros Hf. by rewrite Hf in Hn.
  - intros [Hi Hn]. destruct Hid as [Hid _].
    destruct (Hid Hi) as [Hty | Hty]; [done|].
    rewrite Hty in Htok. by rewrite Htok in Hn.
Qed.

Lemma names_are_classified_by_the_registry_witness :
  let tok := Token.mk TokenType.FUNCTION "sqrt" 1 in
  (Token.type tok = TokenType.FUNCTION <-> Token.value tok ∈ Lexer.functions) /\
  (Token.type tok = TokenType.VARIABLE <->
   isIdentifier (Token.value tok) = true /\ Token.value tok ∉ Lexer.functions).
Proof.
  apply (names_are_classified_by_the_registry (Lexer.new " sqrt(")
           (Lexer.mk " sqrt(" 5) (Token.mk TokenType.FUNCTION "sqrt" 1)).
  reflexivity.
Defined.

(** ** Number tokens *)

Lemma countIf_app test u v :
  countIf test (u +:+ v) = countIf test u + countIf test v.
Proof.
  induction u as [|c u IH]; [by rewrite app_empty_l|].
  rewrite app_String. simpl. rewrite IH. lia.
Qed.

Lemma digit_class c :
  Cxx.isdigit c = true ->
  isPoint c = false /\ isExponentMark c = false /\ isNumberChar c = true.
Proof. each_ascii c. Qed.

Lemma sign_class c :
  Lexer.is_sign c = true ->
  isPoint c = false /\ isExponentMark c = false /\ isNumberChar c = true.
Proof. each_ascii c. Qed.

Lemma point_class c :
  Ascii.eqb c "." = true ->
  isPoint c = true /\ isExponentMark c = false /\ isNumberChar c = true.
Proof. each_ascii c. Qed.

Lemma mark_class c :
  Ascii.eqb c "e" || Ascii.eqb c "E" = true ->
  isPoint c = false /\ isExponentMark c = true /\ isNumberChar c = true.
Proof. each_ascii c. Qed.

(** A run of digits holds no point and no exponent mark. *)
Lemma digits_counts s u r :
  spanWhile Cxx.isdigit s = (u, r) ->
  countIf isPoint u = 0 /\ countIf isExponentMark u = 0 /\
  allChars isNumberChar u = true.
Proof.
  revert u r. induction s as [|c s IH]; intros u r H; simpl in H.
  { by simplify_eq. }
  destruct (Cxx.isdigit c) eqn:Hc; [|by simplify_eq].
  destruct (spanWhile Cxx.isdigit s) as [u' r'] eqn:E. simplify_eq.
  destruct (IH _ _ eq_refl) as (Hp & He & Hn).
  destruct (digit_class c Hc) as (Hcp & Hce & Hcn).
  simpl. by rewrite Hcp, Hce, Hcn, Hp, He, Hn.
Qed.

Lemma spanExponent_counts s u r :
  spanExponent s = (u, r) ->
  countIf isPoint u = 0 /\ countIf isExponentMark u = 0 /\
  allChars isNumberChar u = true.
Proof.
  unfold spanExponent. intros H.
  assert (Hgo : forall sign s1,
    (sign = "" \/ exists d, sign = String d "" /\ Lexer.is_sign d = true) ->
    (let '(ds, r) := spanWhile Cxx.isdigit s1 in (sign +:+ ds, r)) = (u, r) ->
    countIf isPoint u = 0 /\ countIf isExponentMark u = 0 /\
    allChars isNumberChar u = true).
  { intros sign s1 Hsign Hs.
    destruct (spanWhile Cxx.isdigit s1) as [ds r'] eqn:E. simplify_eq.
    destruct (digits_counts _ _ _ E) as (Hp & He & Hn).
    rewrite !countIf_app, allChars_app, Hp, He, Hn.
    destruct Hsign as [-> | (d & -> & Hd)]; [done|].
    destruct (sign_class d Hd) as (Hdp & Hde & Hdn).
    simpl. by rewrite Hdp, Hde, Hdn. }
  destruct s as [|d t]; [by apply (Hgo "" ""); auto|].
  destruct (Lexer.is_sign d) eqn:Hd.
  - apply (Hgo (String d "") t); eauto.
  - apply (Hgo "" (String d t)); auto.
Qed.

Lemma spanNumber_counts hasDecimal s u r :
  spanNumber hasDecimal s = (u, r) ->
  countIf isPoint u <= (if hasDecimal then 0 else 1) /\
  countIf isExponentMark u <= 1 /\
  allChars isNumberChar u = true.
Proof.
  revert hasDecimal u r.
  induction s as [|c s IH]; intros hasDecimal u r H; simpl in H.
  { simplify_eq. simpl. destruct hasDecimal; auto. }
  destruct (Cxx.isdigit c) eqn:Hc.
  { destruct (spanNumber hasDecimal s) as [u' r'] eqn:E. simplify_eq.
    destruct (IH _ _ _ E) as (Hp & He & Hn).
    destruct (digit_class c Hc) as (Hcp & Hce & Hcn).
    simpl. by rewrite Hcp, Hce, Hcn, Hn. }
  destruct (Ascii.eqb c "." && negb hasDecimal) eqn:Hpt.
  { apply andb_true_iff in Hpt as [Hpt Hd]. destruct hasDecimal; [done|].
    destruct (spanNumber true s) as [u' r'] eqn:E. simplify_eq.
    destruct (IH _ _ _ E) as (Hp & He & Hn).
    destruct (point_class c Hpt) as (Hcp & Hce & Hcn).
    simpl. rewrite Hcp, Hce, Hcn, Hn. repeat split; [lia | done]. }
  destruct (Ascii.eqb c "e" || Ascii.eqb c "E") eqn:Hm.
  { destruct (spanExponent s) as [u' r'] eqn:E. simplify_eq.
    destruct (spanExponent_counts _ _ _ E) as (Hp & He & Hn).
    destruct (mark_class c Hm) as (Hcp & Hce & Hcn).
    simpl. rewrite Hcp, Hce, Hcn, Hp, He, Hn.
    repeat split; [destruct hasDecimal; lia | lia]. }
  simplify_eq. simpl. destruct hasDecimal; auto.
Qed.

Lemma lexSuffix_number pre s tok rest :
  lexSuffix pre s = (tok, rest) ->
  Token.type tok = TokenType.NUMBER ->
  exists c s2 r,
    Cxx.isdigit c || isPoint c = true /\
    spanNumber false (String c s2) = (Token.value tok, r).
Proof.
  unfold lexSuffix. intros H Hty.
  destruct (spanWhile Cxx.isspace s) as [ws s1].
  destruct s1 as [|c s2]; [by simplify_eq|].
  destruct (Cxx.isdigit c || Ascii.eqb c ".") eqn:Hd.
  { destruct (spanNumber false (String c s2)) as [u r] eqn:E. simplify_eq.
    by exists c, s2, r. }
  destruct (Cxx.isalpha c || Ascii.eqb c "_").
  { destruct (spanWhile Lexer.is_ident_char (String c s2)) as [u r].
    simplify_eq. simpl in Hty. by destruct (Lexer.isFunction u). }
  simplify_eq. simpl in Hty. by destruct (punctuation_type c) as (Hn & _).
Qed.

(** X5.  The text of a NUMBER token starts with a digit or a point, is made
    of digits, points, exponent marks and signs only, and holds at most one
    point and at most one exponent mark. *)
Theorem number_tokens_have_one_point_at_most (lx lx' : Lexer.t) (tok : Token.t) :
  Lexer.getNextToken lx = (tok, lx') ->
  Token.type tok = TokenType.NUMBER ->
  (exists c u, Token.value tok = String c u /\ Cxx.isdigit c || isPoint c = true) /\
  allChars isNumberChar (Token.value tok) = true /\
  countIf isPoint (Token.value tok) <= 1 /\
  countIf isExponentMark (Token.value tok) <= 1.
Proof.
  intros H Hty.
  destruct (Nat.le_gt_cases (Lexer.length lx) (Lexer.position lx)) as [Hend | Hin].
  { rewrite getNextToken_past_end in H by done. by simplify_eq. }
  destruct (L_form lx) as (pre & s & ->); [lia|].
  rewrite getNextToken_L in H.
  destruct (lexSuffix pre s) as [tok0 [pre' s']] eqn:E. simplify_eq.
  destruct (lexSuffix_number _ _ _ _ E Hty) as (c & s2 & r & Hc & Hspan).
  destruct (spanNumber_counts _ _ _ _ Hspan) as (Hp & He & Hn).
  repeat apply conj; try done.
  simpl in Hspan. apply orb_true_iff in Hc as [Hc | Hc].
  - rewrite Hc in Hspan. destruct (spanNumber false s2) as [u' r'].
    simplify_eq. exists c, u'. by rewrite Hc.
  - unfold isPoint in Hc. rewrite Hc in Hspan.
    destruct (Cxx.isdigit c) eqn:Hdig; simpl in Hspan;
      destruct (spanNumber _ s2) as [u' r']; simplify_eq;
      exists c, u'; unfold isPoint; by rewrite Hc, ?Hdig, ?orb_true_r.
Qed.

Lemma number_tokens_have_one_point_at_most_witness :
  let tok := Token.mk TokenType.NUMBER "1.5e-3" 0 in
  (exists c u, Token.value tok = String c u /\ Cxx.isdigit c || isPoint c = true) /\
  allChars isNumberChar (Token.value tok) = true /\
  countIf isPoint (Token.value tok) <= 1 /\
  countIf isExponentMark (Token.value tok) <= 1.
Proof.
  apply (number_tokens_have_one_point_at_most (Lexer.new "1.5e-3.2")
           (Lexer.mk "1.5e-3.2" 6) (Token.mk TokenType.NUMBER "1.5e-3" 0)).
  - reflexivity.
  - reflexivity.
Defined.

(** ** Tokens are maximal *)

Lemma spanWhile_rest test s u r :
  spanWhile test s = (u, r) ->
  match r with String c _ => test c = false | EmptyString => True end.
Proof.
  revert u r. induction s as [|c s IH]; intros u r H; simpl in H.
  { by simplify_eq. }
  destruct (test c) eqn:Hc; [|by simplify_eq].
  destruct (spanWhile test s) as [u' r'] eqn:E. simplify_eq.
  exact (IH _ _ eq_refl).
Qed.

Lemma spanExponent_rest s u r :
  spanExponent s = (u, r) ->
  match r with String c _ => Cxx.isdigit c = false | EmptyString => True end.
Proof.
  unfold spanExponent. intros H.
  destruct s as [|d t].
  - simpl in H. by simplify_eq.
  - destruct (Lexer.is_sign d).
    + destruct (spanWhile Cxx.isdigit t) as [ds r'] eqn:E. simplify_eq.
      by eapply spanWhile_rest.
    + destruct (spanWhile Cxx.isdigit (String d t)) as [ds r'] eqn:E.
      simplify_eq. by eapply spanWhile_rest.
Qed.

Lemma spanNumber_rest hasDecimal s u r :
  spanNumber hasDecimal s = (u, r) ->
  match r with String c _ => Cxx.isdigit c = false | EmptyString => True end.
Proof.
  revert hasDecimal u r.
  induction s as [|c s IH]; intros hasDecimal u r H; simpl in H.
  { by simplify_eq. }
  destruct (Cxx.isdigit c) eqn:Hc.
  { destruct (spanNumber hasDecimal s) as [u' r'] eqn:E. simplify_eq.
    exact (IH _ _ _ E). }
  destruct (Ascii.eqb c "." && negb hasDecimal).
  { destruct (spanNumber true s) as [u' r'] eqn:E. simplify_eq.
    exact (IH _ _ _ E). }
  destruct (Ascii.eqb c "e" || Ascii.eqb c "E").
  { destruct (spanExponent s) as [u' r'] eqn:E. simplify_eq.
    by eapply spanExponent_rest. }
  by simplify_eq.
Qed.

Lemma lexSuffix_maximal pre s tok pre' s' :
  lexSuffix pre s = (tok, (pre', s')) ->
  match s' with
  | String c _ =>
      (Token.type tok = TokenType.NUMBER -> Cxx.isdigit c = false) /\
      (Token.type tok = TokenType.VARIABLE \/ Token.type tok = TokenType.FUNCTION ->
       Lexer.is_ident_char c = false)
  | EmptyString => True
  end.
Proof.
  unfold lexSuffix. intros H.
  destruct (spanWhile Cxx.isspace s) as [ws s1].
  destruct s1 as [|c s2]; [by simplify_eq|].
  destruct (Cxx.isdigit c || Ascii.eqb c ".").
  { destruct (spanNumber false (String c s2)) as [u r] eqn:E. simplify_eq.
    apply spanNumber_rest in E. destruct s'; [done|].
    split; [done | by intros [|]]. }
  destruct (Cxx.isalpha c || Ascii.eqb c "_").
  { destruct (spanWhile Lexer.is_ident_char (String c s2)) as [u r] eqn:E.
    simplify_eq. apply spanWhile_rest in E. destruct s'; [done|].
    split; [|done]. simpl. by destruct (Lexer.isFunction u). }
  simplify_eq. destruct s'; [done|]. simpl.
  destruct (punctuation_type c) as (Hn & Hv & Hf).
  split; [done | by intros [|]].
Qed.

(** X6.  Tokens are maximal: the character that follows a name is no
    letter, digit or underscore, and the character that follows a number is
    no digit. *)
Theorem tokens_are_maximal (lx lx' : Lexer.t) (tok : Token.t) :
  Lexer.getNextToken lx = (tok, lx') ->
  Lexer.position lx' < Lexer.length lx' ->
  (Token.type tok = TokenType.NUMBER -> Cxx.isdigit (Lexer.current lx') = false) /\
  (Token.type tok = TokenType.VARIABLE \/ Token.type tok = TokenType.FUNCTION ->
   Lexer.is_ident_char (Lexer.current lx') = false).
Proof.
  intros H Hmore.
  destruct (Nat.le_gt_cases (Lexer.length lx) (Lexer.position lx)) as [Hend | Hin].
  { rewrite getNextToken_past_end in H by done. simplify_eq. lia. }
  destruct (L_form lx) as (pre & s & ->); [lia|].
  rewrite getNextToken_L in H.
  destruct (lexSuffix pre s) as [tok0 [pre' s']] eqn:E. simplify_eq.
  apply lexSuffix_maximal in E. destruct s' as [|c s'].
  - pose proof (L_end pre') as He. apply Nat.ltb_ge in He. lia.
  - by rewrite L_current.
Qed.

Lemma tokens_are_maximal_witness :
  let tok := Token.mk TokenType.NUMBER "12" 0 in
  let lx' := Lexer.mk "12ab" 2 in
  (Token.type tok = TokenType.NUMBER -> Cxx.isdigit (Lexer.current lx') = false) /\
  (Token.type tok = TokenType.VARIABLE \/ Token.type tok = TokenType.FUNCTION ->
   Lexer.is_ident_char (Lexer.current lx') = false).
Proof.
  apply (tokens_are_maximal (Lexer.new "12ab") (Lexer.mk "12ab" 2)
           (Token.mk TokenType.NUMBER "12" 0)).
  - reflexivity.
  - vm_compute. lia.
Defined.

End LexerLaws.

(* ===================================================================== *)
(** * What the parser accepts and what its trees evaluate to              *)
(* ===================================================================== *)

Module ParserLaws.
Import Parser ParserFuel LexSpec LexerFacts TokenFacts Printed Chars Reading.
Import LexerLaws ParsedFacts ResFacts RoundTrip.

(** ** Texts that cannot start an expression *)

(** The tokens at which [parsePrimary] has a case. *)
Lemma parse_at_first_token n p :
  match currentType p with
  | TokenType.NUMBER | TokenType.VARIABLE | TokenType.FUNCTION
  | TokenType.LEFT_PAREN | TokenType.PLUS | TokenType.MINUS => False
  | _ => True
  end ->
  parse (5 + n) p = Err ("Unexpected token: " +:+ Token.value (currentToken p)).
Proof.
  intros H. unfold parse.
  change (5 + n) with (S (S (S (S (S n))))).
  rewrite parseExpression_S, parseTerm_S, parseFactor_S, parsePower_S,
    parsePrimary_S.
  by destruct (currentType p).
Qed.

Lemma spanWhile_blank s :
  allChars Cxx.isspace s = true -> spanWhile Cxx.isspace s = (s, "").
Proof.
  intros H. rewrite <- (app_empty_r s) at 1. by apply spanWhile_extend.
Qed.

Lemma blank_text_rejected (fuel : nat) (s : string) :
  allChars Cxx.isspace s = true ->
  5 <= fuel ->
  parseText fuel s = Err "Unexpected token: " /\
  ExpressionParser.parse fuel s ExpressionParser.new =
    Ok (false, ExpressionParser.mk None "Unexpected token: " true).
Proof.
  intros Hs Hfuel.
  assert (H : parseText fuel s = Err "Unexpected token: ").
  { replace fuel with (5 + (fuel - 5)) by lia.
    unfold parseText. rewrite new_at_text. unfold at_text, lexSuffix.
    rewrite (spanWhile_blank s Hs). by rewrite parse_at_first_token. }
  split; [done|]. unfold ExpressionParser.parse.
  unfold parseText in H. by rewrite H.
Qed.

(** X7.  An empty or blank text is rejected: [parse] fails with the message
    "Unexpected token: " followed by the empty text of the END_OF_FILE
    token, and the facade reports it as its error. *)
Theorem blank_text_is_rejected (fuel : nat) (s : string) :
  allChars Cxx.isspace s = true ->
  5 <= fuel ->
  parseText fuel s = Err "Unexpected token: " /\
  ExpressionParser.parse fuel s ExpressionParser.new =
    Ok (false, ExpressionParser.mk None "Unexpected token: " true).
Proof. apply blank_text_rejected. Qed.

Lemma blank_text_is_rejected_witness :
  parseText 5 "  " = Err "Unexpected token: " /\
  ExpressionParser.parse 5 "  " ExpressionParser.new =
    Ok (false, ExpressionParser.mk None "Unexpected token: " true).
Proof.
  apply (blank_text_is_rejected 5 "  "); [reflexivity | lia].
Defined.

(** ** The characters of an accepted text *)

Lemma allChars_impl (f g : ascii -> bool) s :
  (forall c, f c = true -> g c = true) ->
  allChars f s = true -> allChars g s = true.
Proof.
  intros Hfg. induction s as [|c s IH]; [done|]. simpl.
  intros H. apply andb_true_iff in H as [Hc Hs]. by rewrite (Hfg c Hc), IH.
Qed.

Lemma blank_inAlphabet c : Cxx.isspace c = true -> inAlphabet c = true.
Proof. unfold inAlphabet. by intros ->. Qed.

Lemma numberChar_inAlphabet c : isNumberChar c = true -> inAlphabet c = true.
Proof. each_ascii c. Qed.

Lemma identChar_inAlphabet c : Lexer.is_ident_char c = true -> inAlphabet c = true.
Proof. unfold inAlphabet. intros ->. by rewrite !orb_true_r. Qed.

(** A token other than INVALID extends what was read with characters of the
    alphabet. *)
Lemma lexSuffix_alphabet pre s tok pre' s' :
  lexSuffix pre s = (tok, (pre', s')) ->
  Token.type tok <> TokenType.INVALID ->
  allChars inAlphabet pre = true ->
  allChars inAlphabet pre' = true.
Proof.
  unfold lexSuffix. intros H Hty Hpre.
  destruct (spanWhile Cxx.isspace s) as [ws s1] eqn:Ews.
  apply spanWhile_all in Ews.
  apply (allChars_impl _ _ _ blank_inAlphabet) in Ews.
  destruct s1 as [|c s2].
  { simplify_eq. by rewrite allChars_app, Hpre, Ews. }
  destruct (Cxx.isdigit c || Ascii.eqb c ".").
  { destruct (spanNumber false (String c s2)) as [u r] eqn:E. simplify_eq.
    destruct (spanNumber_counts _ _ _ _ E) as (_ & _ & Hu).
    apply (allChars_impl _ _ _ numberChar_inAlphabet) in Hu.
    by rewrite !allChars_app, Hpre, Ews, Hu. }
  destruct (Cxx.isalpha c || Ascii.eqb c "_").
  { destruct (spanWhile Lexer.is_ident_char (String c s2)) as [u r] eqn:E.
    simplify_eq. apply spanWhile_all in E.
    apply (allChars_impl _ _ _ identChar_inAlphabet) in E.
    by rewrite !allChars_app, Hpre, Ews, E. }
  simplify_eq. simpl in Hty.
  rewrite !allChars_app, Hpre, Ews. simpl. unfold inAlphabet.
  rewrite (bool_decide_eq_false_2 _ Hty). by rewrite !orb_true_r.
Qed.

Lemma at_text_reads pre s :
  allChars inAlphabet pre = true -> reads (pre +:+ s) (at_text pre s).
Proof.
  intros Hpre. unfold at_text.
  destruct (lexSuffix pre s) as [tok [pre' s']] eqn:E.
  exists pre', s'. unfold currentType. simpl. repeat apply conj.
  - done.
  - destruct (lexSuffix_shape _ _ _ _ _ E) as (ws & _ & -> & -> & _).
    by rewrite !app_assoc.
  - intros Hty. by eapply lexSuffix_alphabet.
  - intros Hty. by destruct (lexSuffix_eof _ _ _ _ _ E Hty).
Qed.

Lemma advance_reads inp p :
  reads inp p -> currentType p <> TokenType.INVALID -> reads inp (advance p).
Proof.
  intros (pre & s & Hl & <- & Hpre & _) Hty.
  destruct p as [lx tok]. simpl in Hl. subst lx.
  rewrite advance_L. apply at_text_reads. by apply Hpre.
Qed.

Lemma new_reads s : reads s (Parser.new s).
Proof.
  rewrite new_at_text. rewrite <- (app_empty_l s) at 1. by apply at_text_reads.
Qed.

Ltac step_reads Hp Hty :=
  apply advance_reads; [exact Hp | rewrite Hty; discriminate].

Lemma parser_reads inp n : parserReads inp n.
Proof.
  induction n as [|n (IHe & IHt & IHtw & IHf & IHfw & IHp & IHpr & IHfn & IHfnw)].
  { repeat apply conj; try red; intros; discriminate. }
  repeat apply conj.
  - intros p t p' Hp H. rewrite parseExpression_S in H. eauto.
  - intros p t p' Hp H. rewrite parseTerm_S in H.
    inv_ok H as [l p1] Hl. eapply IHtw; [|exact H]. eauto.
  - intros l p t p' Hp H. rewrite parseTerm_while_S in H.
    destruct (currentType p) eqn:Hty; simplify_eq; try done;
      cbv zeta in H; inv_ok H as [r p2] Hr;
      (eapply IHtw; [|exact H]; eapply IHf; [|exact Hr]; step_reads Hp Hty).
  - intros p t p' Hp H. rewrite parseFactor_S in H.
    inv_ok H as [l p1] Hl. eapply IHfw; [|exact H]. eauto.
  - intros l p t p' Hp H. rewrite parseFactor_while_S in H.
    destruct (continuesFactor (currentType p)); [|by simplify_eq].
    destruct (currentType p) eqn:Hty; cbv zeta beta iota in H;
      inv_ok H as [r p2] Hr;
      (eapply IHfw; [|exact H]; eapply IHp; [|exact Hr];
       first [exact Hp | step_reads Hp Hty]).
  - intros p t p' Hp H. rewrite parsePower_S in H.
    inv_ok H as [l p1] Hl. assert (Hp1 := IHpr _ _ _ Hp Hl).
    destruct (currentType p1) eqn:Hty; simplify_eq; try done.
    inv_ok H as [r p3] Hr. simplify_eq.
    eapply IHp; [|exact Hr]. step_reads Hp1 Hty.
  - intros p t p' Hp H. rewrite parsePrimary_S in H.
    destruct (currentType p) eqn:Hty; try discriminate.
    + inv_ok H as v Hv. simplify_eq. step_reads Hp Hty.
    + simplify_eq. step_reads Hp Hty.
    + cbv zeta in H. inv_ok H as [x p2] Hx. simplify_eq.
      eapply IHpr; [|exact Hx]. step_reads Hp Hty.
    + cbv zeta in H. inv_ok H as [x p2] Hx. simplify_eq.
      eapply IHpr; [|exact Hx]. step_reads Hp Hty.
    + inv_ok H as [e p2] He. inv_ok H as u Hu. simplify_eq.
      destruct u. apply expect_Ok in Hu.
      assert (Hp2 : reads inp p2).
      { eapply IHe; [|exact He]. step_reads Hp Hty. }
      step_reads Hp2 Hu.
    + eauto.
  - intros p t p' Hp Hty H. rewrite parseFunction_S in H. cbv zeta in H.
    inv_ok H as u Hu. inv_ok H as [args p3] Hargs. inv_ok H as u' Hu'.
    simplify_eq. destruct u, u'.
    apply expect_Ok in Hu. apply expect_Ok in Hu'.
    assert (Hp1 : reads inp (advance p)) by step_reads Hp Hty.
    assert (Hp2 : reads inp (advance (advance p))) by step_reads Hp1 Hu.
    assert (Hp3 : reads inp p3).
    { destruct (decide _); [by simplify_eq|].
      inv_ok Hargs as [a p4] Ha.
      eapply IHfnw; [|exact Hargs]. eauto. }
    step_reads Hp3 Hu'.
  - intros args p args' p' Hp H. rewrite parseFunction_while_S in H.
    destruct (currentType p) eqn:Hty; simplify_eq; try done.
    inv_ok H as [a p2] Ha.
    eapply IHfnw; [|exact H]. eapply IHe; [|exact Ha]. step_reads Hp Hty.
Qed.

(** X8.  The parser accepts no text with a character outside its alphabet:
    a text that parses is made of blanks, digits, points, letters,
    underscores and the eight characters [+ - * / ^ ( ) ,] only. *)
Theorem accepted_text_is_in_the_alphabet (fuel : nat) (s : string) (t : ASTNode) :
  parseText fuel s = Ok t -> allChars inAlphabet s = true.
Proof.
  unfold parseText, parse. intros H. inv_ok H as [t' p1] Ht.
  inv_ok H as u Hu. simplify_eq. destruct u. apply expect_Ok in Hu.
  destruct (parser_reads s fuel) as (IHe & _).
  destruct (IHe _ _ _ (new_reads s) Ht) as (pre & r & _ & <- & Hpre & Hend).
  rewrite (Hend Hu), app_empty_r. apply Hpre. rewrite Hu. discriminate.
Qed.

Lemma accepted_text_is_in_the_alphabet_witness :
  allChars inAlphabet "2 + x" = true.
Proof.
  apply (accepted_text_is_in_the_alphabet 10 "2 + x"
           (BinaryOpNode BinaryOpNode.ADD (NumberNode 2) (VariableNode "x"))).
  vm_compute. reflexivity.
Defined.

(** ** The run-time errors of a parsed tree *)

Lemma bind_Err {A B} (r : Res A) (k : A -> Res B) m :
  r ≫= k = Err m -> r = Err m \/ exists a, r = Ok a /\ k a = Err m.
Proof. destruct r as [a| | |]; simpl; [eauto | intros [= ->]; auto | done..]. Qed.

(** A call to a registered name fails with a domain error only. *)
Lemma evalFunction_registered M f arg m :
  Lexer.isFunction f = true ->
  AST.evalFunction M f arg = Err m ->
  m = domain_error_log \/ m = domain_error_ln \/ m = domain_error_sqrt.
Proof.
  unfold Lexer.isFunction, Lexer.functions. intros Hf H.
  apply bool_decide_eq_true in Hf.
  repeat (apply elem_of_cons in Hf as [-> | Hf];
          [unfold AST.evalFunction in H; simpl in H;
           repeat case_match; simplify_eq; auto|]).
  by apply elem_of_nil in Hf.
Qed.

Lemma wellFormed_calls_registered M t :
  wellFormed t = true ->
  forall variables f,
    AST.evaluate M t variables <> Err ("Unknown function: " +:+ f).
Proof.
  induction t as [op l r IHl IHr | op x IHx | v | name | g args IH]
    using ASTNode_nested_ind; simpl; intros Hw variables f H.
  - apply andb_true_iff in Hw as [Hl Hr].
    apply bind_Err in H as [H | (a & _ & H)]; [by eapply IHl|].
    apply bind_Err in H as [H | (b & _ & H)]; [by eapply IHr|].
    destruct op; simpl in H; repeat case_match; discriminate.
  - apply andb_true_iff in Hw as [Hop Hx].
    apply bind_Err in H as [H | (a & _ & H)]; [by eapply IHx|].
    destruct op; simpl in H; repeat case_match; discriminate.
  - discriminate.
  - destruct (variables !! name); discriminate.
  - apply andb_true_iff in Hw as [Hg Hargs].
    destruct args as [|a [|b args]]; try discriminate.
    apply bind_Err in H as [H | (v & _ & H)].
    + apply Forall_cons in IH as [IHa _]. simpl in Hargs.
      apply andb_true_iff in Hargs as [Ha _]. by eapply IHa.
    + destruct (evalFunction_registered M g v _ Hg H) as [E | [E | E]];
        discriminate.
Qed.

(** X9.  A parsed tree calls registered functions only: its unary nodes are
    signs, its variables are identifiers outside the registry, its calls go
    to the seven registered names, and its evaluation never fails with
    "Unknown function"; a name outside the registry followed by a
    parenthesis is a variable in an implicit product. *)
Theorem parsed_trees_call_registered_functions (M : Cxx.Libm) (fuel : nat)
    (s : string) (t : ASTNode) :
  parseText fuel s = Ok t ->
  wellFormed t = true /\
  forall variables f,
    AST.evaluate M t variables <> Err ("Unknown function: " +:+ f).
Proof.
  intros H. apply parseText_wellFormed in H.
  split; [done|]. by apply wellFormed_calls_registered.
Qed.

Lemma parsed_trees_call_registered_functions_witness :
  let t := BinaryOpNode BinaryOpNode.MULTIPLY (VariableNode "unknown")
             (NumberNode 5) in
  wellFormed t = true /\
  forall variables f,
    AST.evaluate example_libm t variables <> Err ("Unknown function: " +:+ f).
Proof.
  apply (parsed_trees_call_registered_functions example_libm 20 "unknown(5)").
  vm_compute. reflexivity.
Defined.

End ParserLaws.

(* ===================================================================== *)
(** * Laws of the symbolic operations                                     *)
(* ===================================================================== *)

Module SymbolicLaws.
Import SymbolicBinaryOp SymbolicUnaryOp Symbolic Sym Shapes ResFacts SymbolicFacts.

Ltac unfold_result :=
  repeat first [discriminate | progress simplify_eq | case_match | progress inv_binds].

(** ** Constants and variables *)

Lemma constant_no_variable (M : Cxx.Libm) (e : SymbolicExpression) :
  (isConstant e = true <-> vars e = ∅) /\
  (isConstant e = true ->
   forall variables, evaluate M e variables = evaluate0 M e).
Proof.
  unfold evaluate0.
  induction e as [op l r [IHl El] [IHr Er] | op x [IHx Ex] | v | name | f args IH]
    using SymbolicExpression_nested_ind; simpl.
  - rewrite andb_true_iff, IHl, IHr. split; [by rewrite empty_union_L|].
    intros [Hl Hr] variables. apply IHl in Hl. apply IHr in Hr.
    by rewrite El, Er.
  - split; [done|]. intros Hx variables. by rewrite Ex.
  - split; done.
  - split; [|done]. split; [done|]. intros H.
    assert (Hin : name ∈ (∅ : gset string)) by (rewrite <- H; set_solver).
    set_solver.
  - split.
    + induction IH as [|a args [Ha _] _ IHargs]; simpl; [done|].
      by rewrite andb_true_iff, Ha, IHargs, empty_union_L.
    + intros Hc variables. destruct args as [|a [|b args]]; try done.
      apply Forall_cons in IH as [[_ Ea] _]. simpl in Hc.
      apply andb_true_iff in Hc as [Hc _]. by rewrite Ea.
Qed.

(** X13.  [isConstant] is the test that no variable occurs, and the value of
    a constant expression does not depend on the bindings it is evaluated
    with. *)
Theorem constant_iff_no_variable (M : Cxx.Libm) (e : SymbolicExpression) :
  (isConstant e = true <-> vars e = ∅) /\
  (isConstant e = true ->
   forall variables, evaluate M e variables = evaluate0 M e).
Proof. apply constant_no_variable. Qed.

Lemma constant_iff_no_variable_witness :
  let e := Add (Lit 1) (Lit 2) in
  (isConstant e = true <-> vars e = ∅) /\
  evaluate example_libm e {[ "x" := 5%float ]} = evaluate0 example_libm e.
Proof.
  pose proof (constant_iff_no_variable example_libm (Add (Lit 1) (Lit 2)))
    as [Hiff Hval].
  split; [exact Hiff|]. apply Hval. reflexivity.
Defined.

(** X14.  Evaluation reads the bindings of the variables of the expression
    only: two maps that agree on them give the same value or the same
    error. *)
Theorem evaluate_reads_its_variables_only (M : Cxx.Libm) (e : SymbolicExpression)
    (m1 m2 : gmap string float) :
  (forall x, x ∈ vars e -> m1 !! x = m2 !! x) ->
  evaluate M e m1 = evaluate M e m2.
Proof.
  induction e as [op l r IHl IHr | op x IHx | v | name | f args IH]
    using SymbolicExpression_nested_ind; simpl; intros H.
  - rewrite IHl, IHr; [done | |]; intros x Hx; apply H; set_solver.
  - by rewrite IHx.
  - done.
  - rewrite (H name); [done | set_solver].
  - destruct args as [|a [|b args]]; try done.
    apply Forall_cons in IH as [IHa _]. rewrite IHa; [done|].
    intros x Hx. apply H. simpl. set_solver.
Qed.

Lemma evaluate_reads_its_variables_only_witness :
  evaluate example_libm (Add (Var "x") (Lit 2)) {[ "x" := 1%float; "y" := 5%float ]} =
  evaluate example_libm (Add (Var "x") (Lit 2)) {[ "x" := 1%float ]}.
Proof.
  apply (evaluate_reads_its_variables_only example_libm (Add (Var "x") (Lit 2))).
  intros x Hx. assert (x = "x") as -> by (simpl in Hx; set_solver).
  reflexivity.
Defined.

(** ** Variables of derivatives and antiderivatives *)

(** X15.  Differentiation introduces no variable: every variable of the
    derivative occurs in the expression. *)
Theorem differentiate_introduces_no_variable (M : Cxx.Libm)
    (e d : SymbolicExpression) (variable : string) :
  differentiate M e variable = Ok d -> vars d ⊆ vars e.
Proof.
  revert d.
  induction e as [op l r IHl IHr | op x IHx | v | name | f args IH]
    using SymbolicExpression_nested_ind; simpl; intros d H.
  - destruct op; repeat case_match; try discriminate; inv_binds; simplify_eq;
      simpl; rewrite ?clone_id;
      repeat match goal with
             | IH : forall d, ?t = Ok d -> _, E : ?t = Ok _ |- _ =>
                 apply IH in E
             end; set_solver.
  - inv_bind H. apply IHx in Hv.
    destruct op; simplify_eq; simpl; rewrite ?clone_id; set_solver.
  - simplify_eq. set_solver.
  - case_match; simplify_eq; set_solver.
  - destruct args as [|a [|b args]]; try discriminate.
    apply Forall_cons in IH as [IHa _]. inv_bind H. apply IHa in Hv.
    repeat case_match; simplify_eq; simpl; rewrite ?clone_id; set_solver.
Qed.

Lemma differentiate_introduces_no_variable_witness :
  vars (Add (Mul (Var "x") (Lit 0)) (Mul (Var "y") (Lit 1))) ⊆
  vars (Mul (Var "x") (Var "y")).
Proof.
  apply (differentiate_introduces_no_variable example_libm
           (Mul (Var "x") (Var "y")) _ "x").
  reflexivity.
Defined.

(** X16.  An antiderivative mentions the integration variable, so it is
    never constant, and apart from it only variables of the integrand. *)
Theorem integrate_mentions_the_variable (M : Cxx.Libm)
    (e F : SymbolicExpression) (variable : string) :
  integrate M e variable = Ok F ->
  variable ∈ vars F /\ vars F ⊆ vars e ∪ {[ variable ]} /\ isConstant F = false.
Proof.
  intros H.
  assert (H2 : variable ∈ vars F /\ vars F ⊆ vars e ∪ {[ variable ]}).
  { revert F H.
    induction e as [op l r IHl IHr | op x IHx | v | name | f args IH]
      using SymbolicExpression_nested_ind; simpl; intros F H.
    - destruct op; unfold_result;
        simpl; rewrite ?clone_id;
        repeat match goal with
               | IH : forall F, ?t = Ok F -> _, E : ?t = Ok _ |- _ =>
                   apply IH in E
               end; set_solver.
    - destruct op; unfold_result;
        simpl;
        repeat match goal with
               | IH : forall F, ?t = Ok F -> _, E : ?t = Ok _ |- _ =>
                   apply IH in E
               end; set_solver.
    - simplify_eq. simpl. set_solver.
    - case_match; simplify_eq; simpl; set_solver.
    - destruct args as [|a [|b args]]; try discriminate.
      repeat case_match; simplify_eq; simpl; set_solver. }
  destruct H2 as [Hin Hsub]. repeat split; try done.
  destruct (isConstant F) eqn:Hc; [|done].
  apply (constant_no_variable M) in Hc. set_solver.
Qed.

Lemma integrate_mentions_the_variable_witness :
  let F := Mul (Lit 3) (Div (Pow (Var "x") (Lit 2)) (Lit 2)) in
  "x" ∈ vars F /\ vars F ⊆ vars (Mul (Lit 3) (Var "x")) ∪ {[ "x" ]} /\
  isConstant F = false.
Proof.
  apply (integrate_mentions_the_variable example_libm (Mul (Lit 3) (Var "x")) _ "x").
  reflexivity.
Defined.

(** ** Constant results of [simplify] *)

Lemma signedLiteral_evaluate (M : Cxx.Libm) s :
  signedLiteral s = true ->
  exists v, forall variables, evaluate M s variables = Ok v.
Proof.
  induction s as [op l r _ _ | op x IHx | v | name | f args _]
    using SymbolicExpression_nested_ind; simpl; try done.
  - destruct op; try done. intros H. destruct (IHx H) as (v & Hv).
    exists (- v)%float. intros variables. by rewrite Hv.
  - intros _. by exists v.
Qed.

(** [simplifyBinary] rebuilds the node only when an operand is not
    constant. *)
Lemma simplifyBinary_shape (M : Cxx.Libm) op sl sr s :
  simplifyBinary M op sl sr = Ok s ->
  (exists v, s = SymbolicNumber v) \/ s = sl \/ s = sr \/
  s = SymbolicUnaryOp NEGATIVE sr \/
  (s = SymbolicBinaryOp op sl sr /\ isConstant sl && isConstant sr = false).
Proof.
  unfold simplifyBinary, num, makeSymbolicBinaryOp, makeSymbolicUnaryOp.
  intros H. destruct op;
    repeat (case_match; simplify_eq; eauto 6);
    inv_binds; simplify_eq; eauto 10.
Qed.

Lemma simplify_constant_result (M : Cxx.Libm) e s :
  simplify M e = Ok s -> isConstant s = true -> signedLiteral s = true.
Proof.
  revert s.
  induction e as [op l r IHl IHr | op x IHx | v | name | f args IH]
    using SymbolicExpression_nested_ind; intros s H Hc; simpl in H.
  - inv_ok H as sl Hl. inv_ok H as sr Hr.
    apply simplifyBinary_shape in H
      as [(v & ->) | [-> | [-> | [-> | [-> Hn]]]]]; simpl in *; eauto;
      congruence.
  - inv_ok H as so Ho.
    apply simplifyUnary_cases in H
      as [(v & ->) | [-> | [[-> ->] | [-> Hn]]]]; simpl in *; eauto;
      first [congruence | apply (IHx _ Ho); exact Hc].
  - by simplify_eq.
  - by simplify_eq.
  - inv_ok H as sargs Hargs.
    destruct (forallb isConstant sargs) eqn:Hall.
    + inv_ok H as v Hv. by simplify_eq.
    + simplify_eq. simpl in Hc. congruence.
Qed.

(** [simplify] keeps a constant expression constant. *)
Lemma simplify_keeps_constant (M : Cxx.Libm) e s :
  simplify M e = Ok s -> isConstant e = true -> isConstant s = true.
Proof.
  revert s.
  induction e as [op l r IHl IHr | op x IHx | v | name | f args IH]
    using SymbolicExpression_nested_ind; intros s H Hc; simpl in H, Hc.
  - apply andb_true_iff in Hc as [Hcl Hcr].
    inv_ok H as sl Hl. inv_ok H as sr Hr.
    specialize (IHl _ Hl Hcl). specialize (IHr _ Hr Hcr).
    apply simplifyBinary_shape in H
      as [(v & ->) | [-> | [-> | [-> | [-> Hn]]]]]; simpl; try done.
    by rewrite IHl, IHr.
  - inv_ok H as so Ho. specialize (IHx _ Ho Hc).
    apply simplifyUnary_cases in H
      as [(v & ->) | [-> | [[-> ->] | [-> Hn]]]]; simpl in *; done.
  - by simplify_eq.
  - done.
  - inv_ok H as sargs Hargs.
    assert (Hall : forallb isConstant sargs = true).
    { apply mapM_Ok_Forall2 in Hargs. clear H.
      induction Hargs as [|a b args sargs Hab _ IHargs]; [done|].
      apply Forall_cons in IH as [IHa IH]. simpl in Hc.
      apply andb_true_iff in Hc as [Hca Hcargs].
      simpl. by rewrite (IHa _ Hab Hca), (IHargs IH Hcargs). }
    rewrite Hall in H. inv_ok H as v Hv. by simplify_eq.
Qed.

(** X17.  [simplify] folds constants completely: the result for an
    expression without variables is constant, and a constant result is a
    number, possibly under negations, so that no arithmetic on constants is
    left in it and evaluating it gives a value, whatever the bindings. *)
Theorem simplify_folds_constants (M : Cxx.Libm) (e s : SymbolicExpression) :
  simplify M e = Ok s ->
  (isConstant e = true -> isConstant s = true) /\
  (isConstant s = true ->
   signedLiteral s = true /\
   exists v, forall variables, evaluate M s variables = Ok v).
Proof.
  intros H. split; [by apply (simplify_keeps_constant M)|].
  intros Hc. pose proof (simplify_constant_result M e s H Hc) as Hs.
  split; [done|]. by apply signedLiteral_evaluate.
Qed.

Lemma simplify_folds_constants_witness :
  let e := Add (Lit 1) (Mul (Lit 2) (Lit 3)) in
  let s := Lit 7 in
  (isConstant e = true -> isConstant s = true) /\
  (isConstant s = true ->
   signedLiteral s = true /\
   exists v, forall variables, evaluate example_libm s variables = Ok v).
Proof.
  apply (simplify_folds_constants example_libm
           (Add (Lit 1) (Mul (Lit 2) (Lit 3))) (Lit 7)).
  vm_compute. reflexivity.
Defined.

(** ** Expressions on which [simplify] returns *)

Lemma simplifyBinary_total (M : Cxx.Libm) op sl sr :
  op <> DIVIDE ->
  (isConstant sl = true -> exists a, evaluate0 M sl = Ok a) ->
  (isConstant sr = true -> exists b, evaluate0 M sr = Ok b) ->
  exists s, simplifyBinary M op sl sr = Ok s.
Proof.
  intros Hop Hl Hr. unfold simplifyBinary.
  destruct (isConstant sl) eqn:Hcl, (isConstant sr) eqn:Hcr; simpl;
    try (destruct op; try done; repeat case_match; eauto; fail).
  destruct (Hl eq_refl) as (a & ->), (Hr eq_refl) as (b & ->).
  destruct op; try done; repeat case_match; simpl; eauto.
Qed.

(** X20.  [simplify] returns on every expression built from numbers,
    variables, [+], [-], [*], [^] and the unary plus: it throws only at a
    division, a negation, another unary operation or a call. *)
Theorem simplify_returns_on_polynomials (M : Cxx.Libm) (e : SymbolicExpression) :
  polynomialForm e = true -> exists s, simplify M e = Ok s.
Proof.
  induction e as [op l r IHl IHr | op x IHx | v | name | f args _]
    using SymbolicExpression_nested_ind; simpl; intros H; eauto; try done.
  - apply andb_true_iff in H as [H Hr]. apply andb_true_iff in H as [Hop Hl].
    destruct (IHl Hl) as (sl & El), (IHr Hr) as (sr & Er).
    rewrite El, Er. simpl.
    apply simplifyBinary_total.
    + intros ->. done.
    + intros Hc. destruct (signedLiteral_evaluate M sl) as (a & Ha);
        [by eapply simplify_constant_result|]. exists a. apply Ha.
    + intros Hc. destruct (signedLiteral_evaluate M sr) as (b & Hb);
        [by eapply simplify_constant_result|]. exists b. apply Hb.
  - apply andb_true_iff in H as [Hop Hx].
    apply bool_decide_eq_true in Hop as ->.
    destruct (IHx Hx) as (so & ->). simpl. eauto.
Qed.

Lemma simplify_returns_on_polynomials_witness :
  exists s, simplify example_libm
              (Sub (Pow (Var "x") (Lit 2)) (Mul (Lit 0) (Var "y"))) = Ok s.
Proof.
  apply (simplify_returns_on_polynomials example_libm
           (Sub (Pow (Var "x") (Lit 2)) (Mul (Lit 0) (Var "y")))).
  reflexivity.
Defined.

(** ** Expressions on which [differentiate] returns *)

Lemma differentiate_domain (M : Cxx.Libm) e variable :
  isOk (differentiate M e variable) = differentiable M e.
Proof.
  induction e as [op l r IHl IHr | op x IHx | v | name | f args IH]
    using SymbolicExpression_nested_ind; simpl.
  - rewrite <- IHl, <- IHr.
    destruct op; try (by destruct (differentiate M l variable),
                            (differentiate M r variable)).
    destruct (isConstant r); [|done].
    destruct (evaluate0 M r); [|done..].
    by destruct (differentiate M l variable).
  - rewrite <- IHx. by destruct (differentiate M x variable), op.
  - done.
  - by case_match.
  - destruct args as [|a [|b args]]; try done.
    apply Forall_cons in IH as [IHa _]. rewrite <- IHa.
    destruct (differentiate M a variable); [|done..]. simpl.
    unfold derivableNames.
    repeat (case_match; [subst; reflexivity|]).
    symmetry. apply bool_decide_eq_false. set_solver.
Qed.

(** X21.  Whether [differentiate] throws does not depend on the variable:
    it returns for one variable exactly when it returns for any other. *)
Theorem differentiate_fails_for_every_variable (M : Cxx.Libm)
    (e : SymbolicExpression) (v w : string) :
  isOk (differentiate M e v) = isOk (differentiate M e w).
Proof. by rewrite !differentiate_domain. Qed.

Lemma elementary_differentiable (M : Cxx.Libm) e :
  elementary e = true -> differentiable M e = true.
Proof.
  induction e as [op l r IHl IHr | op x IHx | v | name | f args IH]
    using SymbolicExpression_nested_ind; simpl; intros H; try done.
  - apply andb_true_iff in H as [Hl Hr]. rewrite (IHl Hl).
    destruct op; rewrite ?andb_true_l; auto.
    by destruct r.
  - apply andb_true_iff in H as [Hop Hx]. by rewrite (IHx Hx), Hop.
  - apply andb_true_iff in H as [Hf Ha].
    destruct args as [|a [|b args]]; try done.
    apply Forall_cons in IH as [IHa _]. by rewrite (IHa Ha), Hf.
Qed.

(** X22.  [differentiate] returns on every expression built from numbers,
    variables, the four operations, powers with a number as exponent, the
    unary operations other than log and abs, and one-argument calls to sin,
    cos and ln. *)
Theorem differentiate_returns_on_elementary (M : Cxx.Libm)
    (e : SymbolicExpression) (variable : string) :
  elementary e = true -> exists d, differentiate M e variable = Ok d.
Proof.
  intros H. apply (elementary_differentiable M) in H.
  rewrite <- (differentiate_domain M e variable) in H.
  destruct (differentiate M e variable); [eauto | done..].
Qed.

Lemma differentiate_returns_on_elementary_witness :
  exists d, differentiate example_libm
              (Div (SymbolicFunction "sin" [Var "x"]) (Pow (Var "x") (Lit 3))) "x"
            = Ok d.
Proof.
  apply (differentiate_returns_on_elementary example_libm
           (Div (SymbolicFunction "sin" [Var "x"]) (Pow (Var "x") (Lit 3))) "x").
  reflexivity.
Defined.

(** ** The equation solver *)

(** X24.  What [solve] returns is never a value: it is a quotient with a
    constant numerator and a denominator in which a variable occurs, and it
    is the same whatever the variable asked for. *)
Theorem solve_returns_no_value (M : Cxx.Libm) (self : SymbolicEngine.t)
    (variable : string) (result : SymbolicExpression) :
  SymbolicEngine.solve M self variable = Ok result ->
  (exists numerator denominator,
     result = Div numerator denominator /\
     isConstant numerator = true /\ isConstant denominator = false) /\
  isConstant result = false /\
  forall other, SymbolicEngine.solve M self other = Ok result.
Proof.
  unfold SymbolicEngine.solve, SymbolicEngine.solve_try. intros H.
  destruct (SymbolicEngine.expression self) as [e|]; [|done].
  destruct (simplify M e) as [s| | |] eqn:Hs; simpl in H; try done.
  assert (Hshape : exists op l r, s = SymbolicBinaryOp op l r /\
            isConstant l = true /\
            (result = Div (Neg l) r \/ result = Div l r)).
  { destruct s as [op l r| | | |]; try done.
    rewrite !clone_id in H. exists op, l, r.
    destruct op; try done; destruct (isConstant l); try done;
      simpl in H; simplify_eq; auto. }
  destruct Hshape as (op & l & r & -> & Hl & Hres).
  assert (Hr : isConstant r = false).
  { destruct (isConstant r) eqn:Hr; [|done].
    assert (Hc : isConstant (SymbolicBinaryOp op l r) = true)
      by (simpl; by rewrite Hl, Hr).
    by apply (simplify_constant_result M e _ Hs) in Hc. }
  assert (Hquot : exists numerator denominator,
            result = Div numerator denominator /\
            isConstant numerator = true /\ isConstant denominator = false).
  { destruct Hres as [-> | ->]; eauto. }
  split; [done|]. split; [|done].
  destruct Hquot as (n & d & -> & Hn & Hd). simpl. by rewrite Hn, Hd.
Qed.

Lemma solve_returns_no_value_witness :
  let result := Div (Neg (Lit 3)) (Mul (Lit 2) (Var "x")) in
  (exists numerator denominator,
     result = Div numerator denominator /\
     isConstant numerator = true /\ isConstant denominator = false) /\
  isConstant result = false /\
  forall other,
    SymbolicEngine.solve example_libm
      (SymbolicEngine.mk (Some (Add (Lit 3) (Mul (Lit 2) (Var "x"))))) other
    = Ok result.
Proof.
  apply (solve_returns_no_value example_libm
           (SymbolicEngine.mk (Some (Add (Lit 3) (Mul (Lit 2) (Var "x"))))) "x").
  vm_compute. reflexivity.
Defined.

(** ** Expressions on which [integrate] returns *)

Lemma isVariable_toString variable e :
  isVariable variable e = true -> toString e = variable.
Proof. destruct e; try done. simpl. by intros ->%bool_decide_eq_true. Qed.

(** X23.  [integrate] returns on every sum or difference of the integrands
    it has a rule for that returns: numbers, variables, powers of the
    integration variable with a number as exponent, a constant over the
    variable, sin and cos of the variable, products of a constant and such
    a term, and their signs.  The rule for ln of the variable, as a node or
    as a call, does not return: its behaviour is undefined. *)
Theorem integrate_returns_termwise (M : Cxx.Libm) (e : SymbolicExpression)
    (variable : string) :
  (termwise variable e = true -> exists F, integrate M e variable = Ok F) /\
  (isVariable variable e = true ->
     integrate M (SymbolicUnaryOp LN e) variable = Undefined /\
     integrate M (SymbolicFunction "ln" [e]) variable = Undefined).
Proof.
  split.
  2: { intros H. simpl. rewrite (isVariable_toString _ _ H).
       rewrite decide_True, bool_decide_eq_true_2 by done.
       by simpl. }
  induction e as [op l r IHl IHr | op x IHx | v | name | f args _]
    using SymbolicExpression_nested_ind; simpl; intros H.
  - destruct op.
    + apply andb_true_iff in H as [Hl Hr].
      destruct (IHl Hl) as (Fl & ->), (IHr Hr) as (Fr & ->). simpl. eauto.
    + apply andb_true_iff in H as [Hl Hr].
      destruct (IHl Hl) as (Fl & ->), (IHr Hr) as (Fr & ->). simpl. eauto.
    + destruct (isConstant l), (isConstant r); simpl in *; try done.
      * rewrite orb_false_r in H. destruct (IHr H) as (Fr & ->). simpl. eauto.
      * destruct (IHl H) as (Fl & ->). simpl. eauto.
    + apply andb_true_iff in H as [Hl Hr]. rewrite Hl.
      rewrite (isVariable_toString _ _ Hr), bool_decide_eq_true_2 by done.
      simpl. eauto.
    + apply andb_true_iff in H as [Hl Hr].
      rewrite (isVariable_toString _ _ Hl), bool_decide_eq_true_2 by done.
      destruct r; try done. simpl. destruct (_ =? _)%float; simpl; eauto.
  - destruct op; try done; eauto.
    + destruct (IHx H) as (F & ->). simpl. eauto.
    + rewrite (isVariable_toString _ _ H). rewrite decide_True by done. eauto.
    + rewrite (isVariable_toString _ _ H). rewrite decide_True by done. eauto.
  - eauto.
  - case_match; eauto.
  - apply andb_true_iff in H as [Hf Ha].
    destruct args as [|a [|b args]]; try done.
    rewrite (isVariable_toString _ _ Ha), (bool_decide_eq_true_2 (variable = variable)) by done.
    rewrite !andb_true_r.
    apply bool_decide_eq_true in Hf. unfold integrableNames in Hf.
    repeat (apply elem_of_cons in Hf as [-> | Hf]; [simpl; eauto|]).
    by apply elem_of_nil in Hf.
Qed.

Lemma integrate_returns_termwise_witness :
  (exists F, integrate example_libm
               (Add (Mul (Lit 3) (Pow (Var "x") (Lit 2)))
                    (Neg (SymbolicFunction "sin" [Var "x"]))) "x" = Ok F) /\
  integrate example_libm (SymbolicUnaryOp LN (Var "x")) "x" = Undefined /\
  integrate example_libm (SymbolicFunction "ln" [Var "x"]) "x" = Undefined.
Proof.
  split.
  - apply (integrate_returns_termwise example_libm
             (Add (Mul (Lit 3) (Pow (Var "x") (Lit 2)))
                  (Neg (SymbolicFunction "sin" [Var "x"]))) "x").
    reflexivity.
  - apply (integrate_returns_termwise example_libm (Var "x") "x").
    reflexivity.
Defined.

(** ** The size of a simplified expression *)

(** X18.  [simplify] never makes an expression bigger: its result has at
    most as many nodes as the expression. *)
Theorem simplify_does_not_grow (M : Cxx.Libm) (e s : SymbolicExpression) :
  simplify M e = Ok s -> size s <= size e.
Proof. apply simplify_size. Qed.

Lemma simplify_does_not_grow_witness :
  size (Var "x") <= size (Add (Mul (Var "x") (Lit 1)) (Lit 0)).
Proof.
  apply (simplify_does_not_grow example_libm
           (Add (Mul (Var "x") (Lit 1)) (Lit 0)) (Var "x")).
  vm_compute. reflexivity.
Defined.

(** ** The derivative with respect to an absent variable *)

Lemma simplify_product_zero (M : Cxx.Libm) a b s z :
  simplify M (SymbolicBinaryOp MULTIPLY a b) = Ok s ->
  (simplify M a = Ok z \/ simplify M b = Ok z) -> isZero z = true ->
  s = SymbolicNumber 0.
Proof.
  simpl. intros H Hz Hzero. inv_ok H as sa Ha. inv_ok H as sb Hb.
  unfold simplifyBinary in H.
  assert (Hor : isZero sa || isZero sb = true).
  { destruct Hz as [Hz | Hz].
    - assert (sa = z) as -> by congruence. by rewrite Hzero.
    - assert (sb = z) as -> by congruence. by rewrite Hzero, orb_true_r. }
  rewrite Hor in H. by simplify_eq.
Qed.

Lemma derivative_of_absent_variable (M : Cxx.Libm) e variable :
  variable ∉ vars e ->
  forall d s, differentiate M e variable = Ok d -> simplify M d = Ok s ->
  isZero s = true.
Proof.
  induction e as [op l r IHl IHr | op x IHx | v | name | f args IH]
    using SymbolicExpression_nested_ind; simpl; intros Hv d s Hd Hs.
  - assert (Hvl : variable ∉ vars l) by set_solver.
    assert (Hvr : variable ∉ vars r) by set_solver.
    specialize (IHl Hvl). specialize (IHr Hvr).
    destruct op.
    + inv_ok Hd as dl Hdl. inv_ok Hd as dr Hdr. simplify_eq.
      simpl in Hs. inv_ok Hs as sl Hsl. inv_ok Hs as sr Hsr.
      pose proof (IHl _ _ Hdl Hsl) as Zl. pose proof (IHr _ _ Hdr Hsr) as Zr.
      unfold simplifyBinary in Hs. rewrite Zl in Hs. by simplify_eq.
    + inv_ok Hd as dl Hdl. inv_ok Hd as dr Hdr. simplify_eq.
      simpl in Hs. inv_ok Hs as sl Hsl. inv_ok Hs as sr Hsr.
      pose proof (IHl _ _ Hdl Hsl) as Zl. pose proof (IHr _ _ Hdr Hsr) as Zr.
      unfold simplifyBinary in Hs. rewrite Zr in Hs. by simplify_eq.
    + inv_ok Hd as dl Hdl. inv_ok Hd as dr Hdr. simplify_eq.
      unfold makeSymbolicBinaryOp in Hs.
      change (simplify M (SymbolicBinaryOp ADD ?a ?b))
        with (sa ← simplify M a; sb ← simplify M b; simplifyBinary M ADD sa sb)
        in Hs.
      inv_ok Hs as s1 H1. inv_ok Hs as s2 H2.
      assert (s1 = SymbolicNumber 0) as ->.
      { pose proof H1 as H1'. simpl in H1'.
        inv_ok H1' as sa Ha. inv_ok H1' as sb Hb.
        eapply simplify_product_zero; [exact H1 | right; exact Hb | eauto]. }
      assert (s2 = SymbolicNumber 0) as ->.
      { pose proof H2 as H2'. simpl in H2'.
        inv_ok H2' as sa Ha. inv_ok H2' as sb Hb.
        eapply simplify_product_zero; [exact H2 | right; exact Hb | eauto]. }
      by vm_compute in Hs; simplify_eq.
    + inv_ok Hd as dl Hdl. inv_ok Hd as dr Hdr. simplify_eq.
      unfold makeSymbolicBinaryOp in Hs.
      change (simplify M (SymbolicBinaryOp DIVIDE ?a ?b))
        with (sa ← simplify M a; sb ← simplify M b; simplifyBinary M DIVIDE sa sb)
        in Hs.
      inv_ok Hs as sn Hn. inv_ok Hs as sd Hsd.
      assert (sn = SymbolicNumber 0) as ->.
      { change (simplify M (SymbolicBinaryOp SUBTRACT ?a ?b))
          with (sa ← simplify M a; sb ← simplify M b;
                simplifyBinary M SUBTRACT sa sb) in Hn.
        inv_ok Hn as s1 H1. inv_ok Hn as s2 H2.
        assert (s1 = SymbolicNumber 0) as ->.
        { pose proof H1 as H1'. simpl in H1'.
          inv_ok H1' as sa Ha. inv_ok H1' as sb Hb.
          eapply simplify_product_zero; [exact H1 | right; exact Hb | eauto]. }
        assert (s2 = SymbolicNumber 0) as ->.
        { pose proof H2 as H2'. simpl in H2'.
          inv_ok H2' as sa Ha. inv_ok H2' as sb Hb.
          eapply simplify_product_zero; [exact H2 | right; exact Hb | eauto]. }
        by vm_compute in Hn; simplify_eq. }
      unfold simplifyBinary in Hs.
      destruct (isZero sd); [done|].
      replace (isZero (SymbolicNumber 0)) with true in Hs by reflexivity.
      by simplify_eq.
    + destruct (isConstant r); [|done].
      inv_ok Hd as n Hn. inv_ok Hd as dl Hdl. simplify_eq.
      unfold makeSymbolicBinaryOp, num in Hs.
      pose proof Hs as Hs'. simpl in Hs'.
      inv_ok Hs' as sp Hp. inv_ok Hs' as sq Hq.
      assert (sq = SymbolicNumber 0) as Eq.
      { assert (Hq' : simplify M (SymbolicBinaryOp MULTIPLY (SymbolicNumber n) dl)
                      = Ok sq).
        { simpl. exact Hq. }
        pose proof Hq as Hq2. inv_ok Hq2 as sdl Hsdl.
        eapply simplify_product_zero; [exact Hq' | right; exact Hsdl | eauto]. }
      eapply (simplify_product_zero M _ _ s sq) in Hs as ->;
        [done | right; exact Hq | by rewrite Eq].
  - specialize (IHx Hv). inv_ok Hd as dx Hdx.
    unfold makeSymbolicBinaryOp, makeSymbolicUnaryOp, num in Hd.
    destruct op; simplify_eq;
      try (pose proof Hs as Hs'; simpl in Hs';
           inv_ok Hs' as sa Ha; inv_ok Hs' as sb Hb;
           eapply (simplify_product_zero M _ _ s sb) in Hs as ->;
           [done | right; exact Hb | eauto]; fail).
    + eauto.
    + simpl in Hs. inv_ok Hs as so Ho. pose proof (IHx _ _ Hdx Ho) as Z.
      unfold simplifyUnary in Hs. rewrite Z in Hs. by simplify_eq.
  - simplify_eq. simpl in Hs. by simplify_eq.
  - destruct (decide (name = variable)) as [-> | _]; [set_solver|].
    simplify_eq. simpl in Hs. by simplify_eq.
  - destruct args as [|a [|b args]]; try done.
    apply Forall_cons in IH as [IHa _].
    assert (Hva : variable ∉ vars a) by (simpl in Hv; set_solver).
    specialize (IHa Hva). inv_ok Hd as da Hda.
    unfold makeSymbolicBinaryOp, makeSymbolicUnaryOp, num in Hd.
    repeat case_match; simplify_eq;
      (pose proof Hs as Hs'; simpl in Hs';
       inv_ok Hs' as sa Ha; inv_ok Hs' as sb Hb;
       eapply (simplify_product_zero M _ _ s sb) in Hs as ->;
       [done | right; exact Hb | eauto]).
Qed.

(** X19.  The derivative with respect to a variable that does not occur in
    the expression simplifies to zero: whenever [differentiate] and then
    [simplify] return, the result is a zero of [isZero]. *)
Theorem derivative_of_absent_variable_is_zero (M : Cxx.Libm)
    (e d s : SymbolicExpression) (variable : string) :
  variable ∉ vars e ->
  differentiate M e variable = Ok d ->
  simplify M d = Ok s ->
  isZero s = true.
Proof. intros Hv Hd Hs. by eapply derivative_of_absent_variable. Qed.

Lemma derivative_of_absent_variable_is_zero_witness :
  isZero (Lit 0) = true.
Proof.
  apply (derivative_of_absent_variable_is_zero example_libm
           (Mul (Var "y") (Pow (Var "z") (Lit 2)))
           (Add (Mul (Var "y") (Mul (Pow (Var "z") (Lit (2 - 1)%float))
                                     (Mul (Lit 2) (Lit 0))))
                (Mul (Pow (Var "z") (Lit 2)) (Lit 0)))
           (Lit 0) "x").
  - simpl. set_solver.
  - reflexivity.
  - vm_compute. reflexivity.
Defined.

End SymbolicLaws.

(* ===================================================================== *)
(** * From the parsed tree to the symbolic expression                     *)
(* ===================================================================== *)

Module ConversionLaws.
Import SymbolicBinaryOp SymbolicUnaryOp Shapes LexerFacts RoundTrip.

(** X25.  The conversion of a parsed tree to a symbolic expression keeps
    its value: under any bindings both evaluate to the same number or throw
    the same error. *)
Theorem conversion_preserves_evaluation (M : Cxx.Libm) (t : ASTNode)
    (variables : gmap string float) :
  Symbolic.evaluate M (SymbolicEngine.convertASTToSymbolic t) variables =
  AST.evaluate M t variables.
Proof.
  induction t as [op l r IHl IHr | op x IHx | v | name | f args IH]
    using ASTNode_nested_ind; simpl.
  - rewrite IHl, IHr. by destruct op.
  - rewrite IHx. by destruct op.
  - done.
  - done.
  - destruct args as [|a [|b args]]; try done.
    apply Forall_cons in IH as [IHa _]. simpl. by rewrite IHa.
Qed.

Lemma convert_number t :
  (if SymbolicEngine.convertASTToSymbolic t is SymbolicNumber _ then true else false) =
  (if t is NumberNode _ then true else false).
Proof. by destruct t. Qed.

(** X26.  The two printers agree on a tree none of whose products has a
    number as an operand: the symbolic expression prints as the parsed
    tree does. *)
Theorem conversion_preserves_printing (t : ASTNode) :
  literalFactorFree t = true ->
  Symbolic.toString (SymbolicEngine.convertASTToSymbolic t) = AST.toString t.
Proof.
  induction t as [op l r IHl IHr | op x IHx | v | name | f args IH]
    using ASTNode_nested_ind; simpl; intros H.
  - apply andb_true_iff in H as [H Hop]. apply andb_true_iff in H as [Hl Hr].
    rewrite <- (IHl Hl), <- (IHr Hr).
    destruct op; try done. simpl.
    pose proof (convert_number l) as Nl. pose proof (convert_number r) as Nr.
    destruct l; try done; destruct r; try done;
      destruct (SymbolicEngine.convertASTToSymbolic _); try done;
      destruct (SymbolicEngine.convertASTToSymbolic _); try done;
      repeat case_match; done.
  - rewrite <- (IHx H). destruct op; simpl; by rewrite ?app_empty_r.
  - done.
  - done.
  - do 4 f_equal. rewrite map_map.
    induction IH as [|a args Ha _ IHargs]; [done|].
    simpl in H. apply andb_true_iff in H as [Hwa Hargs].
    simpl. by rewrite (Ha Hwa), (IHargs Hargs).
Qed.

Lemma conversion_preserves_printing_witness :
  let t := BinaryOpNode BinaryOpNode.MULTIPLY (VariableNode "x")
             (BinaryOpNode BinaryOpNode.ADD (NumberNode 2) (VariableNode "y")) in
  Symbolic.toString (SymbolicEngine.convertASTToSymbolic t) = AST.toString t.
Proof.
  apply (conversion_preserves_printing
           (BinaryOpNode BinaryOpNode.MULTIPLY (VariableNode "x")
              (BinaryOpNode BinaryOpNode.ADD (NumberNode 2) (VariableNode "y")))).
  reflexivity.
Defined.

End ConversionLaws.

(* ===================================================================== *)
(** * The console grapher                                                 *)
(* ===================================================================== *)

Module GrapherLaws.
Import ConsoleGrapher Display ResFacts RoundTrip SymbolicFacts.

(** ** Resizing a vector *)

Lemma vector_resize_Ok {A} (n : Z) (fill : A) v v' :
  vector_resize n fill v = Ok v' ->
  List.length v' = Z.to_nat n /\
  forall i, i < Z.to_nat n -> v' !! i = Some (default fill (v !! i)).
Proof.
  unfold vector_resize. destruct (n <? 0)%Z; [done|]. intros [= <-]. split.
  - rewrite length_app, length_take, length_replicate. lia.
  - intros i Hi. destruct (decide (i < List.length v)) as [Hlt | Hge].
    + rewrite lookup_app_l by (rewrite length_take; lia).
      rewrite lookup_take_lt by lia.
      destruct (lookup_lt_is_Some_2 v i Hlt) as [a ->]. done.
    + rewrite lookup_app_r by (rewrite length_take; lia).
      rewrite (lookup_ge_None_2 v i) by lia. simpl.
      apply lookup_replicate_2. rewrite length_take. lia.
Qed.

(** ** The loop over the rows *)

Lemma resizeRows_mapM (width : Z) (rows : list (list ascii)) :
  (resizeRows width rows).2 ≫= (λ _, Ok (resizeRows width rows).1) =
  mapM (vector_resize width " "%char) rows.
Proof.
  induction rows as [|row rows IH]; [done|]. simpl.
  destruct (vector_resize width " "%char row) as [row'| | |]; try done.
  destruct (resizeRows width rows) as [resized r]. simpl in *.
  rewrite <- IH. by destruct r.
Qed.

(** A call of [clearBuffer] that returns resizes the buffer, then each row. *)
Lemma clearBuffer_returns self :
  clearBuffer self =
  rows ← vector_resize (PlotSettings.height (settings self)) [] (displayBuffer self);
  rows' ← mapM (vector_resize (PlotSettings.width (settings self)) " "%char) rows;
  Ok (ConsoleGrapher.mk (settings self) (functions self) rows').
Proof.
  unfold clearBuffer, clearBuffer_call.
  destruct (vector_resize _ _ (displayBuffer self)) as [rows| | |]; try done.
  simpl. rewrite <- resizeRows_mapM.
  destruct (resizeRows _ rows) as [resized r]. by destruct r.
Qed.

(** A call of [clearBuffer] leaves the settings and the functions, also
    when it throws. *)
Lemma clearBuffer_call_keeps self :
  settings (clearBuffer_call self).1 = settings self /\
  functions (clearBuffer_call self).1 = functions self.
Proof.
  unfold clearBuffer_call.
  destruct (vector_resize _ _ (displayBuffer self)) as [rows| | |]; try done.
  by destruct (resizeRows _ rows).
Qed.

Lemma clearBuffer_Ok self self' :
  clearBuffer self = Ok self' ->
  settings self' = settings self /\ functions self' = functions self /\
  exists rows,
    vector_resize (PlotSettings.height (settings self)) [] (displayBuffer self)
      = Ok rows /\
    Forall2 (fun row row' =>
               vector_resize (PlotSettings.width (settings self)) " "%char row
                 = Ok row') rows (displayBuffer self').
Proof.
  rewrite clearBuffer_returns. intros H.
  inv_ok H as rows Hrows. inv_ok H as rows' Hrows'.
  simplify_eq. simpl. repeat split. exists rows. split; [done|].
  by apply mapM_Ok_Forall2.
Qed.

Lemma clearBuffer_consistent self self' :
  clearBuffer self = Ok self' ->
  Forall hasTree (functions self) -> consistent self'.
Proof.
  intros H Hf.
  destruct (clearBuffer_Ok _ _ H) as (Hs & Hfs & rows & Hrows & Hrows').
  destruct (vector_resize_Ok _ _ _ _ Hrows) as [Hlen _].
  unfold consistent. rewrite Hs, Hfs. repeat split; [| |done].
  - by rewrite <- (Forall2_length _ _ _ Hrows').
  - clear Hrows Hlen. induction Hrows' as [|row row' rows0 rows1 Hrow _ IH];
      constructor; [|done].
    by destruct (vector_resize_Ok _ _ _ _ Hrow).
Qed.

(** ** The function list *)

Lemma AST_clone_id t : AST.clone t = t.
Proof.
  induction t as [op l r IHl IHr | op x IHx | v | name | f args IH]
    using ASTNode_nested_ind; simpl.
  - by rewrite IHl, IHr.
  - by rewrite IHx.
  - done.
  - done.
  - f_equal. induction IH as [|a args Ha _ IHargs]; [done|].
    simpl. by rewrite Ha, IHargs.
Qed.

(** The two parses of [addFunction] and of the constructor of the entry read
    the same text. *)
Lemma addFunction_parse (fuel : nat) (expression name : string)
    (symbol : ascii) (self : ConsoleGrapher.t) :
  addFunction fuel expression name symbol self =
  match parseText fuel expression with
  | Ok tree =>
      Ok (true,
          ConsoleGrapher.mk (settings self)
            (functions self ++ [Function.mk expression name symbol (Some tree)])
            (displayBuffer self))
  | Err _ => Ok (false, self)
  | OutOfFuel => OutOfFuel
  | Undefined => Undefined
  end.
Proof.
  unfold addFunction, Function.new, ExpressionParser.parse, parseText.
  destruct (Parser.parse fuel (Parser.new expression)) as [tree| | |]; simpl;
    [|done..].
  unfold ExpressionParser.cloneAST, Function.set_ast. simpl.
  rewrite AST_clone_id. by destruct (decide (expression = "")).
Qed.

(** X27.  [addFunction] adds a function exactly when its expression
    parses: the new entry comes last and holds the text, the name, the
    symbol and the tree of the text; when the expression does not parse,
    as an empty one does not, the grapher is left as it was and the result
    is [false]. *)
Theorem addFunction_adds_what_parses (fuel : nat) (expression name : string)
    (symbol : ascii) (self : ConsoleGrapher.t) :
  (forall tree, parseText fuel expression = Ok tree ->
     addFunction fuel expression name symbol self =
     Ok (true,
         ConsoleGrapher.mk (settings self)
           (functions self ++ [Function.mk expression name symbol (Some tree)])
           (displayBuffer self))) /\
  (forall what, parseText fuel expression = Err what ->
     addFunction fuel expression name symbol self = Ok (false, self)) /\
  (5 <= fuel -> addFunction fuel "" name symbol self = Ok (false, self)).
Proof.
  repeat split.
  - intros tree H. by rewrite addFunction_parse, H.
  - intros what H. by rewrite addFunction_parse, H.
  - intros Hfuel. rewrite addFunction_parse.
    by destruct (ParserLaws.blank_text_rejected fuel "" eq_refl Hfuel) as [-> _].
Qed.

Lemma addFunction_adds_what_parses_witness :
  let self := ConsoleGrapher.mk PlotSettings.default [] [] in
  addFunction 20 "2x" "f" "*" self =
    Ok (true,
        ConsoleGrapher.mk PlotSettings.default
          [Function.mk "2x" "f" "*"
             (Some (BinaryOpNode BinaryOpNode.MULTIPLY (NumberNode 2)
                      (VariableNode "x")))] []) /\
  addFunction 20 "2+" "g" "*" self = Ok (false, self) /\
  addFunction 20 "" "h" "*" self = Ok (false, self).
Proof.
  pose proof (addFunction_adds_what_parses 20 "2x" "f" "*"
                (ConsoleGrapher.mk PlotSettings.default [] [])) as (H1 & _ & _).
  pose proof (addFunction_adds_what_parses 20 "2+" "g" "*"
                (ConsoleGrapher.mk PlotSettings.default [] [])) as (_ & H2 & _).
  pose proof (addFunction_adds_what_parses 20 "" "h" "*"
                (ConsoleGrapher.mk PlotSettings.default [] [])) as (_ & _ & H3).
  split; [|split].
  - apply (H1 (BinaryOpNode BinaryOpNode.MULTIPLY (NumberNode 2) (VariableNode "x"))).
    vm_compute. reflexivity.
  - apply (H2 "Unexpected token: "). vm_compute. reflexivity.
  - apply H3. lia.
Defined.

(** ** The invariant of the grapher *)

Lemma vector_resize_nonneg {A} (n : Z) (fill : A) v :
  (0 <= n)%Z -> exists v', vector_resize n fill v = Ok v'.
Proof.
  intros H. unfold vector_resize.
  replace (n <? 0)%Z with false by (symmetry; apply Z.ltb_ge; lia). eauto.
Qed.

Lemma mapM_resize_isOk (width : Z) (rows : list (list ascii)) :
  isOk (mapM (vector_resize width " "%char) rows) =
  ((0 <=? width)%Z || bool_decide (rows = [])).
Proof.
  destruct (Z.ltb_spec width 0) as [Hneg | Hpos].
  - replace (0 <=? width)%Z with false by (symmetry; apply Z.leb_gt; lia).
    destruct rows as [|row rows]; [done|]. simpl. unfold vector_resize.
    by replace (width <? 0)%Z with true by (symmetry; apply Z.ltb_lt; lia).
  - replace (0 <=? width)%Z with true by (symmetry; apply Z.leb_le; lia).
    simpl. induction rows as [|row rows IH]; [done|]. simpl.
    destruct (vector_resize_nonneg width " "%char row Hpos) as [row' ->].
    simpl. by destruct (mapM _ rows).
Qed.

(** [clearBuffer] returns on the sizes that are [sized], and on no other. *)
Lemma clearBuffer_isOk self :
  isOk (clearBuffer self) =
  ((0 <=? PlotSettings.height (settings self)) &&
   ((0 <=? PlotSettings.width (settings self)) ||
    (PlotSettings.height (settings self) =? 0)))%Z.
Proof.
  rewrite clearBuffer_returns.
  set (height := PlotSettings.height (settings self)).
  set (width := PlotSettings.width (settings self)).
  destruct (vector_resize height [] (displayBuffer self)) as [rows|m| |] eqn:E.
  - destruct (vector_resize_Ok _ _ _ _ E) as [Hlen _].
    unfold vector_resize in E. destruct (Z.ltb_spec height 0); [done|].
    pose proof (mapM_resize_isOk width rows) as Hrows.
    simpl. destruct (mapM _ rows) as [rows'|m| |]; simpl in *;
      rewrite Hrows;
      (replace (0 <=? height)%Z with true by (symmetry; apply Z.leb_le; lia));
      simpl; f_equal;
      (destruct rows; simpl in Hlen;
       [replace (height =? 0)%Z with true by (symmetry; apply Z.eqb_eq; lia)
       |replace (height =? 0)%Z with false by (symmetry; apply Z.eqb_neq; lia)];
       done).
  - unfold vector_resize in E. destruct (Z.ltb_spec height 0); [|done].
    simpl. symmetry. apply andb_false_iff. left. apply Z.leb_gt. lia.
  - unfold vector_resize in E. by destruct (height <? 0)%Z.
  - unfold vector_resize in E. by destruct (height <? 0)%Z.
Qed.

Lemma sized_clearBuffer self :
  sized self -> clearBuffer self = Ok (clearBuffer_call self).1.
Proof.
  intros [Hh Hw]. pose proof (clearBuffer_isOk self) as H.
  replace ((0 <=? _) && _)%Z with true in H
    by (symmetry; apply andb_true_iff; split;
        [apply Z.leb_le; lia | apply orb_true_iff; lia]).
  unfold clearBuffer in *. destruct (clearBuffer_call self) as [self' r].
  by destruct r as [[]| | |].
Qed.

(** In every state, the listed functions hold their trees; where the sizes
    are ones with which [clearBuffer] returns, the buffer has them. *)
Lemma reachable_consistent self :
  reachable self ->
  Forall hasTree (functions self) /\ (sized self -> consistent self).
Proof.
  induction 1 as [settings self H
                 | fuel expression name symbol self ok self' _ IH H
                 | index self _ IH | self _ IH
                 | xMin xMax yMin yMax self _ IH
                 | width height self _ IH].
  - assert (consistent self) as Hc
      by (eapply clearBuffer_consistent; [exact H|]; simpl; constructor).
    split; [by destruct Hc as (_ & _ & Hf) | done].
  - rewrite addFunction_parse in H.
    destruct (parseText fuel expression) as [tree| | |] eqn:Hp; simplify_eq;
      [|done].
    destruct IH as [Hf Hc].
    assert (Forall hasTree (functions self ++
              [Function.mk expression name symbol (Some tree)])) as Hf'.
    { apply Forall_app. split; [done|]. constructor; [|constructor].
      by exists fuel, tree. }
    split; [done|]. intros Hs. destruct (Hc Hs) as (Hh & Hw & _).
    repeat split; done.
  - destruct IH as [Hf Hc]. unfold removeFunction. case_match; [|done].
    assert (Forall hasTree (delete index (functions self))) as Hf'
      by by apply Forall_delete.
    split; [done|]. intros Hs. destruct (Hc Hs) as (Hh & Hw & _).
    repeat split; done.
  - destruct IH as [Hf Hc]. split; [constructor|].
    intros Hs. destruct (Hc Hs) as (Hh & Hw & _). repeat split; done.
  - destruct IH as [Hf Hc]. split; [done|]. intros Hs. by apply Hc.
  - destruct IH as [Hf _]. unfold setDisplaySize_call.
    destruct (clearBuffer_call_keeps (setSize width height self)) as [Hset Hfun].
    split; [by rewrite Hfun|]. intros Hs.
    apply (clearBuffer_consistent (setSize width height self)); [|exact Hf].
    apply sized_clearBuffer. unfold sized in *. by rewrite Hset in Hs.
Qed.

Lemma consistent_valid_point self (x y : Z) :
  consistent self ->
  isValidPoint self x y = true <->
  (0 <= x)%Z /\ (0 <= y)%Z /\ is_Some (cell self (Z.to_nat x) (Z.to_nat y)).
Proof.
  intros (Hh & Hw & _). unfold isValidPoint, cell.
  rewrite !andb_true_iff, !Z.leb_le, !Z.ltb_lt. split.
  - intros [[[Hx0 Hx] Hy0] Hy]. repeat split; try done.
    destruct (lookup_lt_is_Some_2 (displayBuffer self) (Z.to_nat y))
      as [row Hrow]; [lia|].
    rewrite Hrow. simpl. apply lookup_lt_is_Some_2.
    rewrite Forall_lookup in Hw. rewrite (Hw _ _ Hrow). lia.
  - intros (Hx0 & Hy0 & Hc).
    destruct (displayBuffer self !! Z.to_nat y) as [row|] eqn:Hrow;
      [|by destruct Hc].
    simpl in Hc. apply lookup_lt_is_Some_1 in Hc.
    rewrite Forall_lookup in Hw. rewrite (Hw _ _ Hrow) in Hc.
    apply lookup_lt_Some in Hrow. lia.
Qed.

Lemma valid_point_sized self (x y : Z) :
  isValidPoint self x y = true -> sized self.
Proof.
  unfold isValidPoint, sized.
  rewrite !andb_true_iff, !Z.leb_le, !Z.ltb_lt. lia.
Qed.

(** X28.  In every state that the constructors and the methods on the
    function list, the plot range and the display size lead to, the states
    that a throwing [setDisplaySize] leaves among them, every listed
    function holds the tree of its expression and [isValidPoint] holds only
    of the coordinates of a cell of the buffer.  Where the height is a size,
    and the width is one or the height is zero, as after every call that
    returned, the buffer has [height] rows of [width] cells and
    [isValidPoint] holds exactly of the coordinates of a cell.  A
    [setDisplaySize] that throws leaves the new width and height with the
    rows of the old width. *)
Theorem grapher_stays_consistent (self : ConsoleGrapher.t) :
  reachable self ->
  Forall hasTree (functions self) /\
  (forall x y : Z,
     isValidPoint self x y = true ->
     (0 <= x)%Z /\ (0 <= y)%Z /\
     is_Some (cell self (Z.to_nat x) (Z.to_nat y))) /\
  (sized self ->
     consistent self /\
     forall x y : Z,
       isValidPoint self x y = true <->
       (0 <= x)%Z /\ (0 <= y)%Z /\
       is_Some (cell self (Z.to_nat x) (Z.to_nat y))) /\
  (forall width height : Z,
     let self' := (setDisplaySize_call width height self).1 in
     PlotSettings.width (settings self') = width /\
     PlotSettings.height (settings self') = height /\
     ((setDisplaySize_call width height self).2 = Ok tt -> sized self') /\
     ((height < 0)%Z -> displayBuffer self' = displayBuffer self) /\
     ((0 < height)%Z -> (width < 0)%Z ->
      vector_resize height [] (displayBuffer self) = Ok (displayBuffer self'))).
Proof.
  intros H. destruct (reachable_consistent self H) as [Hf Hc].
  split; [done|]. split; [|split].
  - intros x y Hv.
    by apply (consistent_valid_point self x y (Hc (valid_point_sized _ _ _ Hv))).
  - intros Hs. split; [by apply Hc|].
    intros x y. by apply consistent_valid_point, Hc.
  - intros width height self'.
    destruct (clearBuffer_call_keeps (setSize width height self)) as [Hset _].
    subst self'. unfold setDisplaySize_call. rewrite Hset.
    split; [done|]. split; [done|]. split.
    { intros Hok. pose proof (clearBuffer_isOk (setSize width height self)) as Hb.
      unfold clearBuffer in Hb.
      destruct (clearBuffer_call (setSize width height self)) as [self' r].
      simpl in *. subst r. simpl in Hb. symmetry in Hb.
      apply andb_true_iff in Hb as [Hh Hw]. apply orb_true_iff in Hw.
      unfold sized. rewrite Hset. simpl. lia. }
    unfold clearBuffer_call. simpl. split.
    + intros Hneg. unfold vector_resize.
      by replace (height <? 0)%Z with true by (symmetry; apply Z.ltb_lt; lia).
    + intros Hpos Hneg.
      destruct (vector_resize_nonneg height [] (displayBuffer self))
        as [rows ->]; [lia|].
      assert ((resizeRows width rows).1 = rows) as Hrows.
      { destruct rows as [|row rows]; [done|]. simpl. unfold vector_resize.
        by replace (width <? 0)%Z with true by (symmetry; apply Z.ltb_lt; lia). }
      destruct (resizeRows width rows). simpl in *. by subst.
Qed.

Lemma grapher_stays_consistent_witness :
  let settings := PlotSettings.mk (-10) 10 (-10) 10 3%Z 2%Z true true "." "+" "*" in
  let self := ConsoleGrapher.mk settings []
                [[" "; " "; " "]; [" "; " "; " "]]%char in
  let self' := (setDisplaySize_call (-1) 1 self).1 in
  (consistent self /\ isValidPoint self 2 1 = true) /\
  (self' =
     ConsoleGrapher.mk
       (PlotSettings.mk (-10) 10 (-10) 10 (-1)%Z 1%Z true true "." "+" "*") []
       [[" "; " "; " "]]%char /\
   forall x y : Z,
     isValidPoint self' x y = true ->
     (0 <= x)%Z /\ (0 <= y)%Z /\
     is_Some (cell self' (Z.to_nat x) (Z.to_nat y))).
Proof.
  assert (reachable
            (ConsoleGrapher.mk
               (PlotSettings.mk (-10) 10 (-10) 10 3%Z 2%Z true true "." "+" "*")
               [] [[" "; " "; " "]; [" "; " "; " "]]%char)) as Hr.
  { apply (reachable_new
             (PlotSettings.mk (-10) 10 (-10) 10 3%Z 2%Z true true "." "+" "*")).
    reflexivity. }
  split.
  - destruct (grapher_stays_consistent _ Hr) as (_ & _ & Hs & _).
    split; [|reflexivity]. apply Hs. unfold sized. simpl. lia.
  - split; [reflexivity|].
    exact (proj1 (proj2 (grapher_stays_consistent _
                           (reachable_setDisplaySize (-1) 1 _ Hr)))).
Defined.

(** X29.  [clearBuffer] clears nothing: inside the new size, a cell that
    existed keeps its character and a new cell is a space. *)
Theorem clearBuffer_keeps_the_cells (self self' : ConsoleGrapher.t) (x y : nat) :
  clearBuffer self = Ok self' ->
  (Z.of_nat x < PlotSettings.width (settings self))%Z ->
  (Z.of_nat y < PlotSettings.height (settings self))%Z ->
  cell self' x y = Some (default " "%char (cell self x y)).
Proof.
  intros H Hx Hy.
  destruct (clearBuffer_Ok _ _ H) as (_ & _ & rows & Hrows & Hrows').
  destruct (vector_resize_Ok _ _ _ _ Hrows) as [Hlen Hrow].
  specialize (Hrow y ltac:(lia)).
  destruct (Forall2_lookup_l _ _ _ _ _ Hrows' Hrow) as (row' & Hrow' & Hres).
  destruct (vector_resize_Ok _ _ _ _ Hres) as [_ Hcell].
  unfold cell. rewrite Hrow'. simpl. rewrite (Hcell x) by lia.
  by destruct (displayBuffer self !! y).
Qed.

Lemma clearBuffer_keeps_the_cells_witness :
  let settings := PlotSettings.mk (-10) 10 (-10) 10 2%Z 1%Z true true "." "+" "*" in
  let self := ConsoleGrapher.mk settings [] [["*"]]%char in
  let self' := ConsoleGrapher.mk settings [] [["*"; " "]]%char in
  cell self' 0 0 = Some (default " "%char (cell self 0 0)).
Proof.
  apply (clearBuffer_keeps_the_cells
           (ConsoleGrapher.mk
              (PlotSettings.mk (-10) 10 (-10) 10 2%Z 1%Z true true "." "+" "*")
              [] [["*"]]%char)
           (ConsoleGrapher.mk
              (PlotSettings.mk (-10) 10 (-10) 10 2%Z 1%Z true true "." "+" "*")
              [] [["*"; " "]]%char) 0 0).
  - reflexivity.
  - reflexivity.
  - reflexivity.
Defined.

(** ** Sizes that are rejected *)

(** X30.  [setDisplaySize] throws exactly on a negative height, or on a
    negative width when there is a row to resize; a negative width with
    height 0 is accepted. *)
Theorem setDisplaySize_rejects_negative_sizes (width height : Z)
    (self : ConsoleGrapher.t) :
  isOk (setDisplaySize width height self) =
  ((0 <=? height) && ((0 <=? width) || (height =? 0)))%Z.
Proof. unfold setDisplaySize. by rewrite clearBuffer_isOk. Qed.

End GrapherLaws.

(* ===================================================================== *)
(** * Termination of the parser                                           *)
(* ===================================================================== *)

Module ParserTermination.
Import Parser ParserFuel LexSpec LexerFacts TokenFacts Printed Termination.
Import LexerLaws ParsedFacts ResFacts.

(** ** Answers *)

Lemma returned_Ok {A} d p (a : A) p' :
  tokenRead p' -> unread p' + d <= unread p -> returned d p (Ok (a, p')).
Proof. intros Ht Hu. split; [done|]. intros a' p'' [= <- <-]. done. Qed.

Lemma returned_Err {A} d p m : returned (A := A) d p (Err m).
Proof. split; done. Qed.

Lemma returned_weaken {A} d d' p q (r : Res (A * Parser.t)) :
  returned d q r -> unread q + d' <= unread p + d -> returned d' p r.
Proof.
  intros [Hr Hd] Hle. split; [done|]. intros a p' E.
  destruct (Hd a p' E) as [Ht Hu]. split; [done | lia].
Qed.

Lemma returned_bind {A B} d p (r : Res (A * Parser.t))
    (k : A * Parser.t -> Res (B * Parser.t)) :
  returned d p r ->
  (forall a p1, tokenRead p1 -> unread p1 + d <= unread p ->
     returned 0 p1 (k (a, p1))) ->
  returned d p (r ≫= k).
Proof.
  intros [Hr Hd] Hk.
  destruct r as [[a p1]| | |]; [|by apply returned_Err|by destruct Hr..].
  destruct (Hd a p1 eq_refl) as [Ht Hu]. simpl.
  eapply returned_weaken; [by apply Hk|]. lia.
Qed.

Lemma returned_refines {A} d p (r r' : Res (A * Parser.t)) :
  refines r r' -> returned d p r -> returned d p r'.
Proof. intros [-> | ->] H; [by destruct H as [[] _] | done]. Qed.

Lemma stod_answers s : answer (Cxx.stod s).
Proof. unfold Cxx.stod, Cxx.round_binary64. repeat case_match; done. Qed.

(** ** What a token consumes *)

Lemma advance_unread p :
  tokenRead (advance p) /\ unread (advance p) <= Lexer.remaining (lexer p).
Proof.
  unfold advance, tokenRead, unread, currentType.
  destruct (Nat.le_gt_cases (Lexer.length (lexer p)) (Lexer.position (lexer p)))
    as [Hend | Hin].
  - rewrite getNextToken_past_end by done. simpl. split; [done | lia].
  - destruct (L_form (lexer p)) as (pre & s & ->); [lia|].
    rewrite getNextToken_L.
    destruct (lexSuffix pre s) as [tok [pre' s']] eqn:E. simpl.
    split; [by eapply lexSuffix_nonempty|].
    destruct (lexSuffix_shape _ _ _ _ _ E) as (ws & _ & -> & _ & _).
    rewrite !L_remaining, !length_app. lia.
Qed.

Lemma advance_any p : tokenRead (advance p) /\ unread (advance p) <= unread p.
Proof. destruct (advance_unread p) as [Ht Hu]. split; [done|]. unfold unread in *. lia. Qed.

Lemma advance_token p :
  tokenRead p -> currentType p <> TokenType.END_OF_FILE ->
  tokenRead (advance p) /\ unread (advance p) + 1 <= unread p.
Proof.
  intros Hp Hty. destruct (advance_unread p) as [Ht Hu]. split; [done|].
  specialize (Hp Hty). unfold unread in *. lia.
Qed.

(** ** Enough fuel *)

Lemma parserReturns_S bound n : parserReturns bound n -> parserReturns bound (S n).
Proof.
  intros H p Hp Hm.
  destruct (H p Hp Hm) as (He & Ht & Htw & Hf & Hfw & Hpw & Hpr & Hfn & Hfnw).
  destruct (parse_step_monotone n)
    as (Me & Mt & Mtw & Mf & Mfw & Mpw & Mpr & Mfn & Mfnw).
  refine (conj _ (conj _ (conj _ (conj _ (conj _ (conj _ (conj _ (conj _ _)))))))).
  - exact (returned_refines _ _ _ _ (Me p) He).
  - exact (returned_refines _ _ _ _ (Mt p) Ht).
  - intros l. exact (returned_refines _ _ _ _ (Mtw l p) (Htw l)).
  - exact (returned_refines _ _ _ _ (Mf p) Hf).
  - intros l. exact (returned_refines _ _ _ _ (Mfw l p) (Hfw l)).
  - exact (returned_refines _ _ _ _ (Mpw p) Hpw).
  - exact (returned_refines _ _ _ _ (Mpr p) Hpr).
  - intros Hty. exact (returned_refines _ _ _ _ (Mfn p) (Hfn Hty)).
  - intros args. exact (returned_refines _ _ _ _ (Mfnw args p) (Hfnw args)).
Qed.

Lemma parserReturns_le bound n m :
  n <= m -> parserReturns bound n -> parserReturns bound m.
Proof.
  induction 1 as [|m Hle IH]; [done|]. intros Hn. apply parserReturns_S. auto.
Qed.

Lemma expect_answers type message p : answer (expect type message p).
Proof. unfold expect, throwError. by destruct (decide _). Qed.

Ltac not_answer :=
  exfalso;
  match goal with
  | H : expect ?type ?message ?p = _ |- _ =>
      destruct (expect_answers type message p); congruence
  | H : Cxx.stod ?s = _ |- _ => destruct (stod_answers s); congruence
  end.

Lemma parserReturns_step M :
  parserReturns M (6 * M) -> parserReturns (S M) (6 * M + 6).
Proof.
  intros IH.
  assert (sub : forall n q, 6 * M <= n -> tokenRead q -> unread q < M ->
    returned 1 q (parseExpression n q) /\
    returned 1 q (parseFactor n q) /\
    returned 1 q (parsePower n q) /\
    returned 1 q (parsePrimary n q) /\
    (forall l, returned 0 q (parseTerm_while n l q)) /\
    (forall l, returned 0 q (parseFactor_while n l q)) /\
    (forall args, returned 0 q (parseFunction_while n args q))).
  { intros n q Hn Hq Hlt.
    destruct (parserReturns_le M _ n Hn IH q Hq Hlt)
      as (He & Ht & Htw & Hf & Hfw & Hpw & Hpr & Hfn & Hfnw).
    refine (conj _ (conj _ (conj _ (conj _ (conj _ (conj _ _)))))); done. }
  intros p Hp Hm.
  assert (Hadv := advance_token p Hp).
  assert (HFnw : forall n args, 6 * M <= n ->
            returned 0 p (parseFunction_while (S n) args p)).
  { intros n args Hn. rewrite parseFunction_while_S.
    destruct (currentType p) eqn:Hty;
      try (apply returned_Ok; [done | lia]).
    destruct Hadv as [Ha Hu]; [done|].
    destruct (sub n (advance p) Hn Ha ltac:(lia)) as (He & _).
    eapply returned_weaken with (q := advance p) (d := 1); [|lia].
    apply returned_bind; [done|]. intros a p1 Hp1 Hu1.
    destruct (sub n p1 Hn Hp1 ltac:(lia)) as (_ & _ & _ & _ & _ & _ & H). apply H. }
  assert (HTw : forall n l, 6 * M <= n ->
            returned 0 p (parseTerm_while (S n) l p)).
  { intros n l Hn. rewrite parseTerm_while_S.
    destruct (currentType p) eqn:Hty;
      try (apply returned_Ok; [done | lia]); cbv zeta;
      (destruct Hadv as [Ha Hu]; [done|]);
      destruct (sub n (advance p) Hn Ha ltac:(lia)) as (_ & Hf & _);
      (eapply returned_weaken with (q := advance p) (d := 1); [|lia]);
      (apply returned_bind; [done|]); intros a p1 Hp1 Hu1;
      destruct (sub n p1 Hn Hp1 ltac:(lia)) as (_ & _ & _ & _ & H & _); apply H. }
  assert (HFn : forall n, 6 * M <= n -> currentType p = TokenType.FUNCTION ->
            returned 1 p (parseFunction (S n) p)).
  { intros n Hn Hty. rewrite parseFunction_S. cbv zeta.
    destruct Hadv as [Ha Hu]; [by rewrite Hty|].
    destruct (expect TokenType.LEFT_PAREN _ (advance p)) as [[]| | |] eqn:Hex;
      [|by apply returned_Err|not_answer..].
    simpl. destruct (advance_any (advance p)) as [Ha2 Hu2].
    eapply returned_weaken with (q := advance (advance p)) (d := 0); [|lia].
    apply returned_bind.
    - destruct (decide _); [apply returned_Ok; [done | lia]|].
      destruct (sub n (advance (advance p)) Hn Ha2 ltac:(lia)) as (He & _).
      eapply returned_weaken with (q := advance (advance p)) (d := 1); [|lia].
      apply returned_bind; [done|]. intros a p1 Hp1 Hu1.
      destruct (sub n p1 Hn Hp1 ltac:(lia)) as (_ & _ & _ & _ & _ & _ & H).
      apply H.
    - intros args p3 Hp3 Hu3.
      destruct (expect TokenType.RIGHT_PAREN _ p3) as [[]| | |] eqn:Hex3;
        [|by apply returned_Err|not_answer..].
      simpl. destruct (advance_any p3) as [Ha3 Hua3].
      apply returned_Ok; [done | lia]. }
  assert (HPr : forall n, 6 * M + 1 <= n -> returned 1 p (parsePrimary (S n) p)).
  { intros n Hn. rewrite parsePrimary_S.
    destruct (currentType p) eqn:Hty; try (by apply returned_Err);
      try (destruct Hadv as [Ha Hu]; [done|]).
    - destruct (Cxx.stod _) as [v| | |] eqn:Hs;
        [|by apply returned_Err|not_answer..].
      simpl. by apply returned_Ok.
    - by apply returned_Ok.
    - cbv zeta.
      destruct (sub n (advance p) ltac:(lia) Ha ltac:(lia)) as (_ & _ & _ & Hpr & _).
      eapply returned_weaken with (q := advance p) (d := 1); [|lia].
      apply returned_bind; [done|]. intros a p1 Hp1 Hu1.
      apply returned_Ok; [done | lia].
    - cbv zeta.
      destruct (sub n (advance p) ltac:(lia) Ha ltac:(lia)) as (_ & _ & _ & Hpr & _).
      eapply returned_weaken with (q := advance p) (d := 1); [|lia].
      apply returned_bind; [done|]. intros a p1 Hp1 Hu1.
      apply returned_Ok; [done | lia].
    - destruct (sub n (advance p) ltac:(lia) Ha ltac:(lia)) as (He & _).
      eapply returned_weaken with (q := advance p) (d := 1); [|lia].
      apply returned_bind; [done|]. intros a p2 Hp2 Hu2.
      destruct (expect TokenType.RIGHT_PAREN _ p2) as [[]| | |] eqn:Hex;
        [|by apply returned_Err|not_answer..].
      simpl. destruct (advance_any p2) as [Ha2 Hua2].
      apply returned_Ok; [done | lia].
    - destruct n as [|n]; [lia|]. apply HFn; [lia | done]. }
  assert (HPw : forall n, 6 * M + 2 <= n -> returned 1 p (parsePower (S n) p)).
  { intros n Hn. rewrite parsePower_S.
    destruct n as [|n]; [lia|].
    apply returned_bind; [apply HPr; lia|]. intros l p1 Hp1 Hu1.
    destruct (currentType p1) eqn:Hty;
      try (apply returned_Ok; [done | lia]).
    destruct (advance_token p1 Hp1) as [Ha Hu]; [by rewrite Hty|].
    destruct (sub (S n) (advance p1) ltac:(lia) Ha ltac:(lia))
      as (_ & _ & Hpw & _).
    eapply returned_weaken with (q := advance p1) (d := 1); [|lia].
    apply returned_bind; [done|]. intros r p3 Hp3 Hu3.
    apply returned_Ok; [done | lia]. }
  assert (HFw : forall n l, 6 * M + 3 <= n ->
            returned 0 p (parseFactor_while (S n) l p)).
  { intros n l Hn. rewrite parseFactor_while_S.
    destruct (continuesFactor (currentType p)) eqn:Hc;
      [|apply returned_Ok; [done | lia]].
    assert (Hnext : forall op p1, tokenRead p1 -> unread p1 <= unread p ->
              returned 1 p1 (parsePower n p1) ->
              returned 0 p ('(r, p2) ← parsePower n p1;
                            parseFactor_while n (BinaryOpNode op l r) p2)).
    { intros op p1 Hp1 Hu1 Hpw.
      eapply returned_weaken with (q := p1) (d := 1); [|lia].
      apply returned_bind; [done|]. intros r p2 Hp2 Hu2.
      destruct (sub n p2 ltac:(lia) Hp2 ltac:(lia))
        as (_ & _ & _ & _ & _ & H & _). apply H. }
    assert (Hhere : returned 1 p (parsePower n p)).
    { destruct n as [|n]; [lia|]. apply HPw. lia. }
    destruct (currentType p) eqn:Hty; try discriminate;
      cbv zeta beta iota; try (by apply Hnext);
      (destruct Hadv as [Ha Hu]; [done|]);
      (apply Hnext; [done | lia |]);
      destruct (sub n (advance p) ltac:(lia) Ha ltac:(lia)) as (_ & _ & H & _);
      apply H. }
  assert (HF : forall n, 6 * M + 3 <= n -> returned 1 p (parseFactor (S n) p)).
  { intros n Hn. rewrite parseFactor_S. destruct n as [|n]; [lia|].
    apply returned_bind; [apply HPw; lia|]. intros l p1 Hp1 Hu1.
    destruct (sub (S n) p1 ltac:(lia) Hp1 ltac:(lia))
      as (_ & _ & _ & _ & _ & H & _). apply H. }
  assert (HT : forall n, 6 * M + 4 <= n -> returned 1 p (parseTerm (S n) p)).
  { intros n Hn. rewrite parseTerm_S. destruct n as [|n]; [lia|].
    apply returned_bind; [apply HF; lia|]. intros l p1 Hp1 Hu1.
    destruct (sub (S n) p1 ltac:(lia) Hp1 ltac:(lia))
      as (_ & _ & _ & _ & H & _). apply H. }
  replace (6 * M + 6) with (S (6 * M + 5)) by lia.
  refine (conj _ (conj _ (conj _ (conj _ (conj _ (conj _ (conj _ (conj _ _)))))))).
  - rewrite parseExpression_S.
    replace (6 * M + 5) with (S (6 * M + 4)) by lia. apply HT. lia.
  - apply HT. lia.
  - intros l. apply HTw. lia.
  - apply HF. lia.
  - intros l. apply HFw. lia.
  - apply HPw. lia.
  - apply HPr. lia.
  - apply HFn. lia.
  - intros args. apply HFnw. lia.
Qed.

Lemma parser_returns M : parserReturns M (6 * M).
Proof.
  induction M as [|M IH].
  - intros p _ H. lia.
  - eapply parserReturns_le; [|apply parserReturns_step, IH]. lia.
Qed.

Lemma new_unread s :
  tokenRead (Parser.new s) /\ unread (Parser.new s) <= String.length s.
Proof.
  unfold Parser.new.
  destruct (advance_unread
              (Parser.mk (Lexer.new s) (Token.mk TokenType.INVALID "" 0)))
    as [Ht Hu].
  split; [done|]. simpl in Hu. unfold Lexer.remaining, Lexer.length in Hu.
  simpl in Hu. lia.
Qed.

(** With enough fuel for the length of the text, [parse] answers. *)
Lemma parseText_answers (n : nat) (s : string) :
  6 * (String.length s + 1) <= n -> answer (parseText n s).
Proof.
  intros Hn. destruct (new_unread s) as [Ht Hu].
  destruct (parserReturns_le _ _ n Hn (parser_returns (String.length s + 1))
              (Parser.new s) Ht ltac:(lia)) as ([He _] & _).
  unfold parseText, parse.
  destruct (parseExpression n (Parser.new s)) as [[t p1]| | |];
    [|done|by destruct He..].
  simpl.
  destruct (expect TokenType.END_OF_FILE _ p1) as [[]| | |] eqn:Hex;
    [done | done | not_answer..].
Qed.

(** An answer reached with any fuel is the answer with enough fuel for the
    length of the text. *)
Lemma parseText_at (n fuel : nat) (s : string) (r : Res ASTNode) :
  parseText n s = r -> r <> OutOfFuel ->
  6 * (String.length s + 1) <= fuel -> parseText fuel s = r.
Proof.
  intros Hn Hr Hfuel. destruct (parseText_answers fuel s Hfuel) as [Hf _].
  destruct (Nat.le_ge_cases n fuel) as [Hle | Hle].
  - destruct (parseText_monotone _ _ s Hle) as [E | E]; congruence.
  - destruct (parseText_monotone _ _ s Hle) as [E | E]; congruence.
Qed.

(** X10.  The parser terminates on every text, within a recursion depth
    linear in its length: with fuel 6 * (length + 1) or more, [parse]
    answers with a tree or with an error message, the same for every such
    fuel, and the facade returns its [bool]. *)
Theorem parser_terminates (fuel : nat) (s : string) :
  6 * (String.length s + 1) <= fuel ->
  ((exists tree, parseText fuel s = Ok tree) \/
   (exists what, parseText fuel s = Err what)) /\
  (forall fuel', 6 * (String.length s + 1) <= fuel' ->
     parseText fuel' s = parseText fuel s) /\
  exists ok parser,
    ExpressionParser.parse fuel s ExpressionParser.new = Ok (ok, parser).
Proof.
  intros Hfuel. destruct (parseText_answers fuel s Hfuel) as [Hf Hd].
  split; [|split].
  - destruct (parseText fuel s) as [t|m| |]; [eauto | eauto | done..].
  - intros fuel' Hfuel'. by apply (parseText_at fuel).
  - unfold ExpressionParser.parse. unfold parseText in Hf, Hd.
    destruct (Parser.parse fuel (Parser.new s)) as [t|m| |]; [| |done..]; eauto.
Qed.

Lemma parser_terminates_witness :
  ((exists tree, parseText 30 "2+x" = Ok tree) \/
   (exists what, parseText 30 "2+x" = Err what)) /\
  (forall fuel', 6 * (String.length "2+x" + 1) <= fuel' ->
     parseText fuel' "2+x" = parseText 30 "2+x") /\
  exists ok parser,
    ExpressionParser.parse 30 "2+x" ExpressionParser.new = Ok (ok, parser).
Proof.
  apply (parser_terminates 30 "2+x"). simpl. lia.
Defined.

End ParserTermination.

(* ===================================================================== *)
(** * The errors of the parser                                            *)
(* ===================================================================== *)

Module ParserErrors.
Import Parser ParserFuel LexSpec LexerFacts TokenFacts Printed Errors.
Import LexerLaws ParsedFacts ResFacts.

(** ** Answers *)

Lemma answered_Ok {A} inp (a : A) p' : located inp p' -> answered inp (Ok (a, p')).
Proof. intros H. split; [done|]. by intros a' p'' [= <- <-]. Qed.

Lemma answered_Err {A} inp what :
  parseError inp what -> answered (A := A) inp (Err what).
Proof. intros H. split; [by intros m [= <-] | done]. Qed.

Lemma answered_bind {A B} inp (r : Res (A * Parser.t))
    (k : A * Parser.t -> Res (B * Parser.t)) :
  answered inp r ->
  (forall a p1, located inp p1 -> answered inp (k (a, p1))) ->
  answered inp (r ≫= k).
Proof.
  intros [He Ho] Hk. destruct r as [[a p1]|m| |]; simpl.
  - apply Hk. by eapply Ho.
  - apply answered_Err. by apply He.
  - split; done.
  - split; done.
Qed.

(** ** The current token stays inside the text *)

Lemma lexSuffix_short pre s tok rest :
  lexSuffix pre s = (tok, rest) ->
  match Token.type tok with
  | TokenType.NUMBER | TokenType.VARIABLE | TokenType.FUNCTION => True
  | _ => String.length (Token.value tok) <= 1
  end.
Proof.
  unfold lexSuffix. intros H.
  destruct (spanWhile Cxx.isspace s) as [ws s1].
  destruct s1 as [|c s2]; [simplify_eq; simpl; lia|].
  destruct (Cxx.isdigit c || Ascii.eqb c ".").
  { destruct (spanNumber false (String c s2)). by simplify_eq. }
  destruct (Cxx.isalpha c || Ascii.eqb c "_").
  { destruct (spanWhile Lexer.is_ident_char (String c s2)) as [u r].
    simplify_eq. simpl. by destruct (Lexer.isFunction u). }
  simplify_eq. simpl. by destruct (Lexer.punctuation c).
Qed.

Lemma advance_located inp p : located inp p -> located inp (advance p).
Proof.
  intros (Hin & Hpos & _ & _). unfold advance, located, currentType.
  destruct (L_form (lexer p)) as (pre & s & E).
  { unfold Lexer.length. by rewrite Hin. }
  rewrite E in *. rewrite L_input in Hin. subst inp.
  rewrite getNextToken_L.
  destruct (lexSuffix pre s) as [tok [pre' s']] eqn:El. simpl.
  pose proof (lexSuffix_short _ _ _ _ El) as Hshort.
  destruct (lexSuffix_shape _ _ _ _ _ El) as (ws & _ & -> & -> & Htok).
  rewrite Htok, !length_app.
  repeat apply conj; [by rewrite !app_assoc | lia | lia | done].
Qed.

Lemma new_located s : located s (Parser.new s).
Proof.
  unfold Parser.new. apply advance_located.
  repeat apply conj; simpl; lia || done.
Qed.

Lemma expect_answered type message inp p what :
  located inp p -> message ∈ expectations ->
  expect type message p = Err what -> parseError inp what.
Proof.
  intros (_ & _ & Hpos & _) Hm. unfold expect, throwError.
  destruct (decide (currentType p = type)); [done|]. intros [= <-].
  destruct (decide (message = "")) as [-> | _].
  { unfold expectations in Hm. set_solver. }
  by constructor.
Qed.

Ltac expect_step Hp :=
  match goal with
  | |- answered _ (expect ?ty ?msg ?q ≫= _) =>
      let Hex := fresh "Hex" in
      destruct (expect ty msg q) as [[]|?| |] eqn:Hex; simpl;
      [ | apply answered_Err;
          refine (expect_answered _ _ _ _ _ Hp _ Hex);
          unfold expectations; set_solver
        | split; done
        | split; done ]
  end.

Lemma parser_answers inp n : parserAnswers inp n.
Proof.
  induction n as [|n IH].
  { intros p _.
    refine (conj _ (conj _ (conj _ (conj _ (conj _ (conj _ (conj _ (conj _ _))))))));
      intros; split; done. }
  intros p Hp.
  assert (Ha := advance_located inp p Hp).
  destruct (IH p Hp) as (He & Ht & Htw & Hf & Hfw & Hpw & Hpr & Hfn & Hfnw).
  destruct (IH (advance p) Ha)
    as (Hae & Hat & Hatw & Haf & Hafw & Hapw & Hapr & Hafn & Hafnw).
  refine (conj _ (conj _ (conj _ (conj _ (conj _ (conj _ (conj _ (conj _ _)))))))).
  - by rewrite parseExpression_S.
  - rewrite parseTerm_S. apply answered_bind; [done|]. intros l p1 Hp1.
    destruct (IH p1 Hp1) as (_ & _ & H & _). apply H.
  - intros l. rewrite parseTerm_while_S.
    destruct (currentType p); try (by apply answered_Ok); cbv zeta;
      (apply answered_bind; [done|]); intros r p2 Hp2;
      destruct (IH p2 Hp2) as (_ & _ & H & _); apply H.
  - rewrite parseFactor_S. apply answered_bind; [done|]. intros l p1 Hp1.
    destruct (IH p1 Hp1) as (_ & _ & _ & _ & H & _). apply H.
  - intros l. rewrite parseFactor_while_S.
    destruct (continuesFactor (currentType p)); [|by apply answered_Ok].
    destruct (currentType p); cbv zeta beta iota;
      (apply answered_bind; [done|]); intros r p2 Hp2;
      destruct (IH p2 Hp2) as (_ & _ & _ & _ & H & _); apply H.
  - rewrite parsePower_S. apply answered_bind; [done|]. intros l p1 Hp1.
    destruct (currentType p1); try (by apply answered_Ok).
    destruct (IH (advance p1) (advance_located _ _ Hp1))
      as (_ & _ & _ & _ & _ & H & _).
    apply answered_bind; [done|]. intros r p3 Hp3. by apply answered_Ok.
  - rewrite parsePrimary_S.
    destruct Hp as (_ & _ & _ & Hshort).
    destruct (currentType p) eqn:Hty;
      try (apply answered_Err; by constructor).
    + destruct (Cxx.stod _) as [v|m| |] eqn:Hs; simpl.
      * by apply answered_Ok.
      * apply answered_Err.
        assert (m = "stod") as ->; [|constructor].
        revert Hs. unfold Cxx.stod, Cxx.round_binary64.
        repeat case_match; congruence.
      * split; done.
      * split; done.
    + by apply answered_Ok.
    + cbv zeta. apply answered_bind; [done|]. intros x p2 Hp2.
      by apply answered_Ok.
    + cbv zeta. apply answered_bind; [done|]. intros x p2 Hp2.
      by apply answered_Ok.
    + apply answered_bind; [done|]. intros e p2 Hp2.
      expect_step Hp2. apply answered_Ok. by apply advance_located.
    + done.
  - rewrite parseFunction_S. cbv zeta.
    expect_step Ha.
    assert (Ha2 := advance_located inp _ Ha).
    apply answered_bind.
    + destruct (decide _); [by apply answered_Ok|].
      destruct (IH _ Ha2) as (H & _).
      apply answered_bind; [done|]. intros a p4 Hp4.
      destruct (IH p4 Hp4) as (_ & _ & _ & _ & _ & _ & _ & _ & H4). apply H4.
    + intros args p3 Hp3. expect_step Hp3.
      apply answered_Ok. by apply advance_located.
  - intros args. rewrite parseFunction_while_S.
    destruct (currentType p); try (by apply answered_Ok).
    apply answered_bind; [done|]. intros a p2 Hp2.
    destruct (IH p2 Hp2) as (_ & _ & _ & _ & _ & _ & _ & _ & H). apply H.
Qed.

(** X11.  The errors of [parse] on a text are of three kinds: "Unexpected
    token: " followed by the text of the token found where a primary must
    start, one character at most; "stod", the message of the conversion of
    a NUMBER token that is no number; or one of the three expectations
    (closing parenthesis, opening parenthesis after a function name, end of
    expression) followed by " at position " and an offset inside the
    text. *)
Theorem parse_errors_are_located (fuel : nat) (s what : string) :
  parseText fuel s = Err what -> parseError s what.
Proof.
  unfold parseText, parse. intros H.
  destruct (parser_answers s fuel (Parser.new s) (new_located s)) as ([He Ho] & _).
  destruct (parseExpression fuel (Parser.new s)) as [[t p1]|m| |];
    simpl in H; [| |done..].
  - pose proof (Ho _ _ eq_refl) as Hp1.
    destruct (expect TokenType.END_OF_FILE _ p1) as [[]|m| |] eqn:Hex;
      simpl in H; [done| |done..].
    simplify_eq.
    refine (expect_answered _ _ _ _ _ Hp1 _ Hex).
    unfold expectations. set_solver.
  - simplify_eq. by apply He.
Qed.

Lemma parse_errors_are_located_witness :
  parseError "(2 + x" "Expected closing parenthesis at position 6".
Proof.
  apply (parse_errors_are_located 20 "(2 + x"). vm_compute. reflexivity.
Defined.

End ParserErrors.

(* ===================================================================== *)
(** * Printing and parsing whole numbers                                   *)
(* ===================================================================== *)

Module WholeNumbers.
Import Printed Whole RoundTrip ParserTermination.

(** Each whole number below [checked] survives printing. *)
Lemma whole_reads_back v : isWhole v -> readsBack v.
Proof.
  intros (n & Hn & ->). unfold checked in Hn.
  do 1000 (destruct n as [|n]; [vm_compute; split; reflexivity|]).
  lia.
Qed.

(** X12.  Printing and parsing are inverse on the trees with small whole
    numbers: for every tree of the shape the parser builds whose numeric
    leaves are whole numbers below 1000, parsing its printed form returns the
    tree itself, with any fuel that is enough for the length of the text. *)
Theorem printed_whole_numbers_parse_back (t : ASTNode) (fuel : nat) :
  wellFormed t = true ->
  Forall isWhole (numbers t) ->
  6 * (String.length (AST.toString t) + 1) <= fuel ->
  parseText fuel (AST.toString t) = Ok t.
Proof.
  intros Hwf Hnum Hfuel.
  assert (Hrb : Forall readsBack (numbers t)).
  { eapply Forall_impl; [exact Hnum|]. apply whole_reads_back. }
  destruct (printed_parses t Hwf Hrb) as [n0 Hn0].
  by apply (parseText_at n0 fuel _ _ (Hn0 n0 (le_n _))).
Qed.

Lemma printed_whole_numbers_parse_back_witness :
  parseText 200 "((2 * x) + sin((y ^ 10)))" =
  Ok (BinaryOpNode BinaryOpNode.ADD
        (BinaryOpNode BinaryOpNode.MULTIPLY (NumberNode 2) (VariableNode "x"))
        (FunctionNode "sin"
           [BinaryOpNode BinaryOpNode.POWER (VariableNode "y") (NumberNode 10)])).
Proof.
  apply (printed_whole_numbers_parse_back
           (BinaryOpNode BinaryOpNode.ADD
              (BinaryOpNode BinaryOpNode.MULTIPLY (NumberNode 2) (VariableNode "x"))
              (FunctionNode "sin"
                 [BinaryOpNode BinaryOpNode.POWER (VariableNode "y") (NumberNode 10)]))
           200).
  - reflexivity.
  - repeat constructor.
    + exists 2. split; [unfold checked; lia | reflexivity].
    + exists 10. split; [unfold checked; lia | reflexivity].
  - vm_compute. lia.
Defined.

End WholeNumbers.
